(** * ReelSense AI: the reel renderer and the audio feature extractor

    A shallow embedding of [src/video_renderer.py] (timeline, beat pulse,
    loudness envelope, typewriter, captions, hashtag strip, layer assembly)
    and of [_analyze_audio_features] in [src/music_analyzer_improved.py].

    Conventions of the embedding.
    - A Python [float] is an exact rational ([Q]); [max], [min], [abs] and
      [int] are the Python builtins on that domain.  Rounding of binary64 is
      not modelled.
    - A Python [str] is a [string]; a character is a code point below 256.
    - A Python [dict] with string keys is a [gmap string _].
    - A raised exception is the [Raise] branch of [result].
    - Calls into MoviePy, librosa and Pillow are not unfolded: a clip is the
      record of what the renderer asked MoviePy to build. *)

From Stdlib Require Import QArith Qminmax Qabs Qround Lqa Ascii String.
From stdpp Require Import gmap strings list fin_maps.

Local Open Scope Z_scope.
Local Open Scope Q_scope.

(** ** Python builtins on rationals *)

Module Py.

(** [max(a, b)]: the first argument unless the second is strictly larger. *)
Definition max (a b : Q) : Q := if Qlt_le_dec a b then b else a.

(** [min(a, b)]: the first argument unless the second is strictly smaller. *)
Definition min (a b : Q) : Q := if Qlt_le_dec b a then b else a.

(** [abs(a)]. *)
Definition abs (a : Q) : Q := Qabs a.

(** [int(a)]: truncation toward zero. *)
Definition int (a : Q) : Z := Z.quot (Qnum a) (Zpos (Qden a)).

(** [a < b] as a boolean. *)
Definition ltb (a b : Q) : bool := if Qlt_le_dec a b then true else false.

(** [a <= b] as a boolean. *)
Definition leb (a b : Q) : bool := if Qlt_le_dec b a then false else true.

End Py.

(** ** [_segment_timeline] *)

(** The literals of the source. *)
Definition c0_10 : Q := 1 # 10.
Definition c0_50 : Q := 1 # 2.
Definition c0_20 : Q := 1 # 5.
Definition c0_01 : Q := 1 # 100.

Definition _segment_timeline (duration : Q) : gmap string (Q * Q) :=
  let intro_end := duration * c0_10 in
  let hook_end := intro_end + duration * c0_10 in
  let dev_end := hook_end + duration * c0_50 in
  let climax_end := dev_end + duration * c0_20 in
  let closing_end := duration in
  <["closing" := (climax_end, closing_end)]>
  (<["climax" := (dev_end, climax_end)]>
  (<["development" := (hook_end, dev_end)]>
  (<["hook_moment" := (intro_end, hook_end)]>
  (<["intro" := (0, intro_end)]> ∅)))).

(** The keys of the timeline in the order the dict literal lists them. *)
Definition segment_names : list string :=
  ["intro"; "hook_moment"; "development"; "climax"; "closing"]%string.

(** The share of the track each segment is meant to take, same order. *)
Definition segment_shares : list Q := [c0_10; c0_10; c0_50; c0_20; c0_10].

(** The segments of a timeline read in canonical order; [None] when a name
    is missing. *)
Definition ordered_segments (tl : gmap string (Q * Q)) : option (list (Q * Q)) :=
  mapM (fun k => tl !! k) segment_names.

(** Each segment starts where the previous one ended, from [from] on. *)
Fixpoint contiguous_from (from : Q) (segs : list (Q * Q)) : Prop :=
  match segs with
  | [] => True
  | (s, e) :: rest => s = from /\ contiguous_from e rest
  end.

(** The end of the last segment, [from] for an empty list. *)
Fixpoint last_end (from : Q) (segs : list (Q * Q)) : Q :=
  match segs with
  | [] => from
  | (_, e) :: rest => last_end e rest
  end.

(** ** Python strings *)

Local Open Scope string_scope.

Module PyStr.

(** [c.isspace()] for a code point below 256. *)
Definition is_space (c : ascii) : bool :=
  let n := nat_of_ascii c in
  ((9 <=? n) && (n <=? 13) || (28 <=? n) && (n <=? 32)
   || (n =? 133) || (n =? 160))%nat.

(** [s.replace(a, b)] for one-character [a] and [b]. *)
Fixpoint replace (a b : ascii) (s : string) : string :=
  match s with
  | EmptyString => EmptyString
  | String c r => String (if Ascii.eqb c a then b else c) (replace a b r)
  end.

(** [s.lstrip()]. *)
Fixpoint lstrip (s : string) : string :=
  match s with
  | EmptyString => EmptyString
  | String c r => if is_space c then lstrip r else s
  end.

(** [s.rstrip()]. *)
Fixpoint rstrip (s : string) : string :=
  match s with
  | EmptyString => EmptyString
  | String c r =>
      match rstrip r with
      | EmptyString => if is_space c then EmptyString else String c EmptyString
      | r' => String c r'
      end
  end.

(** [s.strip()]. *)
Definition strip (s : string) : string := rstrip (lstrip s).

(** [s.lstrip(c)] for a one-character argument. *)
Fixpoint lstrip_char (c : ascii) (s : string) : string :=
  match s with
  | EmptyString => EmptyString
  | String c' r => if Ascii.eqb c' c then lstrip_char c r else s
  end.

(** The first [n] characters. *)
Fixpoint prefix (n : nat) (s : string) : string :=
  match n, s with
  | S n', String c r => String c (prefix n' r)
  | _, _ => EmptyString
  end.

(** [s[:n]]: a negative [n] counts from the end. *)
Definition slice_to (n : Z) (s : string) : string :=
  if (n <? 0)%Z
  then prefix (String.length s - Z.to_nat (- n)) s
  else prefix (Z.to_nat n) s.

(** [s.split(sep)] for a one-character separator. *)
Fixpoint split (sep : ascii) (s : string) : list string :=
  match s with
  | EmptyString => [EmptyString]
  | String c r =>
      if Ascii.eqb c sep then EmptyString :: split sep r
      else match split sep r with
           | p :: ps => String c p :: ps
           | [] => [String c EmptyString]
           end
  end.

(** [sep.join(parts)]. *)
Fixpoint join (sep : string) (parts : list string) : string :=
  match parts with
  | [] => EmptyString
  | [p] => p
  | p :: rest => p +:+ sep +:+ join sep rest
  end.

(** [not s] for a string. *)
Definition is_empty (s : string) : bool :=
  match s with EmptyString => true | _ => false end.

End PyStr.

(** ** [_safe_text] *)

Definition newline : ascii := ascii_of_nat 10.
Definition blank : ascii := ascii_of_nat 32.

Definition _safe_text (text : string) (max_len : Z) : string :=
  if PyStr.is_empty text then ""
  else
    let text := PyStr.strip (PyStr.replace newline blank text) in
    if (max_len <? Z.of_nat (String.length text))%Z
    then PyStr.slice_to (max_len - 3) text +:+ "..."
    else text.

(** ** Exceptions *)

Inductive exn : Type :=
  | FileNotFoundError
  | ParameterError
  | ValueError
  | KeyError
  | ZeroDivisionError
  | LibraryError.

Inductive result (A : Type) : Type :=
  | Ok (a : A)
  | Raise (e : exn).

Arguments Ok {A} a.
Arguments Raise {A} e.

Definition bind {A B : Type} (r : result A) (k : A -> result B) : result B :=
  match r with
  | Ok a => k a
  | Raise e => Raise e
  end.

Notation "'let*' x ':=' r 'in' k" := (bind r (fun x => k))
  (at level 10, x name, r at level 100, k at level 200).

(** [try: v = body except Exception: v = handler]. *)
Definition try_except {A : Type} (body : result A) (handler : A) : A :=
  match body with
  | Ok a => a
  | Raise _ => handler
  end.

(** [d[key]] on a dict. *)
Definition dict_get {V : Type} (d : gmap string V) (key : string) : result V :=
  match d !! key with
  | Some v => Ok v
  | None => Raise KeyError
  end.

(** ** Frames and blending *)

Definition pixel : Type := (Z * Z * Z)%type.

(** A frame gives the pixel at a row and a column. *)
Definition frame : Type := Z -> Z -> pixel.

(** One channel of [canvas*(1-opacity) + layer*opacity], stored as an
    integer. *)
Definition blend_channel (opacity : Q) (canvas layer : Z) : Z :=
  Py.int (inject_Z canvas * (1 - opacity) + inject_Z layer * opacity).

Definition blend_pixel (opacity : Q) (canvas layer : pixel) : pixel :=
  let '(r1, g1, b1) := canvas in
  let '(r2, g2, b2) := layer in
  (blend_channel opacity r1 r2, blend_channel opacity g1 g2,
   blend_channel opacity b1 b2).

(** The compositor's blend of a layer frame onto the canvas. *)
Definition blend (opacity : Q) (canvas layer : frame) : frame :=
  fun row col => blend_pixel opacity (canvas row col) (layer row col).

(** ** [_pulse_overlay] *)

Definition c0_35 : Q := 35 # 100.

(** One turn of the loop over the beat times in [make_frame]. *)
Definition pulse_step (t pulse bt : Q) : Q :=
  if Py.ltb (Py.abs (t - bt)) c0_10
  then Py.max pulse (1 - Py.abs (t - bt) / c0_10)
  else pulse.

(** The value of [pulse] after the loop. *)
Definition pulse_value (times : list Q) (t : Q) : Q :=
  fold_left (pulse_step t) times 0.

(** [alpha = (pulse ** 2) * 0.35]. *)
Definition pulse_alpha (times : list Q) (t : Q) : Q :=
  (pulse_value times t * pulse_value times t) * c0_35.

(** [val = int(alpha * 255)], the grey level of the whole frame. *)
Definition pulse_val (times : list Q) (t : Q) : Z :=
  Py.int (pulse_alpha times t * 255).

Definition pulse_make_frame (times : list Q) (t : Q) : frame :=
  fun _ _ => let val := pulse_val times t in (val, val, val).

(** The distance from [t] to the nearest of the beat times [bt :: rest]. *)
Fixpoint nearest_distance (t bt : Q) (rest : list Q) : Q :=
  match rest with
  | [] => Qabs (t - bt)
  | bt' :: rest' => Qmin (Qabs (t - bt)) (nearest_distance t bt' rest')
  end.

(** ** [_render_text_image] *)

(** Font lookup, word wrap and drawing belong to Pillow.  The image is
    recorded by what the drawing loop receives: the cleaned text, the box,
    the font size and the fill colour. *)
Record text_image : Type := {
  ti_text : string;
  ti_box : Z * Z;
  ti_fontsize : Z;
  ti_color : pixel
}.

Definition white : pixel := (255, 255, 255)%Z.

Definition _render_text_image (text : string) (box_size : Z * Z)
    (fontsize : Z) (color : pixel) : text_image :=
  {| ti_text := _safe_text text 220;
     ti_box := box_size;
     ti_fontsize := fontsize;
     ti_color := color |}.

(** ** Clips *)

(** What a clip shows. *)
Inductive source : Type :=
  | DynamicBg (duration : Q)
  | PulseFrames (times : list Q)
  | SolidColor (color : pixel)
  | StillImage (img : text_image)
  | TypewriterFrames (text : string) (dur : Q) (fontsize : Z)
  | WaveformFrames (env : list Q) (duration : Q).

Inductive position : Type :=
  | TopLeft
  | CenterAt (y : Z).

(** A MoviePy clip: [c_duration] is [None] for a clip built without one. *)
Record clip : Type := {
  c_source : source;
  c_start : Q;
  c_duration : option Q;
  c_opacity : Q;
  c_position : position
}.

(** [size[i] * x] truncated, as in [int(size[0] * 0.9)]. *)
Definition scaled (n : Z) (x : Q) : Z := Py.int (inject_Z n * x).

Definition _generate_dynamic_bg (size : Z * Z) (duration : Q) : clip :=
  {| c_source := DynamicBg duration; c_start := 0;
     c_duration := Some duration; c_opacity := 1; c_position := TopLeft |}.

Definition _pulse_overlay (size : Z * Z) (times : list Q) (duration : Q) : clip :=
  {| c_source := PulseFrames times; c_start := 0;
     c_duration := Some duration; c_opacity := 1; c_position := TopLeft |}.

(** [ColorClip(size, color=(0, 0, 0)).with_opacity(0)]. *)
Definition transparent_black (size : Z * Z) : clip :=
  {| c_source := SolidColor (0, 0, 0)%Z; c_start := 0;
     c_duration := None; c_opacity := 0; c_position := TopLeft |}.

(** The pixels of a clip at time [t], for the sources whose frames are
    computed by this module alone. *)
Definition frame_at (s : source) (t : Q) : option frame :=
  match s with
  | PulseFrames times => Some (pulse_make_frame times t)
  | SolidColor color => Some (fun _ _ => color)
  | _ => None
  end.

(** One step of the compositor: the clip blended onto the canvas. *)
Definition compose_on (canvas : frame) (c : clip) (t : Q) : option frame :=
  match frame_at (c_source c) t with
  | Some f => Some (blend (c_opacity c) canvas f)
  | None => None
  end.

Definition _image_text_clip (text : string) (size : Z * Z) (start end_ : Q)
    (fontsize : Z) : clip :=
  let img := _render_text_image text (scaled (fst size) (9 # 10), 300%Z)
               fontsize white in
  {| c_source := StillImage img; c_start := start;
     c_duration := Some (Py.max c0_01 (end_ - start));
     c_opacity := 1;
     c_position := CenterAt (scaled (snd size) (12 # 100)) |}.

(** ** [_typewriter_clip] *)

(** [progress] in [make_frame_local]. *)
Definition typewriter_progress (t dur : Q) : Q :=
  Py.max 0 (Py.min 1 (t / Py.max c0_01 dur)).

(** [n] in [make_frame_local]; [text] is the cleaned text. *)
Definition typewriter_n (text : string) (t dur : Q) : Z :=
  Z.max 1 (Py.int (inject_Z (Z.of_nat (String.length text))
                   * typewriter_progress t dur)).

(** The string handed to the rasteriser at local time [t]. *)
Definition typewriter_shown (text : string) (t dur : Q) : string :=
  let text := _safe_text text 160 in
  PyStr.slice_to (typewriter_n text t dur) text.

Definition typewriter_image (text : string) (size : Z * Z) (dur : Q)
    (fontsize : Z) (t : Q) : text_image :=
  _render_text_image (typewriter_shown text t dur)
    (scaled (fst size) (9 # 10), 280%Z) fontsize (255, 240, 200)%Z.

Definition _typewriter_clip (text : string) (size : Z * Z) (start dur : Q)
    (fontsize : Z) : clip :=
  {| c_source := TypewriterFrames (_safe_text text 160) dur fontsize;
     c_start := start; c_duration := Some dur; c_opacity := 1;
     c_position := TopLeft |}.

(** ** [_waveform_overlay]: the loudness envelope *)

(** [librosa.load(audio_path, sr=22050, mono=True)] resamples to this rate. *)
Definition load_rate : Z := 22050.

(** [win = int(sr * 0.02)]. *)
Definition win : nat := Z.to_nat (scaled load_rate (2 # 100)).

Definition epsilon : Q := 1 # 100000000.

(** [k] frames of [frame_length] samples, one every [hop] samples. *)
Fixpoint frames_of (k frame_length hop : nat) (y : list Q) : list (list Q) :=
  match k with
  | O => []
  | S k' => take frame_length y :: frames_of k' frame_length hop (drop hop y)
  end.

(** [librosa.util.frame(y, frame_length=, hop_length=)]: rejects an input
    shorter than one frame and a hop below 1. *)
Definition util_frame (y : list Q) (frame_length hop : nat)
    : result (list (list Q)) :=
  if (length y <? frame_length)%nat then Raise ParameterError
  else if (hop <? 1)%nat then Raise ParameterError
  else Ok (frames_of (1 + (length y - frame_length) / hop) frame_length hop y).

Definition Qsum (xs : list Q) : Q := fold_right Qplus 0 xs.

(** [.mean(axis=0)] of one frame. *)
Definition mean (xs : list Q) : Q := Qsum xs / inject_Z (Z.of_nat (length xs)).

(** [env.max()]: fails on an empty array. *)
Definition np_max (xs : list Q) : result Q :=
  match xs with
  | [] => Raise ValueError
  | x :: rest => Ok (fold_left Py.max rest x)
  end.

(** The two assignments to [env] in [_waveform_overlay]. *)
Definition loudness_envelope (y : list Q) : result (list Q) :=
  let* frames := util_frame y win win in
  let env := map (fun fr => Py.abs (mean fr)) frames in
  let* peak := np_max env in
  Ok (map (fun v => v / (peak + epsilon)) env).

(** [np.clip(i, lo, hi)]. *)
Definition np_clip (i lo hi : Z) : Z := Z.min (Z.max i lo) hi.

(** [filled] in [make_frame]: the width of the lit part of the bar. *)
Definition waveform_filled (env : list Q) (size : Z * Z) (duration t : Q) : Z :=
  let n := Z.of_nat (length env) in
  let idx := Py.int ((t / Py.max c0_01 duration) * inject_Z n) in
  let idx := np_clip idx 0 (n - 1) in
  let bar_w := scaled (fst size) (9 # 10) in
  Py.int (inject_Z bar_w * nth (Z.to_nat idx) env 0).

Definition _waveform_overlay (size : Z * Z) (y : list Q) (duration : Q)
    : result clip :=
  let* env := loudness_envelope y in
  Ok {| c_source := WaveformFrames env duration; c_start := 0;
        c_duration := Some duration; c_opacity := 1; c_position := TopLeft |}.

(** ** [_karaoke_clips] *)

Definition dot : ascii := ascii_of_nat 46.

(** The list [parts]: the stripped pieces longer than 3 characters, or the
    whole text when there is none. *)
Definition karaoke_parts (text : string) : list string :=
  let parts :=
    filter (fun seg => (3 < String.length seg)%nat)
           (map PyStr.strip (PyStr.split dot text)) in
  match parts with
  | [] => [text]
  | _ => parts
  end.

(** The loop over [parts], with the running [start]. *)
Fixpoint karaoke_loop (size : Z * Z) (duration per start : Q)
    (parts : list string) : list clip :=
  match parts with
  | [] => []
  | seg :: rest =>
      let end_ := Py.min duration (start + per) in
      let img := _render_text_image seg (scaled (fst size) (9 # 10), 200%Z)
                   56 (255, 235, 140)%Z in
      {| c_source := StillImage img; c_start := start;
         c_duration := Some (end_ - start); c_opacity := 1;
         c_position := CenterAt (scaled (snd size) (86 # 100)) |}
      :: karaoke_loop size duration per end_ rest
  end.

Definition _karaoke_clips (transcription : string) (size : Z * Z)
    (duration : Q) : list clip :=
  let text := _safe_text transcription 400 in
  if PyStr.is_empty text then []
  else
    let parts := karaoke_parts text in
    let per := duration / inject_Z (Z.of_nat (length parts)) in
    karaoke_loop size duration per 0 parts.

(** ** [render_tiktok_reel] *)

(** The concept dict, by the keys the renderer reads.  For [concept_title]
    and [hashtags], which are read with [concept.get(k) or ...], [None] is
    a missing key or a JSON null.  For [story_structure], read with
    [concept.get(k, {})], [None] is a missing key only: a null story is not
    a concept of this type (the membership tests on it raise TypeError).
    A story beat that is present may itself be null. *)
Record concept : Type := {
  concept_title : option string;
  story_structure : option (gmap string (option string));
  hashtags : option (list string)
}.

(** The composite clip handed to [write_videofile]. *)
Record video : Type := {
  v_layers : list clip;
  v_size : Z * Z;
  v_duration : Q
}.

Definition DEFAULT_SIZE : Z * Z := (1080, 1920)%Z.

(** The guard on the duration reported by the audio clip. *)
Definition effective_duration (reported : Q) : Q :=
  if Qeq_bool reported 0 || Py.leb reported 0 then 30 else reported.

(** The conditional expression that builds [pulse]. *)
Definition pulse_layer (size : Z * Z) (beats : list Q) (duration : Q) : clip :=
  match beats with
  | [] => transparent_black size
  | _ => _pulse_overlay size beats duration
  end.

(** The closure [add_text_at]; [text] is [None] for a Python [None]. *)
Definition add_text_at (size : Z * Z) (layers : list clip)
    (text : option string) (start end_ : Q) (fontsize : Z) : list clip :=
  match text with
  | None => layers
  | Some t =>
      if PyStr.is_empty t then layers
      else (layers ++ [_image_text_clip t size start end_ fontsize])%list
  end.

(** The title block: a typewriter title, or the default still title. *)
Definition add_title (size : Z * Z) (layers : list clip) (c : concept)
    (duration : Q) : list clip :=
  let intro_end := Py.min (28 # 10) duration in
  let ttl := default "" (concept_title c) in
  if negb (PyStr.is_empty ttl)
  then (layers ++ [_typewriter_clip ttl size 0 intro_end 80])%list
  else add_text_at size layers (Some "ReelSense AI") 0 intro_end 80.

(** One line of the story block:
    [add_text_at(story.get(k), *timeline[k]) if k in story else None]. *)
Definition add_story (size : Z * Z) (story : gmap string (option string))
    (timeline : gmap string (Q * Q)) (key : string) (layers : list clip)
    : result (list clip) :=
  match story !! key with
  | Some text =>
      let* seg := dict_get timeline key in
      Ok (add_text_at size layers text (fst seg) (snd seg) 68)
  | None => Ok layers
  end.

(** One token of the hashtag strip: [f"#{h.lstrip('#')}"]. *)
Definition hash : ascii := ascii_of_nat 35.

Definition hashtag_token (h : string) : string :=
  String hash (PyStr.lstrip_char hash h).

(** [ht_text]. *)
Definition hashtag_text (tags : list string) : string :=
  PyStr.join "  " (map hashtag_token (take 5 tags)).

(** The hashtag block: the layers it appends. *)
Definition hashtag_layers (size : Z * Z) (c : concept) (duration : Q)
    : list clip :=
  match default [] (hashtags c) with
  | [] => []
  | tags =>
      let ht_img := _render_text_image (hashtag_text tags)
                      (scaled (fst size) (9 # 10), 160%Z) 44 white in
      [ {| c_source := StillImage ht_img; c_start := 0;
           c_duration := Some duration; c_opacity := 1;
           c_position := CenterAt (scaled (snd size) (92 # 100)) |} ]
  end.

(** The [wow] block: the layers it appends. *)
Definition wow_layers (size : Z * Z) (wow : bool) (samples : list Q)
    (transcription : string) (duration : Q) : result (list clip) :=
  if wow then
    let* wave := _waveform_overlay size samples duration in
    Ok (wave :: _karaoke_clips transcription size duration)
  else Ok [].

(** The layers built before the hashtag block. *)
Definition base_layers (c : concept) (beats_outcome : result (list Q))
    (size : Z * Z) (duration : Q) : result (list clip) :=
  let bg := _generate_dynamic_bg size duration in
  let beats := try_except beats_outcome [] in
  let pulse := pulse_layer size beats duration in
  let story := default ∅ (story_structure c) in
  let timeline := _segment_timeline duration in
  let layers := [bg; pulse] in
  let layers := add_title size layers c duration in
  let* layers := add_story size story timeline "hook_moment" layers in
  let* layers := add_story size story timeline "development" layers in
  let* layers := add_story size story timeline "climax" layers in
  add_story size story timeline "closing" layers.

(** [render_tiktok_reel].  The file system and the decoders are inputs:
    whether the audio path exists, the duration the audio clip reports, the
    outcome of [_beats_from_audio] and the samples [librosa.load] returns.
    The reported duration and the samples are results of [AudioFileClip]
    and [librosa.load]: a run in which one of these two calls, or the
    writer, raises by itself is not a run of this definition, and [Ok v]
    is the composite handed to [write_videofile]. *)
Definition render_tiktok_reel (c : concept) (audio_exists : bool)
    (reported_duration : Q) (beats_outcome : result (list Q))
    (samples : list Q) (size : Z * Z) (wow : bool) (transcription : string)
    : result video :=
  if negb audio_exists then Raise FileNotFoundError
  else
    let duration := effective_duration reported_duration in
    let* layers := base_layers c beats_outcome size duration in
    let layers := (layers ++ hashtag_layers size c duration)%list in
    let* extra := wow_layers size wow samples transcription duration in
    let layers := (layers ++ extra)%list in
    Ok {| v_layers := layers; v_size := size; v_duration := duration |}.


(** ** [_analyze_audio_features] *)

(** [round(x, 1)] and [round(x, 2)], [round(x, 4)]: half to even. *)
Definition round_half_even (q : Q) : Z :=
  let f := Qfloor q in
  let r := q - inject_Z f in
  if Py.ltb r (1 # 2) then f
  else if Py.ltb (1 # 2) r then (f + 1)%Z
  else if Z.even f then f else (f + 1)%Z.

Definition py_round (q : Q) (ndigits : nat) : Q :=
  let scale := inject_Z (10 ^ Z.of_nat ndigits) in
  Qred (inject_Z (round_half_even (q * scale)) / scale).

(** The librosa calls of the extractor.  An array that librosa never returns
    empty is a head and a tail. *)
Record librosa : Type := {
  feature_rms : list Q -> result (Q * list Q);
  piptrack : list Q -> Z -> result (list (Q * Q));
  beat_track : list Q -> Z -> result (Q * list Z);
  feature_spectral_centroid : list Q -> Z -> result (Q * list Q)
}.

Record features : Type := {
  duration_seconds : Q;
  sample_rate : Z;
  average_rms : Q;
  average_pitch_hz : Q;
  tempo_bpm : Q;
  spectral_centroid : Q
}.

(** [arr.mean()] of a non-empty array. *)
Definition mean1 (arr : Q * list Q) : Q := mean (fst arr :: snd arr).

(** The body of the first [try]: the mean of the pitches whose magnitude
    exceeds 0.1, or 0.0 when there is none. *)
Definition pitch_of_bins (bins : list (Q * Q)) : Q :=
  let pitch_values :=
    map fst (filter (fun pm => Py.ltb (1 # 10) (snd pm)) bins) in
  if (0 <? length pitch_values)%nat then mean pitch_values else 0.

Definition _analyze_audio_features (L : librosa) (audio : list Q) (sr : Z)
    : result features :=
  let* duration :=
    (if (sr =? 0)%Z then Raise ZeroDivisionError
     else Ok (inject_Z (Z.of_nat (length audio)) / inject_Z sr)) in
  let* rms := feature_rms L audio in
  let avg_rms := mean1 rms in
  let avg_pitch :=
    try_except (let* bins := piptrack L audio sr in Ok (pitch_of_bins bins)) 0 in
  let tempo :=
    try_except (let* tempo_result := beat_track L audio sr in
                Ok (fst tempo_result)) 0 in
  let avg_spectral :=
    try_except (let* cents := feature_spectral_centroid L audio sr in
                Ok (mean1 cents)) 0 in
  Ok {| duration_seconds := py_round duration 2;
        sample_rate := sr;
        average_rms := py_round avg_rms 4;
        average_pitch_hz := py_round avg_pitch 1;
        tempo_bpm := py_round tempo 1;
        spectral_centroid := py_round avg_spectral 1 |}.

(** ** Vocabulary of the properties *)

(** The distance to the nearest beat of a list, [None] for no beat. *)
Definition nearest_beat (t : Q) (times : list Q) : option Q :=
  match times with
  | [] => None
  | bt :: rest => Some (nearest_distance t bt rest)
  end.

(** [clamp(x, 0, 1)] as the specification writes it. *)
Definition clamp01 (x : Q) : Q := Qmax 0 (Qmin 1 x).




(** The text a still clip draws. *)
Definition clip_text (c : clip) : option string :=
  match c_source c with
  | StillImage img => Some (ti_text img)
  | _ => None
  end.

(** A concept with the hashtags removed. *)
Definition without_hashtags (c : concept) : concept :=
  {| concept_title := concept_title c;
     story_structure := story_structure c;
     hashtags := None |}.

(** A librosa whose pitch, tempo or centroid estimator always fails. *)
Definition failing_pitch (L : librosa) (e : exn) : librosa :=
  {| feature_rms := feature_rms L;
     piptrack := fun _ _ => Raise e;
     beat_track := beat_track L;
     feature_spectral_centroid := feature_spectral_centroid L |}.

Definition failing_tempo (L : librosa) (e : exn) : librosa :=
  {| feature_rms := feature_rms L;
     piptrack := piptrack L;
     beat_track := fun _ _ => Raise e;
     feature_spectral_centroid := feature_spectral_centroid L |}.

Definition failing_centroid (L : librosa) (e : exn) : librosa :=
  {| feature_rms := feature_rms L;
     piptrack := piptrack L;
     beat_track := beat_track L;
     feature_spectral_centroid := fun _ _ => Raise e |}.

(** [k] copies of the hash sign. *)
Fixpoint hashes (k : nat) : string :=
  match k with
  | O => ""
  | S k' => String hash (hashes k')
  end.

(** A hashtag token is well formed for [h]: one hash sign, then [h] without
    its leading hash signs. *)
Definition token_of (h tok : string) : Prop :=
  exists k body,
    h = hashes k +:+ body /\ tok = String hash body /\
    forall r, body <> String hash r.

(** ** Further vocabulary on strings *)

(** [s.count(c)] for a one-character argument. *)
Fixpoint count_char (c : ascii) (s : string) : nat :=
  match s with
  | EmptyString => O
  | String c' r => (if Ascii.eqb c' c then 1 else 0) + count_char c r
  end.

(** No character of the string is whitespace. *)
Fixpoint no_space (s : string) : bool :=
  match s with
  | EmptyString => true
  | String c r => negb (PyStr.is_space c) && no_space r
  end.

(** The string does not begin with whitespace. *)
Definition head_not_space (s : string) : bool :=
  match s with
  | EmptyString => true
  | String c _ => negb (PyStr.is_space c)
  end.

(** [s] is a prefix of [t]. *)
Definition is_prefix_of (s t : string) : Prop := exists rest, t = s +:+ rest.

(** ** [_render_text_image]: the word wrap *)

(** [s.split()]: the maximal runs of characters that are not whitespace. *)
Definition push_word (w : string) (ws : list string) : list string :=
  if PyStr.is_empty w then ws else w :: ws.

Fixpoint words_aux (s : string) : string * list string :=
  match s with
  | EmptyString => (EmptyString, [])
  | String c r =>
      let '(w, ws) := words_aux r in
      if PyStr.is_space c then (EmptyString, push_word w ws)
      else (String c w, ws)
  end.

Definition split_ws (s : string) : list string :=
  let '(w, ws) := words_aux s in push_word w ws.

(** A word as [split()] returns it: not empty, no whitespace inside. *)
Definition wordlike (w : string) : Prop := w <> "" /\ no_space w = true.

(** A line that [strip] leaves alone and that is not empty. *)
Definition stable (s : string) : Prop :=
  s <> "" /\ head_not_space s = true /\ PyStr.rstrip s = s.

Section WordWrap.

(** The font metrics are Pillow's: [bbox_right s] is
    [draw.textbbox((0, 0), s, font=font)[2]] and [bbox_height s] is
    [bbox[3] - bbox[1]] of the same call. *)
Variable bbox_right : string -> Z.
Variable bbox_height : string -> Z.

(** One turn of the loop over [words]: the state is [(line, lines)]. *)
Definition wrap_step (w : Z) (st : string * list string) (wtoken : string)
    : string * list string :=
  let '(line, lines) := st in
  let candidate := PyStr.strip (line +:+ " " +:+ wtoken) in
  if (bbox_right candidate <=? w - 20)%Z then (candidate, lines)
  else (wtoken, if PyStr.is_empty line then lines else (lines ++ [line])%list).

(** The list [lines] after the loop and the final [if line:]. *)
Definition wrap_lines (w : Z) (words : list string) : list string :=
  let '(line, lines) := fold_left (wrap_step w) words ("", []) in
  if PyStr.is_empty line then lines else (lines ++ [line])%list.

(** The lines drawn for a text in a box of width [w]. *)
Definition drawn_lines (text : string) (w : Z) : list string :=
  wrap_lines w (split_ws (_safe_text text 220)).

(** [total_h = sum(line_heights) + max(0, (len(lines) - 1)) * 8]. *)
Definition total_height (lines : list string) : Z :=
  (foldr Z.add 0 (map bbox_height lines)
   + Z.max 0 (Z.of_nat (length lines) - 1) * 8)%Z.

(** The [y_cursor] at which each line is drawn, from the first one at
    [y_cursor]: each line moves the cursor by its height plus 8. *)
Fixpoint line_tops (y_cursor : Z) (lines : list string) : list Z :=
  match lines with
  | [] => []
  | ln :: rest => y_cursor :: line_tops (y_cursor + bbox_height ln + 8) rest
  end.

(** [y_cursor = (h - total_h) // 2], the top of the first line. *)
Definition first_top (h : Z) (lines : list string) : Z :=
  ((h - total_height lines) / 2)%Z.

(** [y_cursor] after the drawing loop. *)
Definition final_cursor (y_cursor : Z) (lines : list string) : Z :=
  fold_left (fun y ln => (y + bbox_height ln + 8)%Z) lines y_cursor.

(** What the loop keeps: the lines and the open line are stable, each fits
    the box or is one of the words, and joined they spell the words read so
    far. *)
Definition wrap_inv (w : Z) (all : list string) (st : string * list string)
    (seen : list string) : Prop :=
  let fit (l : string) :=
    stable l /\ ((bbox_right l <= w - 20)%Z \/ In l all) in
  Forall fit st.2 /\
  (st.1 = "" -> st.2 = [] /\ seen = []) /\
  (st.1 <> "" -> fit st.1 /\ seen <> []) /\
  PyStr.join " " (if PyStr.is_empty st.1 then st.2 else (st.2 ++ [st.1])%list)
  = PyStr.join " " seen.

End WordWrap.

(** ** Further vocabulary on the overlays *)

(** The intensity a beat at distance [d] gives: [1.0 - d / 0.10]. *)
Definition falloff (d : Q) : Q := 1 - d / c0_10.

(** [idx] in [make_frame] of [_waveform_overlay], after [np.clip]. *)
Definition waveform_index (env : list Q) (duration t : Q) : Z :=
  let n := Z.of_nat (length env) in
  np_clip (Py.int ((t / Py.max c0_01 duration) * inject_Z n)) 0 (n - 1).

(** ** Further vocabulary on the render *)

(** A clip lies inside [0, D]: it starts at 0 or later and, when it has a
    duration, ends at D or earlier. *)
Definition within (D : Q) (c : clip) : Prop :=
  0 <= c_start c /\
  match c_duration c with
  | Some d => c_start c + d <= D
  | None => True
  end.

(** The story keys the renderer reads. *)
Definition story_keys : list string :=
  ["hook_moment"; "development"; "climax"; "closing"].

(** A concept with another story. *)
Definition with_story (c : concept) (story : gmap string (option string))
    : concept :=
  {| concept_title := concept_title c;
     story_structure := Some story;
     hashtags := hashtags c |}.

(** * The music analyzer: [music_analyzer_improved.py] *)

(** ** More Python strings *)

(** [s.startswith(p)]. *)
Fixpoint starts_with (p s : string) : bool :=
  match p, s with
  | EmptyString, _ => true
  | String a p', String b s' => Ascii.eqb a b && starts_with p' s'
  | String _ _, EmptyString => false
  end.

(** [needle in hay]. *)
Fixpoint contains (needle hay : string) : bool :=
  starts_with needle hay
  || match hay with
     | EmptyString => false
     | String _ r => contains needle r
     end.

(** [s.endswith(suffix)]. *)
Fixpoint ends_with (suffix s : string) : bool :=
  String.eqb s suffix
  || match s with
     | EmptyString => false
     | String _ r => ends_with suffix r
     end.

(** [c.lower()] for a code point below 256: the ASCII capitals and the
    Latin-1 capitals other than the multiplication sign. *)
Definition lower_char (c : ascii) : ascii :=
  let n := nat_of_ascii c in
  if ((65 <=? n) && (n <=? 90)
      || (192 <=? n) && (n <=? 222) && negb (n =? 215))%nat
  then ascii_of_nat (n + 32)
  else c.

(** [s.lower()]. *)
Fixpoint lower (s : string) : string :=
  match s with
  | EmptyString => EmptyString
  | String c r => String (lower_char c) (lower r)
  end.

(** [s.replace(old, new)] for a non-empty [old]: the occurrences are taken
    from the left and do not overlap.  [skip] counts the characters of the
    current occurrence still to pass over. *)
Fixpoint replace_from (old new : string) (skip : nat) (s : string) : string :=
  match s with
  | EmptyString => EmptyString
  | String c r =>
      match skip with
      | S k => replace_from old new k r
      | O =>
          if starts_with old s
          then new +:+ replace_from old new (String.length old - 1) r
          else String c (replace_from old new 0 r)
      end
  end.

Definition replace_str (old new s : string) : string :=
  replace_from old new 0 s.

(** ** [preprocess_audio]: the path of the processed file *)

Definition processed_path (audio_path : string) : string :=
  let processed_path := replace_str "." "_processed." audio_path in
  if ends_with ".mp3" audio_path
  then replace_str ".mp3" "_processed.wav" audio_path
  else processed_path.

(** ** [analyze_sentiment_improved]: the label *)

Definition sentiment_label (polarity : Q) : string :=
  if Py.ltb (2 # 10) polarity then "Muy Positivo"
  else if Py.ltb (5 # 100) polarity then "Positivo"
  else if Py.ltb polarity (- (2 # 10)) then "Muy Negativo"
  else if Py.ltb polarity (- (5 # 100)) then "Negativo"
  else "Neutral".

(** The label of the opposite polarity, and the place of a label on the
    scale from very negative to very positive. *)
Definition opposite_label (label : string) : string :=
  if String.eqb label "Muy Positivo" then "Muy Negativo"
  else if String.eqb label "Positivo" then "Negativo"
  else if String.eqb label "Muy Negativo" then "Muy Positivo"
  else if String.eqb label "Negativo" then "Positivo"
  else label.

Definition label_rank (label : string) : Z :=
  if String.eqb label "Muy Positivo" then 2
  else if String.eqb label "Positivo" then 1
  else if String.eqb label "Muy Negativo" then (-2)
  else if String.eqb label "Negativo" then (-1)
  else 0.

(** ** [_analyze_music_emotions] and [_analyze_music_themes] *)

Definition i_acute : ascii := ascii_of_nat 237.
Definition u_acute : ascii := ascii_of_nat 250.

Definition emotion_keywords : list (string * list string) :=
  [ ("amor", ["love"; "heart"; "hold me"; "romantic"; "passion"; "forever"]);
    ("alegr" +:+ String i_acute "a",
     ["happy"; "joy"; "smile"; "dance"; "celebrate"; "fun"]);
    ("tristeza", ["sad"; "cry"; "tears"; "pain"; "lonely"; "hurt"]);
    ("energ" +:+ String i_acute "a",
     ["fire"; "burn"; "power"; "strong"; "energy"; "wild"]);
    ("misterio", ["dark"; "moon"; "night"; "magic"; "mystery"; "shadow"]);
    ("libertad", ["wind"; "fly"; "free"; "escape"; "run"; "break"]);
    ("esperanza", ["hope"; "dream"; "future"; "believe"; "faith"; "light"]) ].

Definition theme_keywords : list (string * list string) :=
  [ ("romance", ["love"; "heart"; "kiss"; "romance"; "relationship"]);
    ("empoderamiento",
     ["strong"; "power"; "freedom"; "independent"; "confident"]);
    ("naturaleza", ["wind"; "fire"; "earth"; "water"; "moon"; "sun"]);
    ("vida", ["life"; "live"; "die"; "birth"; "death"; "soul"]);
    ("m" +:+ String u_acute "sica",
     ["song"; "music"; "beat"; "rhythm"; "melody"; "voice"]);
    ("viaje", ["road"; "journey"; "travel"; "path"; "way"; "destination"]) ].

(** [{name: 0 for name in table.keys()}]. *)
Definition zero_scores (table : list (string * list string)) : gmap string Z :=
  foldr (fun entry d => <[entry.1 := 0%Z]> d) ∅ table.

(** [scores[name] += 1]; the key is always there, the dict was built from
    the same table. *)
Definition bump (name : string) (scores : gmap string Z) : gmap string Z :=
  alter (fun v => (v + 1)%Z) name scores.

(** The inner loop over the keywords of one name. *)
Definition score_keywords (text name : string) (keywords : list string)
    (scores : gmap string Z) : gmap string Z :=
  fold_left (fun d keyword => if contains keyword text then bump name d else d)
            keywords scores.

(** Both functions: zero table, the two loops, then the entries above 0. *)
Definition keyword_scores (table : list (string * list string))
    (text : string) : gmap string Z :=
  let scores :=
    fold_left (fun d entry => score_keywords text entry.1 entry.2 d)
              table (zero_scores table) in
  filter (fun kv => (0 < kv.2)%Z) scores.

Definition _analyze_music_emotions (text : string) : gmap string Z :=
  keyword_scores emotion_keywords text.

Definition _analyze_music_themes (text : string) : gmap string Z :=
  keyword_scores theme_keywords text.

(** The number of keywords of a list that occur in the text. *)
Definition hits (text : string) (keywords : list string) : Z :=
  Z.of_nat (length (filter (fun keyword => contains keyword text = true)
                           keywords)).

(** ** [_calculate_transcription_confidence] *)

Definition common_words : list string :=
  ["the"; "and"; "or"; "but"; "in"; "on"; "at"; "to"; "for"; "of"; "with";
   "by"].

Definition _calculate_transcription_confidence (text : string) : Q :=
  if PyStr.is_empty text || String.eqb (PyStr.strip text) "" then 0
  else
    let word_count := Z.of_nat (length (split_ws text)) in
    let sentence_count :=
      Z.of_nat (length (filter (fun s => PyStr.is_empty (PyStr.strip s) = false)
                               (PyStr.split dot text))) in
    let common_word_count :=
      Z.of_nat (length (filter (fun word => word ∈ common_words)
                               (split_ws (lower text)))) in
    if (word_count =? 0)%Z then 0
    else
      let word_confidence := Py.min (inject_Z word_count / 50) 1 in
      let sentence_confidence := Py.min (inject_Z sentence_count / 10) 1 in
      let common_word_confidence :=
        Py.min (inject_Z common_word_count / inject_Z word_count) 1 in
      let confidence :=
        word_confidence * (4 # 10) + sentence_confidence * (3 # 10)
        + common_word_confidence * (3 # 10) in
      py_round confidence 3.

(** [s] occurs inside [t]. *)
Definition is_substring (s t : string) : Prop :=
  exists before after, t = before +:+ s +:+ after.

(** Every character of the string is whitespace. *)
Fixpoint only_space (s : string) : bool :=
  match s with
  | EmptyString => true
  | String c r => PyStr.is_space c && only_space r
  end.

(** ** Regular expressions: the fragment of [re] the analyzer uses *)

(** Character classes, concatenation, alternation and repetition; a
    pattern is matched by taking derivatives. *)
Inductive regex : Type :=
  | Void
  | Eps
  | Cls (p : ascii -> bool)
  | Cat (r1 r2 : regex)
  | Alt (r1 r2 : regex)
  | Star (r : regex).

(** [r+]. *)
Definition Plus (r : regex) : regex := Cat r (Star r).

Fixpoint nullable (r : regex) : bool :=
  match r with
  | Void => false
  | Eps => true
  | Cls _ => false
  | Cat r1 r2 => nullable r1 && nullable r2
  | Alt r1 r2 => nullable r1 || nullable r2
  | Star _ => true
  end.

Fixpoint deriv (c : ascii) (r : regex) : regex :=
  match r with
  | Void => Void
  | Eps => Void
  | Cls p => if p c then Eps else Void
  | Cat r1 r2 =>
      if nullable r1 then Alt (Cat (deriv c r1) r2) (deriv c r2)
      else Cat (deriv c r1) r2
  | Alt r1 r2 => Alt (deriv c r1) (deriv c r2)
  | Star r1 => Cat (deriv c r1) (Star r1)
  end.

(** The whole string is a word of the pattern. *)
Fixpoint fullmatch (r : regex) (s : string) : bool :=
  match s with
  | EmptyString => nullable r
  | String c s' => fullmatch (deriv c r) s'
  end.

(** [re.match('^' + r + '$', s)]: the dollar sign matches at the end of
    the string and just before a line break that ends the string. *)
Definition re_match_line (r : regex) (s : string) : bool :=
  fullmatch (Cat r (Alt Eps (Cls (fun c => Ascii.eqb c newline)))) s.

(** The words of a pattern. *)
Inductive lang : regex -> string -> Prop :=
  | lang_eps : lang Eps ""
  | lang_cls (p : ascii -> bool) (c : ascii) :
      p c = true -> lang (Cls p) (String c "")
  | lang_cat (r1 r2 : regex) (s1 s2 : string) :
      lang r1 s1 -> lang r2 s2 -> lang (Cat r1 r2) (s1 +:+ s2)
  | lang_alt_l (r1 r2 : regex) (s : string) :
      lang r1 s -> lang (Alt r1 r2) s
  | lang_alt_r (r1 r2 : regex) (s : string) :
      lang r2 s -> lang (Alt r1 r2) s
  | lang_star_nil (r : regex) : lang (Star r) ""
  | lang_star_cons (r : regex) (s1 s2 : string) :
      lang r s1 -> lang (Star r) s2 -> lang (Star r) (s1 +:+ s2).

(** ** [_is_noise_line] *)

(** [[A-Za-z]] and [\s]. *)
Definition is_letter (c : ascii) : bool :=
  let n := nat_of_ascii c in
  ((65 <=? n) && (n <=? 90) || (97 <=? n) && (n <=? 122))%nat.

Definition re_letter : regex := Cls is_letter.
Definition re_space : regex := Cls PyStr.is_space.

Definition noise_patterns : list regex :=
  [ Cat (Star re_space) (Cat re_letter (Star re_space));
    Cat (Star re_space) (Cat (Cat re_letter re_letter) (Star re_space));
    Cat (Star re_space)
        (Cat (Cat re_letter (Cat re_letter re_letter)) (Star re_space));
    Cat (Star re_space)
        (Cat (Plus re_letter)
             (Cat (Plus re_space) (Cat (Plus re_letter) (Star re_space))));
    Cat (Star re_space) (Cat (Plus re_letter) (Star re_space)) ].

Definition _is_noise_line (line : string) : bool :=
  existsb (fun pattern => re_match_line pattern line) noise_patterns.

(** ** [post_process_transcription] *)

(** [re.sub(r'\s+', ' ', text)]: [in_run] tells that the previous character
    was whitespace, already replaced. *)
Fixpoint collapse_from (in_run : bool) (s : string) : string :=
  match s with
  | EmptyString => EmptyString
  | String c r =>
      if PyStr.is_space c
      then if in_run then collapse_from true r
           else String blank (collapse_from true r)
      else String c (collapse_from false r)
  end.

Definition collapse_ws (s : string) : string := collapse_from false s.

(** [\w] for a code point below 256: letters, digits and the underscore. *)
Definition is_word_char (c : ascii) : bool :=
  let n := nat_of_ascii c in
  ((48 <=? n) && (n <=? 57) || (65 <=? n) && (n <=? 90) || (n =? 95)
   || (97 <=? n) && (n <=? 122) || (n =? 170) || (n =? 178) || (n =? 179)
   || (n =? 181) || (n =? 185) || (n =? 186) || (188 <=? n) && (n <=? 190)
   || (192 <=? n) && (n <=? 214) || (216 <=? n) && (n <=? 246)
   || (248 <=? n) && (n <=? 255))%nat.

(** The class [[\w\s\.\,\!\?\-\']] whose complement is deleted. *)
Definition is_kept_char (c : ascii) : bool :=
  let n := nat_of_ascii c in
  (is_word_char c || PyStr.is_space c
   || (n =? 46) || (n =? 44) || (n =? 33) || (n =? 63) || (n =? 45)
   || (n =? 39))%nat.

(** [re.sub(r'[^...]', '', s)]. *)
Fixpoint delete_others (s : string) : string :=
  match s with
  | EmptyString => EmptyString
  | String c r =>
      if is_kept_char c then String c (delete_others r) else delete_others r
  end.

(** The three nested tests of the loop over [lines], on a stripped line. *)
Definition keeps_line (line : string) : bool :=
  (3 <? String.length line)%nat
  && (2 <=? length (split_ws line))%nat
  && negb (_is_noise_line line).

(** The list [filtered_lines]. *)
Definition filtered_lines (text : string) : list string :=
  let text := PyStr.strip (collapse_ws text) in
  filter (fun line => keeps_line line = true)
         (map PyStr.strip (PyStr.split dot text)).

Definition post_process_transcription (text : string) : string :=
  delete_others (PyStr.join ". " (filtered_lines text)).

(** Every character is an ASCII letter or whitespace. *)
Fixpoint letters_and_spaces (s : string) : bool :=
  match s with
  | EmptyString => true
  | String c r => (is_letter c || PyStr.is_space c) && letters_and_spaces r
  end.

(** Every character of the string is in the class. *)
Fixpoint all_chars (p : ascii -> bool) (s : string) : bool :=
  match s with
  | EmptyString => true
  | String c r => p c && all_chars p r
  end.

(** The string is empty or begins with whitespace. *)
Definition head_space (s : string) : bool :=
  match s with
  | EmptyString => true
  | String c _ => PyStr.is_space c
  end.

(** One run of letters between whitespace, and two runs of letters
    separated by whitespace. *)
Definition one_word (s : string) : Prop :=
  exists a b c,
    s = a +:+ b +:+ c /\
    all_chars PyStr.is_space a = true /\
    b <> "" /\ all_chars is_letter b = true /\
    all_chars PyStr.is_space c = true.

Definition two_words (s : string) : Prop :=
  exists a b1 m b2 c,
    s = a +:+ b1 +:+ m +:+ b2 +:+ c /\
    all_chars PyStr.is_space a = true /\
    b1 <> "" /\ all_chars is_letter b1 = true /\
    m <> "" /\ all_chars PyStr.is_space m = true /\
    b2 <> "" /\ all_chars is_letter b2 = true /\
    all_chars PyStr.is_space c = true.

(** * Properties *)

(** ** Python builtins *)

Lemma py_max_spec (a b : Q) :
  (a < b /\ Py.max a b = b) \/ (b <= a /\ Py.max a b = a).
Proof. unfold Py.max. destruct (Qlt_le_dec a b); [left | right]; done. Qed.

Lemma py_min_spec (a b : Q) :
  (b < a /\ Py.min a b = b) \/ (a <= b /\ Py.min a b = a).
Proof. unfold Py.min. destruct (Qlt_le_dec b a); [left | right]; done. Qed.

Lemma py_max_Qmax (a b : Q) : Py.max a b == Qmax a b.
Proof.
  destruct (py_max_spec a b) as [[H ->] | [H ->]].
  - symmetry. apply Q.max_r. by apply Qlt_le_weak.
  - symmetry. by apply Q.max_l.
Qed.

Lemma py_min_Qmin (a b : Q) : Py.min a b == Qmin a b.
Proof.
  destruct (py_min_spec a b) as [[H ->] | [H ->]].
  - symmetry. apply Q.min_r. by apply Qlt_le_weak.
  - symmetry. by apply Q.min_l.
Qed.

Lemma py_ltb_true (a b : Q) : Py.ltb a b = true <-> a < b.
Proof.
  unfold Py.ltb. destruct (Qlt_le_dec a b) as [H | H]; split; try done.
  intros H'. exfalso. by apply (Qlt_not_le _ _ H').
Qed.

Lemma py_ltb_false (a b : Q) : Py.ltb a b = false <-> b <= a.
Proof.
  unfold Py.ltb. destruct (Qlt_le_dec a b) as [H | H]; split; try done.
  intros H'. exfalso. by apply (Qlt_not_le _ _ H).
Qed.

(** On a non-negative argument [int] is the floor. *)
Lemma py_int_floor (q : Q) : 0 <= q -> Py.int q = Qfloor q.
Proof.
  intros H. destruct q as [n d]. unfold Py.int, Qfloor. simpl.
  apply Z.quot_div_nonneg; [| done].
  unfold Qle in H. simpl in H. lia.
Qed.

(** [int] of a rational that equals an integer is that integer. *)
Lemma py_int_of_Z (q : Q) (z : Z) : q == inject_Z z -> Py.int q = z.
Proof.
  destruct q as [n d]. unfold Qeq, Py.int. simpl. intros H.
  assert (n = (z * Z.pos d)%Z) as -> by lia.
  by apply Z.quot_mul.
Qed.

(** ** The timeline *)

Lemma segment_timeline_ordered (D : Q) :
  ordered_segments (_segment_timeline D) =
  Some [ (0, D * c0_10);
         (D * c0_10, D * c0_10 + D * c0_10);
         (D * c0_10 + D * c0_10, D * c0_10 + D * c0_10 + D * c0_50);
         (D * c0_10 + D * c0_10 + D * c0_50,
          D * c0_10 + D * c0_10 + D * c0_50 + D * c0_20);
         (D * c0_10 + D * c0_10 + D * c0_50 + D * c0_20, D) ].
Proof.
  unfold ordered_segments, _segment_timeline, segment_names. simpl.
  by simplify_map_eq.
Qed.

Lemma segment_timeline_dom (D : Q) :
  dom (_segment_timeline D) = list_to_set segment_names.
Proof.
  unfold _segment_timeline, segment_names.
  rewrite !dom_insert_L, dom_empty_L. set_solver.
Qed.

Lemma segment_timeline_lookup (D : Q) (key : string) :
  key ∈ segment_names -> exists seg, dict_get (_segment_timeline D) key = Ok seg.
Proof.
  intros Hin. unfold dict_get.
  assert (key ∈ dom (_segment_timeline D)) as Hdom.
  { rewrite segment_timeline_dom. by apply elem_of_list_to_set. }
  apply elem_of_dom in Hdom as [seg ->]. by exists seg.
Qed.

(** C2. For every duration D > 0 the timeline has exactly the five keys
    intro, hook_moment, development, climax and closing; read in that order
    the segments are contiguous, the first starts at 0, the last ends at D,
    and their lengths are 0.10, 0.10, 0.50, 0.20 and 0.10 of D. *)
Theorem segment_timeline_five_contiguous (D : Q) :
  0 < D ->
  dom (_segment_timeline D) = list_to_set segment_names /\
  size (_segment_timeline D) = 5%nat /\
  exists segs,
    ordered_segments (_segment_timeline D) = Some segs /\
    length segs = 5%nat /\
    contiguous_from 0 segs /\
    last_end 0 segs = D /\
    Forall2 (fun seg share => snd seg - fst seg == share * D)
            segs segment_shares.
Proof.
  intros _. split; [apply segment_timeline_dom |]. split.
  { rewrite <- size_dom, segment_timeline_dom. by vm_compute. }
  eexists. split; [apply segment_timeline_ordered |].
  split; [done |]. split; [by repeat split |]. split; [done |].
  unfold segment_shares, c0_10, c0_50, c0_20.
  repeat constructor; simpl; lra.
Qed.

Lemma segment_timeline_five_contiguous_witness :
  0 < 30 /\
  exists segs,
    ordered_segments (_segment_timeline 30) = Some segs /\
    length segs = 5%nat /\
    contiguous_from 0 segs /\
    last_end 0 segs = 30.
Proof.
  split; [reflexivity |].
  destruct (segment_timeline_five_contiguous 30) as (_ & _ & segs & H1 & H2 & H3 & H4 & _);
    [reflexivity |].
  exists segs. repeat split; assumption.
Defined.

(** ** The beat pulse *)

Lemma Qabs_zero_iff (x : Q) : Qabs x == 0 <-> x == 0.
Proof.
  split; intros H.
  - revert H. apply Qabs_case; intros; lra.
  - rewrite H. reflexivity.
Qed.

Lemma pulse_step_far (t p bt : Q) :
  c0_10 <= Qabs (t - bt) -> pulse_step t p bt = p.
Proof.
  intros H. unfold pulse_step, Py.abs.
  apply py_ltb_false in H. by rewrite H.
Qed.

Lemma pulse_step_near (t p bt : Q) :
  Qabs (t - bt) < c0_10 ->
  pulse_step t p bt = Py.max p (1 - Qabs (t - bt) / c0_10).
Proof.
  intros H. unfold pulse_step, Py.abs.
  apply py_ltb_true in H. by rewrite H.
Qed.

Lemma pulse_term (a : Q) : 1 - a / c0_10 == 1 - 10 * a.
Proof. unfold c0_10. field. Qed.

Lemma pulse_step_bounds (t p bt : Q) :
  0 <= p <= 1 -> 0 <= pulse_step t p bt <= 1.
Proof.
  intros Hp. destruct (Qlt_le_dec (Qabs (t - bt)) c0_10) as [Hn | Hf].
  - rewrite pulse_step_near by done.
    pose proof (Qabs_nonneg (t - bt)) as Ha.
    pose proof (pulse_term (Qabs (t - bt))) as Hv.
    unfold c0_10 in Hn.
    destruct (py_max_spec p (1 - Qabs (t - bt) / c0_10)) as [[_ ->] | [_ ->]];
      [rewrite Hv; lra | done].
  - by rewrite pulse_step_far.
Qed.

Lemma pulse_step_one (t p bt : Q) :
  0 <= p <= 1 ->
  pulse_step t p bt == 1 <-> p == 1 \/ t == bt.
Proof.
  intros Hp. destruct (Qlt_le_dec (Qabs (t - bt)) c0_10) as [Hn | Hf].
  - rewrite pulse_step_near by done.
    pose proof (Qabs_nonneg (t - bt)) as Ha.
    pose proof (pulse_term (Qabs (t - bt))) as Hv.
    pose proof (Qabs_zero_iff (t - bt)) as Hz.
    destruct (py_max_spec p (1 - Qabs (t - bt) / c0_10)) as [[Hlt ->] | [Hle ->]].
    + rewrite Hv in *. split.
      * intros H. right. assert (Qabs (t - bt) == 0) as H0 by lra.
        apply Hz in H0. lra.
      * intros [H | H]; [lra |].
        assert (t - bt == 0) as H0 by lra. apply Hz in H0. lra.
    + rewrite Hv in Hle. split; [by left |].
      intros [H | H]; [done |].
      assert (t - bt == 0) as H0 by lra. apply Hz in H0. lra.
  - rewrite pulse_step_far by done. split; [by left |].
    intros [H | H]; [done |]. exfalso.
    assert (t - bt == 0) as H0 by lra. apply Qabs_zero_iff in H0.
    unfold c0_10 in Hf. lra.
Qed.

Lemma pulse_fold_bounds (t : Q) (times : list Q) (p : Q) :
  0 <= p <= 1 -> 0 <= fold_left (pulse_step t) times p <= 1.
Proof.
  revert p. induction times as [| bt rest IH]; intros p Hp; [done |].
  simpl. apply IH. by apply pulse_step_bounds.
Qed.

Lemma pulse_fold_far (t : Q) (times : list Q) (p : Q) :
  Forall (fun bt => c0_10 <= Qabs (t - bt)) times ->
  fold_left (pulse_step t) times p = p.
Proof.
  revert p. induction times as [| bt rest IH]; intros p Hall; [done |].
  inversion Hall; subst. simpl. rewrite pulse_step_far by done. by apply IH.
Qed.

Lemma pulse_fold_one (t : Q) (times : list Q) (p : Q) :
  0 <= p <= 1 ->
  fold_left (pulse_step t) times p == 1 <->
  p == 1 \/ Exists (fun bt => t == bt) times.
Proof.
  revert p. induction times as [| bt rest IH]; intros p Hp; simpl.
  - split; [by left |]. intros [H | H]; [done | inversion H].
  - rewrite IH by (by apply pulse_step_bounds).
    rewrite pulse_step_one by done. rewrite Exists_cons. tauto.
Qed.

Lemma nearest_distance_lower (t bt : Q) (rest : list Q) :
  Forall (fun b => nearest_distance t bt rest <= Qabs (t - b)) (bt :: rest).
Proof.
  revert bt. induction rest as [| bt' rest' IH]; intros bt.
  - constructor; [simpl; lra | constructor].
  - simpl. constructor; [apply Q.le_min_l |].
    eapply Forall_impl; [apply IH |]. simpl. intros b Hb.
    eapply Qle_trans; [apply Q.le_min_r | exact Hb].
Qed.

Lemma pulse_value_bounds (times : list Q) (t : Q) :
  0 <= pulse_value times t <= 1.
Proof. apply pulse_fold_bounds. lra. Qed.

Lemma pulse_value_one (times : list Q) (t : Q) :
  pulse_value times t == 1 <-> Exists (fun bt => t == bt) times.
Proof.
  unfold pulse_value. rewrite pulse_fold_one by lra.
  split; [intros [H | H]; [lra | done] | by right].
Qed.

Lemma pulse_alpha_peak (p : Q) :
  0 <= p <= 1 -> p * p * c0_35 <= c0_35 /\ (p * p * c0_35 == c0_35 <-> p == 1).
Proof.
  intros [H0 H1]. unfold c0_35.
  assert (p * p <= p) as Hsq.
  { rewrite <- (Qmult_1_l p) at 3. by apply Qmult_le_compat_r. }
  split; [lra |]. split; intros H; [lra | rewrite H; lra].
Qed.

(** C3. For every non-empty list of beat times and every time t: when the
    nearest beat is farther than 0.10 s from t the pulse intensity (and with
    it the alpha and the grey level) is 0; the intensity never exceeds 1 and
    the alpha never exceeds 0.35, and each reaches that maximum exactly when
    t is one of the beat times. *)
Theorem pulse_zero_when_far_and_peak_on_beat (times : list Q) (t : Q) :
  times <> [] ->
  exists d,
    nearest_beat t times = Some d /\
    (c0_10 < d ->
     pulse_value times t = 0 /\ pulse_alpha times t == 0 /\
     pulse_val times t = 0%Z) /\
    pulse_value times t <= 1 /\
    pulse_alpha times t <= c0_35 /\
    (pulse_value times t == 1 <-> Exists (fun bt => t == bt) times) /\
    (pulse_alpha times t == c0_35 <-> Exists (fun bt => t == bt) times).
Proof.
  intros Hne. destruct times as [| bt rest]; [done |].
  exists (nearest_distance t bt rest). split; [done |].
  pose proof (pulse_value_bounds (bt :: rest) t) as Hb.
  pose proof (pulse_alpha_peak _ Hb) as [Ha1 Ha2].
  split; [| split; [apply Hb | split; [exact Ha1 | split]]].
  - intros Hfar.
    assert (pulse_value (bt :: rest) t = 0) as H0.
    { apply pulse_fold_far.
      eapply Forall_impl; [apply nearest_distance_lower |].
      intros b Hb'. eapply Qle_trans; [apply Qlt_le_weak, Hfar | exact Hb']. }
    unfold pulse_val, pulse_alpha. rewrite H0. by repeat split.
  - apply pulse_value_one.
  - unfold pulse_alpha. rewrite Ha2. apply pulse_value_one.
Qed.

Lemma pulse_zero_when_far_and_peak_on_beat_witness :
  [1; 2] <> [] /\
  pulse_value [1; 2] (15 # 10) = 0 /\
  pulse_value [1; 2] 2 == 1.
Proof.
  assert ([1; 2] <> @nil Q) as Hne by discriminate.
  split; [exact Hne |].
  destruct (pulse_zero_when_far_and_peak_on_beat [1; 2] (15 # 10) Hne)
    as (d & Hd & Hfar & _).
  destruct (pulse_zero_when_far_and_peak_on_beat [1; 2] 2 Hne)
    as (_ & _ & _ & _ & _ & Hone & _).
  split.
  - apply Hfar. injection Hd as <-. reflexivity.
  - apply Hone. right. left. reflexivity.
Defined.

(** ** The transparent pulse layer *)

Lemma blend_channel_transparent (canvas layer : Z) :
  blend_channel 0 canvas layer = canvas.
Proof. unfold blend_channel. apply py_int_of_Z. ring. Qed.

Lemma blend_pixel_transparent (canvas layer : pixel) :
  blend_pixel 0 canvas layer = canvas.
Proof.
  destruct canvas as [[r1 g1] b1], layer as [[r2 g2] b2]. simpl.
  by rewrite !blend_channel_transparent.
Qed.

Lemma add_text_at_prefix (size : Z * Z) (layers : list clip)
    (text : option string) (s e : Q) (fs : Z) :
  exists more, add_text_at size layers text s e fs = (layers ++ more)%list.
Proof.
  unfold add_text_at. destruct text as [t |].
  - destruct (PyStr.is_empty t); [exists []; by rewrite app_nil_r |].
    eexists. reflexivity.
  - exists []. by rewrite app_nil_r.
Qed.

Lemma add_title_prefix (size : Z * Z) (layers : list clip) (c : concept)
    (D : Q) :
  exists more, add_title size layers c D = (layers ++ more)%list.
Proof.
  unfold add_title. destruct (negb _); [| apply add_text_at_prefix].
  eexists. reflexivity.
Qed.

Lemma add_story_ok (size : Z * Z) (story : gmap string (option string))
    (D : Q) (key : string) (layers : list clip) :
  key ∈ segment_names ->
  exists more,
    add_story size story (_segment_timeline D) key layers
    = Ok (layers ++ more)%list.
Proof.
  intros Hin. unfold add_story. destruct (story !! key) as [text |].
  - destruct (segment_timeline_lookup D key Hin) as [seg ->]. simpl.
    destruct (add_text_at_prefix size layers text (fst seg) (snd seg) 68)
      as [more ->]. by exists more.
  - exists []. by rewrite app_nil_r.
Qed.

(** The layers before the hashtag block always exist, and start with the
    background and the pulse. *)
Lemma base_layers_ok (c : concept) (beats_outcome : result (list Q))
    (size : Z * Z) (D : Q) :
  exists more,
    base_layers c beats_outcome size D
    = Ok (_generate_dynamic_bg size D
          :: pulse_layer size (try_except beats_outcome []) D :: more).
Proof.
  unfold base_layers.
  destruct (add_title_prefix size
    [_generate_dynamic_bg size D;
     pulse_layer size (try_except beats_outcome []) D] c D) as [m0 ->].
  set (story := default ∅ (story_structure c)).
  edestruct (add_story_ok size story D "hook_moment") as [m1 ->];
    [set_solver |]. simpl.
  edestruct (add_story_ok size story D "development") as [m2 ->];
    [set_solver |]. simpl.
  edestruct (add_story_ok size story D "climax") as [m3 ->];
    [set_solver |]. simpl.
  edestruct (add_story_ok size story D "closing") as [m4 ->];
    [set_solver |].
  eexists. rewrite <- !app_assoc. reflexivity.
Qed.

(** C4. With no beat times the pulse layer is a black clip of opacity 0;
    at every time t, blending it over any background frame gives back that
    background, pixel for pixel; and that clip is the pulse layer of every
    render whose beat detection failed or found nothing. *)
Theorem empty_beats_pulse_is_transparent (size : Z * Z) (D t : Q)
    (bg : frame) :
  c_opacity (pulse_layer size [] D) = 0 /\
  (exists f,
     compose_on bg (pulse_layer size [] D) t = Some f /\
     forall row col, f row col = bg row col) /\
  forall c reported beats_outcome samples wow transcription v,
    try_except beats_outcome [] = [] ->
    render_tiktok_reel c true reported beats_outcome samples size wow
      transcription = Ok v ->
    v_layers v !! 1%nat = Some (pulse_layer size [] (v_duration v)).
Proof.
  split; [done |]. split.
  - eexists. split; [reflexivity |]. intros row col.
    unfold blend. simpl. apply blend_pixel_transparent.
  - intros c reported bo samples wow tr v Hb Hr.
    unfold render_tiktok_reel in Hr. simpl in Hr.
    destruct (base_layers_ok c bo size (effective_duration reported))
      as [more Hbase].
    rewrite Hbase in Hr. simpl in Hr.
    destruct (wow_layers size wow samples tr (effective_duration reported))
      as [extra | e]; simpl in Hr; [| done].
    injection Hr as <-. simpl. by rewrite Hb.
Qed.

Lemma empty_beats_pulse_is_transparent_witness :
  exists v,
    render_tiktok_reel
      {| concept_title := None; story_structure := None; hashtags := None |}
      true 12 (Raise LibraryError) [] DEFAULT_SIZE false "" = Ok v /\
    v_layers v !! 1%nat = Some (pulse_layer DEFAULT_SIZE [] (v_duration v)).
Proof.
  eexists. split; [reflexivity |].
  destruct (empty_beats_pulse_is_transparent DEFAULT_SIZE 12 0
              (fun _ _ => (0, 0, 0)%Z)) as (_ & _ & H).
  apply (H {| concept_title := None; story_structure := None;
               hashtags := None |}
           12 (Raise LibraryError) [] false ""); reflexivity.
Defined.

(** ** The loudness envelope *)

Lemma win_pos : (0 < win)%nat.
Proof. apply Nat.ltb_lt. by vm_compute. Qed.

Lemma frames_of_length (k fl hop : nat) (y : list Q) :
  length (frames_of k fl hop y) = k.
Proof.
  revert y. induction k as [| k IH]; intros y; [done |].
  simpl. by rewrite IH.
Qed.

Lemma frames_of_silent (k fl hop : nat) (y : list Q) :
  Forall (fun s => s == 0) y ->
  Forall (Forall (fun s => s == 0)) (frames_of k fl hop y).
Proof.
  revert y. induction k as [| k IH]; intros y Hy; [constructor |].
  simpl. constructor.
  - by apply Forall_take.
  - apply IH. by apply Forall_drop.
Qed.

Lemma util_frame_ok (y : list Q) :
  (win <= length y)%nat ->
  exists fr rest,
    util_frame y win win = Ok (fr :: rest) /\
    length (fr :: rest) = (length y / win)%nat /\
    (Forall (fun s => s == 0) y ->
     Forall (Forall (fun s => s == 0)) (fr :: rest)).
Proof.
  intros Hlen. pose proof win_pos as Hw. unfold util_frame.
  destruct (Nat.ltb_spec (length y) win) as [? | _]; [lia |].
  destruct (Nat.ltb_spec win 1) as [? | _]; [lia |].
  assert ((1 + (length y - win) / win)%nat = (length y / win)%nat) as Hk.
  { replace (length y) with ((length y - win) + 1 * win)%nat at 2 by lia.
    rewrite Nat.div_add by lia. lia. }
  remember (frames_of (1 + (length y - win) / win) win win y) as frs eqn:Hfrs.
  destruct frs as [| fr rest]; [simpl in Hfrs; done |].
  exists fr, rest. split; [done |]. split.
  - rewrite Hfrs, frames_of_length. exact Hk.
  - intros Hs. rewrite Hfrs. by apply frames_of_silent.
Qed.

Lemma util_frame_short (y : list Q) :
  (length y < win)%nat -> util_frame y win win = Raise ParameterError.
Proof.
  intros H. unfold util_frame.
  by destruct (Nat.ltb_spec (length y) win) as [_ | ?]; [| lia].
Qed.

Lemma fold_max_ge_init (xs : list Q) (x : Q) : x <= fold_left Py.max xs x.
Proof.
  revert x. induction xs as [| a xs IH]; intros x; simpl; [lra |].
  eapply Qle_trans; [| apply IH].
  destruct (py_max_spec x a) as [[H ->] | [H ->]]; lra.
Qed.

Lemma fold_max_ge_all (xs : list Q) (x : Q) :
  Forall (fun v => v <= fold_left Py.max xs x) xs.
Proof.
  revert x. induction xs as [| a xs IH]; intros x; [constructor |].
  simpl. constructor; [| apply IH].
  eapply Qle_trans; [| apply fold_max_ge_init].
  destruct (py_max_spec x a) as [[H ->] | [H ->]]; lra.
Qed.

Lemma np_max_upper (xs : list Q) (peak : Q) :
  np_max xs = Ok peak -> Forall (fun v => v <= peak) xs.
Proof.
  destruct xs as [| x rest]; [done |]. simpl. intros [= <-].
  constructor; [apply fold_max_ge_init | apply fold_max_ge_all].
Qed.

Lemma Qsum_silent (xs : list Q) :
  Forall (fun s => s == 0) xs -> Qsum xs == 0.
Proof.
  induction 1 as [| x xs Hx _ IH]; [reflexivity |].
  unfold Qsum in *. simpl. rewrite Hx, IH. reflexivity.
Qed.

Lemma normalised_in_unit (v peak : Q) :
  0 <= v -> v <= peak -> 0 <= v / (peak + epsilon) <= 1.
Proof.
  intros H0 Hp. assert (0 < peak + epsilon) as Hd by (unfold epsilon; lra).
  split.
  - apply Qle_shift_div_l; [done | lra].
  - apply Qle_shift_div_r; [done | unfold epsilon in *; lra].
Qed.

Lemma silent_frame_value (f : list Q) (peak : Q) :
  Forall (fun s => s == 0) f -> Py.abs (mean f) / (peak + epsilon) == 0.
Proof.
  intros Hf. unfold Py.abs, mean.
  assert (Qsum f / inject_Z (Z.of_nat (length f)) == 0) as ->.
  { rewrite (Qsum_silent f Hf). unfold Qdiv. apply Qmult_0_l. }
  unfold Qdiv. apply Qmult_0_l.
Qed.

Lemma loudness_envelope_long (y : list Q) :
  (win <= length y)%nat ->
  exists env,
    loudness_envelope y = Ok env /\
    length env = (length y / win)%nat /\
    Forall (fun v => 0 <= v <= 1) env /\
    (Forall (fun s => s == 0) y -> Forall (fun v => v == 0) env).
Proof.
  intros Hlen. destruct (util_frame_ok y Hlen) as (fr & rest & Hfr & Hn & Hs).
  unfold loudness_envelope. rewrite Hfr. cbn [bind].
  set (env := map (fun f => Py.abs (mean f)) (fr :: rest)).
  destruct (np_max env) as [peak | e] eqn:Hpeak; [| done]. cbn [bind].
  exists (map (fun v => v / (peak + epsilon)) env). split; [reflexivity |].
  split; [by rewrite length_map; unfold env; rewrite length_map |].
  split.
  - apply Forall_map. pose proof (np_max_upper env peak Hpeak) as Hup.
    assert (Forall (fun v => 0 <= v) env) as Hpos.
    { unfold env. apply Forall_map. apply Forall_forall. intros f _.
      apply Qabs_nonneg. }
    rewrite Forall_forall in Hup. rewrite Forall_forall in Hpos.
    apply Forall_forall. intros v Hv. simpl.
    apply normalised_in_unit; [by apply Hpos | by apply Hup].
  - intros Hsil. specialize (Hs Hsil). apply Forall_map. unfold env.
    apply Forall_map. eapply Forall_impl; [exact Hs |].
    intros f Hf. by apply silent_frame_value.
Qed.

(** A signal shorter than one window has no envelope: framing rejects it. *)
Lemma loudness_envelope_short (y : list Q) :
  (length y < win)%nat -> loudness_envelope y = Raise ParameterError.
Proof.
  intros H. unfold loudness_envelope. by rewrite util_frame_short.
Qed.

(** C5. For every audio signal, every value of the loudness envelope lies
    in [0, 1], and for an all-zero signal every value of the envelope is 0.
    The envelope exists, with one value per whole window, as soon as the
    signal holds one analysis window; a shorter signal is rejected by the
    framing and has no envelope. *)
Theorem loudness_envelope_in_unit_interval (y : list Q) :
  (forall env,
     loudness_envelope y = Ok env ->
     Forall (fun v => 0 <= v <= 1) env /\
     (Forall (fun s => s == 0) y -> Forall (fun v => v == 0) env)) /\
  ((win <= length y)%nat ->
   exists env,
     loudness_envelope y = Ok env /\ length env = (length y / win)%nat) /\
  ((length y < win)%nat -> loudness_envelope y = Raise ParameterError).
Proof.
  split; [| split].
  - intros env Henv. destruct (Nat.lt_ge_cases (length y) win) as [Hs | Hl].
    + rewrite loudness_envelope_short in Henv by done. done.
    + destruct (loudness_envelope_long y Hl) as (env' & H1 & _ & H2 & H3).
      rewrite H1 in Henv. injection Henv as <-. by split.
  - intros Hl. destruct (loudness_envelope_long y Hl) as (env & H1 & H2 & _).
    by exists env.
  - apply loudness_envelope_short.
Qed.

Lemma loudness_envelope_in_unit_interval_witness :
  exists env,
    loudness_envelope (repeat (1 # 2) 441) = Ok env /\
    Forall (fun v => 0 <= v <= 1) env.
Proof.
  destruct (loudness_envelope_in_unit_interval (repeat (1 # 2) 441))
    as (Hall & Hex & _).
  destruct Hex as (env & Henv & _); [apply Nat.leb_le; by vm_compute |].
  exists env. split; [exact Henv |]. by apply Hall.
Defined.

(** ** The typewriter *)

Lemma typewriter_progress_clamp (t dur : Q) :
  typewriter_progress t dur == clamp01 (t / Qmax c0_01 dur).
Proof.
  unfold typewriter_progress, clamp01.
  rewrite py_max_Qmax, py_min_Qmin, (py_max_Qmax c0_01 dur). reflexivity.
Qed.

Lemma clamp01_bounds (x : Q) : 0 <= clamp01 x <= 1.
Proof.
  unfold clamp01. split; [apply Q.le_max_l |].
  apply Q.max_lub; [lra | apply Q.le_min_l].
Qed.

Lemma inject_length_nonneg (s : string) :
  0 <= inject_Z (Z.of_nat (String.length s)).
Proof. change 0 with (inject_Z 0). rewrite <- Zle_Qle. lia. Qed.

(** The [n] of the source as a floor, with the two guards spelled out. *)
Lemma typewriter_n_floor (s : string) (t dur : Q) :
  typewriter_n s t dur =
  Z.max 1 (Qfloor (inject_Z (Z.of_nat (String.length s))
                   * clamp01 (t / Qmax c0_01 dur))).
Proof.
  unfold typewriter_n. f_equal.
  pose proof (clamp01_bounds (t / Qmax c0_01 dur)) as [Hc _].
  pose proof (typewriter_progress_clamp t dur) as Hp.
  rewrite py_int_floor.
  - apply Qfloor_comp. by rewrite Hp.
  - rewrite Hp. apply Qmult_le_0_compat; [apply inject_length_nonneg | done].
Qed.

Lemma prefix_length (n : nat) (s : string) :
  String.length (PyStr.prefix n s) = Nat.min n (String.length s).
Proof.
  revert s. induction n as [| n IH]; intros [| c r]; simpl; try done.
  by rewrite IH.
Qed.

Lemma prefix_is_prefix (n : nat) (s : string) :
  exists rest, s = PyStr.prefix n s +:+ rest.
Proof.
  revert s. induction n as [| n IH]; intros s.
  - exists s. by destruct s.
  - destruct s as [| c r]; [by exists "" |].
    destruct (IH r) as [rest Hrest]. exists rest.
    change (String c r = String c (PyStr.prefix n r +:+ rest)). by f_equal.
Qed.




(** ** Empty text *)

Lemma py_max_lower (a b : Q) : a <= Py.max a b.
Proof. destruct (py_max_spec a b) as [[H ->] | [H ->]]; lra. Qed.

Lemma is_empty_false (t : string) : t <> "" -> PyStr.is_empty t = false.
Proof. by destruct t. Qed.

(** C7, as the code has it. [add_text_at] given an empty or missing text
    adds no layer at all; given a non-empty text it appends one still clip
    that starts at [start] and lasts max(0.01, end - start).  The clip
    constructors do not look at the text: with the empty text
    [_image_text_clip] still lasts max(0.01, end - start), never 0, and
    [_typewriter_clip] still lasts [dur].  An empty or missing title is
    replaced by the default title, an empty transcription gives no caption
    clips.  None of these raises. *)
Theorem empty_text_adds_no_layer (size : Z * Z) (layers : list clip)
    (start end_ dur : Q) (fontsize : Z) (c : concept) :
  add_text_at size layers None start end_ fontsize = layers /\
  add_text_at size layers (Some "") start end_ fontsize = layers /\
  (forall t, t <> "" ->
     add_text_at size layers (Some t) start end_ fontsize
     = (layers ++ [_image_text_clip t size start end_ fontsize])%list) /\
  (forall t,
     c_start (_image_text_clip t size start end_ fontsize) = start /\
     c_duration (_image_text_clip t size start end_ fontsize)
     = Some (Py.max c0_01 (end_ - start)) /\
     0 < Py.max c0_01 (end_ - start)) /\
  c_duration (_typewriter_clip "" size start dur fontsize) = Some dur /\
  _karaoke_clips "" size dur = [] /\
  (default "" (concept_title c) = "" ->
   add_title size layers c dur
   = (layers ++ [_image_text_clip "ReelSense AI" size 0
                   (Py.min (28 # 10) dur) 80])%list).
Proof.
  repeat split; try done.
  - intros t Ht. unfold add_text_at. by rewrite is_empty_false.
  - eapply Qlt_le_trans; [| apply py_max_lower]. reflexivity.
  - intros Httl. unfold add_title. by rewrite Httl.
Qed.

Lemma empty_text_adds_no_layer_witness :
  add_title DEFAULT_SIZE []
    {| concept_title := Some ""; story_structure := None; hashtags := None |}
    30
  = [_image_text_clip "ReelSense AI" DEFAULT_SIZE 0 (Py.min (28 # 10) 30) 80].
Proof.
  destruct (empty_text_adds_no_layer DEFAULT_SIZE [] 0 1 30 68
    {| concept_title := Some ""; story_structure := None; hashtags := None |})
    as (_ & _ & _ & _ & _ & _ & H).
  apply H. reflexivity.
Defined.

(** C7 as stated fails: the still-text constructor given the empty text
    over [0, 1] builds a layer that lasts 1 second, not 0. *)
Lemma empty_text_clip_lasts :
  exists d,
    c_duration (_image_text_clip "" DEFAULT_SIZE 0 1 68) = Some d /\
    d == 1 /\ ~ d == 0.
Proof. eexists. split; [reflexivity |]. split; by vm_compute. Qed.

(** ** The captions *)

Lemma Qnat_S (n : nat) :
  inject_Z (Z.of_nat (S n)) == inject_Z (Z.of_nat n) + 1.
Proof. rewrite Nat2Z.inj_succ. unfold Z.succ. by rewrite inject_Z_plus. Qed.

Lemma Qnat_nonneg (n : nat) : 0 <= inject_Z (Z.of_nat n).
Proof. change 0 with (inject_Z 0). rewrite <- Zle_Qle. lia. Qed.

Lemma Qnat_pos (n : nat) : (0 < n)%nat -> 0 < inject_Z (Z.of_nat n).
Proof. intros H. change 0 with (inject_Z 0). rewrite <- Zlt_Qlt. lia. Qed.

Lemma karaoke_loop_length (size : Z * Z) (D per s : Q) (parts : list string) :
  length (karaoke_loop size D per s parts) = length parts.
Proof.
  revert s. induction parts as [| seg rest IH]; intros s; [done |].
  simpl. by rewrite IH.
Qed.


(** Inside the budget the [min] of the loop never cuts a slice. *)
Lemma karaoke_end (D per s : Q) :
  s + per <= D -> Py.min D (s + per) == s + per.
Proof.
  intros H. destruct (py_min_spec D (s + per)) as [[_ ->] | [H' ->]];
    [reflexivity | lra].
Qed.

Lemma karaoke_loop_slices (size : Z * Z) (D per : Q) (parts : list string) :
  0 <= per ->
  forall (s : Q) (k : nat) (c : clip),
    s + inject_Z (Z.of_nat (length parts)) * per <= D ->
    karaoke_loop size D per s parts !! k = Some c ->
    c_start c == s + inject_Z (Z.of_nat k) * per /\
    exists d, c_duration c = Some d /\ d == per.
Proof.
  intros Hper. induction parts as [| seg rest IH]; intros s k c Hfit Hk;
    [done |].
  assert (s + per <= D) as Hfit1.
  { simpl length in Hfit. rewrite Qnat_S in Hfit.
    pose proof (Qnat_nonneg (length rest)) as Hn.
    assert (0 <= inject_Z (Z.of_nat (length rest)) * per)
      by (by apply Qmult_le_0_compat).
    lra. }
  pose proof (karaoke_end D per s Hfit1) as Hend.
  destruct k as [| k]; simpl in Hk.
  - injection Hk as <-. cbn [c_start c_duration]. split.
    + change (inject_Z (Z.of_nat 0)) with 0. lra.
    + eexists. split; [reflexivity |]. lra.
  - apply IH in Hk.
    + destruct Hk as [Hs Hd]. split; [| exact Hd].
      rewrite Hs, Hend, Qnat_S. lra.
    + simpl length in Hfit. rewrite Qnat_S in Hfit. lra.
Qed.

Lemma karaoke_parts_nonempty (text : string) : karaoke_parts text <> [].
Proof. unfold karaoke_parts. by destruct (filter _ _). Qed.



(** ** The feature extractor *)

(** The record the extractor returns once the duration and the RMS are
    there, from the outcomes of the three guarded estimators. *)
Lemma analyze_audio_features_ok (L : librosa) (audio : list Q) (sr : Z)
    (rms : Q * list Q) :
  sr <> 0%Z -> feature_rms L audio = Ok rms ->
  _analyze_audio_features L audio sr =
  Ok {| duration_seconds :=
          py_round (inject_Z (Z.of_nat (length audio)) / inject_Z sr) 2;
        sample_rate := sr;
        average_rms := py_round (mean1 rms) 4;
        average_pitch_hz :=
          py_round (try_except (let* bins := piptrack L audio sr in
                                Ok (pitch_of_bins bins)) 0) 1;
        tempo_bpm :=
          py_round (try_except (let* tr := beat_track L audio sr in
                                Ok (fst tr)) 0) 1;
        spectral_centroid :=
          py_round (try_except
                      (let* cents := feature_spectral_centroid L audio sr in
                       Ok (mean1 cents)) 0) 1 |}.
Proof.
  intros Hsr Hrms. unfold _analyze_audio_features.
  apply Z.eqb_neq in Hsr. rewrite Hsr. cbn [bind]. by rewrite Hrms.
Qed.

(** C9. Whenever the duration and the RMS are computed, the extractor
    returns a complete record whatever the pitch, tempo and centroid
    estimators do; an estimator that fails leaves 0.0 in its own field; and
    making one estimator fail changes that field alone: every other field
    of the record is the one of the original run. *)
Theorem estimator_failure_is_isolated (L : librosa) (audio : list Q)
    (sr : Z) (rms : Q * list Q) :
  sr <> 0%Z -> feature_rms L audio = Ok rms ->
  exists f,
    _analyze_audio_features L audio sr = Ok f /\
    (forall e, piptrack L audio sr = Raise e -> average_pitch_hz f = 0) /\
    (forall e, beat_track L audio sr = Raise e -> tempo_bpm f = 0) /\
    (forall e, feature_spectral_centroid L audio sr = Raise e ->
               spectral_centroid f = 0) /\
    forall e,
      _analyze_audio_features (failing_pitch L e) audio sr =
      Ok {| duration_seconds := duration_seconds f;
            sample_rate := sample_rate f;
            average_rms := average_rms f;
            average_pitch_hz := 0;
            tempo_bpm := tempo_bpm f;
            spectral_centroid := spectral_centroid f |} /\
      _analyze_audio_features (failing_tempo L e) audio sr =
      Ok {| duration_seconds := duration_seconds f;
            sample_rate := sample_rate f;
            average_rms := average_rms f;
            average_pitch_hz := average_pitch_hz f;
            tempo_bpm := 0;
            spectral_centroid := spectral_centroid f |} /\
      _analyze_audio_features (failing_centroid L e) audio sr =
      Ok {| duration_seconds := duration_seconds f;
            sample_rate := sample_rate f;
            average_rms := average_rms f;
            average_pitch_hz := average_pitch_hz f;
            tempo_bpm := tempo_bpm f;
            spectral_centroid := 0 |}.
Proof.
  intros Hsr Hrms. eexists. split; [by apply analyze_audio_features_ok |].
  cbn [duration_seconds sample_rate average_rms average_pitch_hz tempo_bpm
       spectral_centroid].
  split; [by intros e -> |]. split; [by intros e -> |].
  split; [by intros e -> |].
  intros e. split; [| split].
  - by rewrite (analyze_audio_features_ok (failing_pitch L e) audio sr rms).
  - by rewrite (analyze_audio_features_ok (failing_tempo L e) audio sr rms).
  - by rewrite (analyze_audio_features_ok (failing_centroid L e) audio sr rms).
Qed.

(** A librosa on which only the tempo estimator fails. *)
Lemma estimator_failure_is_isolated_witness :
  let L := {| feature_rms := fun _ => Ok (1 # 2, []);
              piptrack := fun _ _ => Ok [(440, 1); (880, 0)];
              beat_track := fun _ _ => Raise LibraryError;
              feature_spectral_centroid := fun _ _ => Ok (1500, [2500]) |} in
  22050%Z <> 0%Z /\
  exists f,
    _analyze_audio_features L [0; 1; 0; -1] 22050 = Ok f /\
    average_pitch_hz f = 440 /\ tempo_bpm f = 0 /\
    spectral_centroid f = 2000.
Proof.
  intros L. assert (22050%Z <> 0%Z) as Hsr by discriminate.
  split; [exact Hsr |].
  destruct (estimator_failure_is_isolated L [0; 1; 0; -1] 22050 (1 # 2, [])
              Hsr eq_refl) as (f & Hf & _ & Ht & _).
  exists f. split; [exact Hf |].
  split; [| split; [by apply (Ht LibraryError) |]].
  - rewrite (analyze_audio_features_ok L _ _ _ Hsr eq_refl) in Hf.
    injection Hf as <-. by vm_compute.
  - rewrite (analyze_audio_features_ok L _ _ _ Hsr eq_refl) in Hf.
    injection Hf as <-. by vm_compute.
Defined.

(** ** The hashtag strip *)

Lemma lstrip_char_shape (h : string) :
  exists k,
    h = hashes k +:+ PyStr.lstrip_char hash h /\
    forall r, PyStr.lstrip_char hash h <> String hash r.
Proof.
  induction h as [| c r IH].
  - exists 0%nat. by split.
  - simpl. destruct (Ascii.eqb_spec c hash) as [-> | Hne].
    + destruct IH as (k & Hk & Hno). exists (S k). split; [| exact Hno].
      change (String hash r
              = String hash (hashes k +:+ PyStr.lstrip_char hash r)).
      by f_equal.
    + exists 0%nat. split; [done |]. intros r' [= Hc _]. done.
Qed.

Lemma hashtag_token_ok (h : string) : token_of h (hashtag_token h).
Proof.
  destruct (lstrip_char_shape h) as (k & Hk & Hno).
  exists k, (PyStr.lstrip_char hash h). by repeat split.
Qed.

Lemma hashtag_text_first_five (tags : list string) :
  hashtag_text tags = hashtag_text (take 5 tags).
Proof. unfold hashtag_text. by rewrite take_take. Qed.

Lemma hashtag_layers_without (size : Z * Z) (c : concept) (D : Q) :
  hashtag_layers size (without_hashtags c) D = [].
Proof. done. Qed.

Lemma base_layers_without (c : concept) (bo : result (list Q))
    (size : Z * Z) (D : Q) :
  base_layers (without_hashtags c) bo size D = base_layers c bo size D.
Proof. done. Qed.

(** The layer list of a render: the layers before the hashtag block, the
    hashtag block, the wow block. *)
Lemma render_layers_split (c : concept) (reported : Q)
    (bo : result (list Q)) (samples : list Q) (size : Z * Z) (wow : bool)
    (tr : string) (v : video) :
  render_tiktok_reel c true reported bo samples size wow tr = Ok v ->
  v_duration v = effective_duration reported /\
  exists pre post,
    base_layers c bo size (v_duration v) = Ok pre /\
    wow_layers size wow samples tr (v_duration v) = Ok post /\
    v_layers v = (pre ++ hashtag_layers size c (v_duration v) ++ post)%list.
Proof.
  unfold render_tiktok_reel. cbn [negb].
  destruct (base_layers c bo size (effective_duration reported))
    as [pre | e] eqn:Hpre; cbn [bind]; [| done].
  destruct (wow_layers size wow samples tr (effective_duration reported))
    as [post | e] eqn:Hpost; cbn [bind]; [| done].
  intros [= <-]. cbn [v_duration v_layers]. split; [done |].
  exists pre, post. by rewrite <- app_assoc.
Qed.

(** ** Audio without a positive duration *)

Lemma effective_duration_default (reported : Q) :
  reported <= 0 -> effective_duration reported = 30.
Proof.
  intros H. unfold effective_duration, Py.leb.
  destruct (Qlt_le_dec 0 reported) as [Hlt | _].
  - exfalso. by apply (Qlt_not_le _ _ Hlt).
  - by rewrite orb_true_r.
Qed.

Lemma effective_duration_positive (reported : Q) :
  0 < reported -> effective_duration reported = reported.
Proof.
  intros H. unfold effective_duration, Py.leb.
  destruct (Qlt_le_dec 0 reported) as [_ | Hle].
  - destruct (Qeq_bool reported 0) eqn:Heq; [| done].
    apply Qeq_bool_iff in Heq. lra.
  - exfalso. by apply (Qlt_not_le _ _ H).
Qed.




(** * Further properties of the renderer *)

(** ** Strings *)

Arguments PyStr.is_space : simpl never.

Lemma append_cons (c : ascii) (s t : string) :
  String c s +:+ t = String c (s +:+ t).
Proof. reflexivity. Qed.

Lemma append_nil_l (t : string) : "" +:+ t = t.
Proof. reflexivity. Qed.

Lemma append_nil_r (s : string) : s +:+ "" = s.
Proof. induction s as [| c s IH]; [done |]. by rewrite append_cons, IH. Qed.

Lemma append_assoc (s t u : string) : (s +:+ t) +:+ u = s +:+ (t +:+ u).
Proof.
  induction s as [| c s IH]; [done |]. by rewrite !append_cons, IH.
Qed.

Lemma length_append (s t : string) :
  String.length (s +:+ t) = (String.length s + String.length t)%nat.
Proof.
  induction s as [| c s IH]; [done |]. rewrite append_cons. simpl.
  by rewrite IH.
Qed.

Lemma replace_length (a b : ascii) (s : string) :
  String.length (PyStr.replace a b s) = String.length s.
Proof. induction s as [| c s IH]; [done |]. simpl. by rewrite IH. Qed.

Lemma lstrip_length (s : string) :
  (String.length (PyStr.lstrip s) <= String.length s)%nat.
Proof.
  induction s as [| c s IH]; [done |]. simpl.
  destruct (PyStr.is_space c); simpl; lia.
Qed.

Lemma rstrip_length (s : string) :
  (String.length (PyStr.rstrip s) <= String.length s)%nat.
Proof.
  induction s as [| c s IH]; [done |]. simpl.
  destruct (PyStr.rstrip s) as [| c' r'].
  - destruct (PyStr.is_space c); simpl; lia.
  - simpl in *. lia.
Qed.

Lemma count_char_append (c : ascii) (s t : string) :
  count_char c (s +:+ t) = (count_char c s + count_char c t)%nat.
Proof.
  induction s as [| c' s IH]; [done |]. rewrite append_cons. simpl.
  rewrite IH. lia.
Qed.

Lemma count_char_replace (a b : ascii) (s : string) :
  a <> b -> count_char a (PyStr.replace a b s) = 0%nat.
Proof.
  intros Hab. induction s as [| c s IH]; [done |]. simpl. rewrite IH.
  destruct (Ascii.eqb_spec c a) as [-> | Hc].
  - destruct (Ascii.eqb_spec b a) as [-> | _]; done.
  - destruct (Ascii.eqb_spec c a) as [-> | _]; done.
Qed.

Lemma count_char_lstrip (c : ascii) (s : string) :
  (count_char c (PyStr.lstrip s) <= count_char c s)%nat.
Proof.
  induction s as [| c' s IH]; [done |]. simpl.
  destruct (PyStr.is_space c'); simpl; lia.
Qed.

Lemma count_char_rstrip (c : ascii) (s : string) :
  (count_char c (PyStr.rstrip s) <= count_char c s)%nat.
Proof.
  induction s as [| c' s IH]; [done |]. simpl.
  destruct (PyStr.rstrip s) as [| c'' r'].
  - destruct (PyStr.is_space c'); simpl; lia.
  - simpl in *. lia.
Qed.

Lemma count_char_prefix (c : ascii) (n : nat) (s : string) :
  (count_char c (PyStr.prefix n s) <= count_char c s)%nat.
Proof.
  revert s. induction n as [| n IH]; intros [| c' s]; simpl; try lia.
  specialize (IH s). lia.
Qed.

Lemma replace_absent (a b : ascii) (s : string) :
  count_char a s = 0%nat -> PyStr.replace a b s = s.
Proof.
  induction s as [| c s IH]; [done |]. simpl.
  destruct (Ascii.eqb c a); [done |]. intros H. by rewrite IH.
Qed.

Lemma lstrip_head (s : string) : head_not_space (PyStr.lstrip s) = true.
Proof.
  induction s as [| c s IH]; [done |]. simpl.
  destruct (PyStr.is_space c) eqn:Hc; [done |]. simpl. by rewrite Hc.
Qed.

Lemma lstrip_id (s : string) : head_not_space s = true -> PyStr.lstrip s = s.
Proof.
  destruct s as [| c s]; [done |]. simpl.
  by destruct (PyStr.is_space c).
Qed.

Lemma rstrip_head (s : string) :
  head_not_space s = true -> head_not_space (PyStr.rstrip s) = true.
Proof.
  destruct s as [| c s]; [done |]. simpl.
  destruct (PyStr.rstrip s); [| done].
  destruct (PyStr.is_space c) eqn:Hc; [done |]. simpl. by rewrite Hc.
Qed.

Lemma rstrip_idem (s : string) : PyStr.rstrip (PyStr.rstrip s) = PyStr.rstrip s.
Proof.
  induction s as [| c s IH]; [done |]. simpl.
  destruct (PyStr.rstrip s) as [| c' r'] eqn:Hr.
  - destruct (PyStr.is_space c) eqn:Hc; [done |]. simpl. by rewrite Hc.
  - change (PyStr.rstrip (String c (String c' r')))
      with (match PyStr.rstrip (String c' r') with
            | EmptyString =>
                if PyStr.is_space c then EmptyString else String c EmptyString
            | r'' => String c r''
            end).
    by rewrite IH.
Qed.

Lemma strip_idem (s : string) : PyStr.strip (PyStr.strip s) = PyStr.strip s.
Proof.
  unfold PyStr.strip.
  rewrite (lstrip_id (PyStr.rstrip (PyStr.lstrip s))).
  - apply rstrip_idem.
  - apply rstrip_head, lstrip_head.
Qed.

(** [rstrip] leaves alone a string that ends with a stable, non-empty tail. *)
Lemma rstrip_append_stable (x y : string) :
  y <> "" -> PyStr.rstrip y = y -> PyStr.rstrip (x +:+ y) = x +:+ y.
Proof.
  intros Hy Hs. induction x as [| c x IH]; [done |].
  rewrite append_cons.
  change (PyStr.rstrip (String c (x +:+ y)))
    with (match PyStr.rstrip (x +:+ y) with
          | EmptyString =>
              if PyStr.is_space c then EmptyString else String c EmptyString
          | r' => String c r'
          end).
  rewrite IH. destruct (x +:+ y) eqn:Hxy; [| done].
  destruct x; [done | discriminate].
Qed.

Lemma prefix_head (n : nat) (s : string) :
  head_not_space s = true -> head_not_space (PyStr.prefix n s) = true.
Proof. destruct n, s; done. Qed.

Lemma append_head (s t : string) :
  head_not_space s = true -> head_not_space t = true ->
  head_not_space (s +:+ t) = true.
Proof. by destruct s. Qed.

(** ** [_safe_text] *)

(** The stripped text, before truncation. *)
Lemma safe_text_cases (text : string) (max_len : Z) :
  let t := PyStr.strip (PyStr.replace newline blank text) in
  (_safe_text text max_len = "" /\ text = "") \/
  (text <> "" /\ (Z.of_nat (String.length t) <= max_len)%Z /\
   _safe_text text max_len = t) \/
  (text <> "" /\ (max_len < Z.of_nat (String.length t))%Z /\
   _safe_text text max_len = PyStr.slice_to (max_len - 3) t +:+ "...").
Proof.
  intros t. unfold _safe_text. destruct text as [| c r]; [by left |].
  right. cbn [PyStr.is_empty]. fold t.
  destruct (Z.ltb_spec max_len (Z.of_nat (String.length t)));
    [right | left]; done.
Qed.

Lemma slice_to_nonneg (n : Z) (s : string) :
  (0 <= n)%Z -> PyStr.slice_to n s = PyStr.prefix (Z.to_nat n) s.
Proof.
  intros H. unfold PyStr.slice_to. by destruct (Z.ltb_spec n 0); [lia |].
Qed.

Lemma stripped_no_newline (text : string) :
  count_char newline (PyStr.strip (PyStr.replace newline blank text)) = 0%nat.
Proof.
  unfold PyStr.strip.
  pose proof (count_char_rstrip newline
                (PyStr.lstrip (PyStr.replace newline blank text))).
  pose proof (count_char_lstrip newline (PyStr.replace newline blank text)).
  rewrite count_char_replace in * by done. lia.
Qed.

(** X1. The cleaned text is bounded: for every limit of at least 3,
    [_safe_text] returns at most [max_len] characters, exactly [max_len]
    when it had to cut, and never a line break. *)
Theorem safe_text_bounded (text : string) (max_len : Z) :
  (3 <= max_len)%Z ->
  (Z.of_nat (String.length (_safe_text text max_len)) <= max_len)%Z /\
  ((max_len < Z.of_nat (String.length
                (PyStr.strip (PyStr.replace newline blank text))))%Z ->
   text <> "" ->
   Z.of_nat (String.length (_safe_text text max_len)) = max_len) /\
  count_char newline (_safe_text text max_len) = 0%nat.
Proof.
  intros Hm. set (t := PyStr.strip (PyStr.replace newline blank text)).
  assert ((max_len < Z.of_nat (String.length t))%Z ->
          String.length (PyStr.slice_to (max_len - 3) t +:+ "...")
          = Z.to_nat max_len) as Hcut.
  { intros Hlong. rewrite length_append, slice_to_nonneg by lia.
    rewrite prefix_length. simpl. lia. }
  destruct (safe_text_cases text max_len)
    as [[-> ->] | [(Hne & Hlen & ->) | (Hne & Hlen & ->)]]; fold t.
  - split; [simpl; lia |]. split; [by intros _ H |]. done.
  - split; [done |]. split; [unfold t in *; lia |]. apply stripped_no_newline.
  - rewrite (Hcut Hlen). split; [lia |]. split; [lia |].
    rewrite count_char_append, Nat.add_0_r.
    pose proof (stripped_no_newline text) as H0. fold t in H0.
    rewrite slice_to_nonneg by lia.
    pose proof (count_char_prefix newline (Z.to_nat (max_len - 3)) t). lia.
Qed.

Lemma safe_text_bounded_witness :
  (3 <= 5)%Z /\
  (Z.of_nat (String.length (_safe_text "  hello world  " 5)) <= 5)%Z /\
  count_char newline (_safe_text "  hello world  " 5) = 0%nat.
Proof.
  assert (3 <= 5)%Z as H by lia. split; [exact H |].
  destruct (safe_text_bounded "  hello world  " 5 H) as (Hlen & _ & Hnl).
  by split.
Defined.

(** X2. Cleaning is idempotent: for every limit of at least 3, cleaning an
    already cleaned text with the same limit changes nothing. *)
Theorem safe_text_idempotent (text : string) (max_len : Z) :
  (3 <= max_len)%Z ->
  _safe_text (_safe_text text max_len) max_len = _safe_text text max_len.
Proof.
  intros Hm. pose proof (safe_text_bounded text max_len Hm) as (Hlen & _ & Hnl).
  remember (_safe_text text max_len) as r eqn:Hr.
  assert (PyStr.strip r = r) as Hstrip.
  { rewrite Hr. set (t := PyStr.strip (PyStr.replace newline blank text)).
    destruct (safe_text_cases text max_len)
      as [[-> _] | [(_ & _ & ->) | (_ & Hlong & ->)]]; fold t.
    - done.
    - apply strip_idem.
    - unfold PyStr.strip. rewrite slice_to_nonneg by lia.
      rewrite lstrip_id.
      + by apply rstrip_append_stable.
      + destruct (PyStr.prefix (Z.to_nat (max_len - 3)) t) eqn:Hp; [done |].
        rewrite <- Hp. apply append_head; [| done]. apply prefix_head.
        unfold t, PyStr.strip. apply rstrip_head, lstrip_head. }
  unfold _safe_text at 1. destruct r as [| c r']; [done |].
  cbn [PyStr.is_empty]. rewrite (replace_absent _ _ _ Hnl), Hstrip.
  by destruct (Z.ltb_spec max_len (Z.of_nat (String.length (String c r'))));
    [lia |].
Qed.

Lemma safe_text_idempotent_witness :
  (3 <= 5)%Z /\ _safe_text (_safe_text "  hello world  " 5) 5 = "he...".
Proof.
  assert (3 <= 5)%Z as H by lia. split; [exact H |].
  rewrite (safe_text_idempotent "  hello world  " 5 H). by vm_compute.
Defined.

(** ** The word wrap of [_render_text_image] *)

Lemma no_space_rstrip (w : string) : no_space w = true -> PyStr.rstrip w = w.
Proof.
  induction w as [| c w IH]; [done |]. simpl.
  destruct (PyStr.is_space c) eqn:Hc; [done |]. simpl. intros Hw.
  rewrite (IH Hw). by destruct w.
Qed.

Lemma wordlike_stable (w : string) : wordlike w -> stable w.
Proof.
  intros [Hne Hns]. split; [done |]. split; [| by apply no_space_rstrip].
  destruct w as [| c w]; [done |]. simpl in *.
  by destruct (PyStr.is_space c).
Qed.

Lemma words_aux_wordlike (s : string) :
  no_space (words_aux s).1 = true /\ Forall wordlike (words_aux s).2.
Proof.
  induction s as [| c s [IHw IHws]]; [by split |]. simpl.
  destruct (words_aux s) as [w ws]. simpl in *.
  destruct (PyStr.is_space c) eqn:Hc; simpl.
  - split; [done |]. unfold push_word. destruct w; [done |].
    constructor; [| done]. by split.
  - rewrite Hc. by split.
Qed.

Lemma split_ws_wordlike (s : string) : Forall wordlike (split_ws s).
Proof.
  unfold split_ws. pose proof (words_aux_wordlike s) as [Hw Hws].
  destruct (words_aux s) as [w ws]. simpl in *. unfold push_word.
  destruct w; [done |]. constructor; [| done]. by split.
Qed.

Lemma join_snoc (l : list string) (x : string) :
  PyStr.join " " (l ++ [x])
  = match l with
    | [] => x
    | _ => PyStr.join " " l +:+ " " +:+ x
    end.
Proof.
  induction l as [| a l IH]; [done |].
  change ((a :: l) ++ [x])%list with (a :: (l ++ [x]))%list.
  destruct l as [| b l]; [done |].
  change (PyStr.join " " (a :: (b :: l) ++ [x])%list)
    with (a +:+ " " +:+ PyStr.join " " ((b :: l) ++ [x])%list).
  rewrite IH.
  change (PyStr.join " " (a :: b :: l))
    with (a +:+ " " +:+ PyStr.join " " (b :: l)).
  by rewrite !append_assoc.
Qed.

Lemma strip_joined (a w : string) :
  stable a -> wordlike w ->
  PyStr.strip (a +:+ " " +:+ w) = a +:+ " " +:+ w /\
  stable (a +:+ " " +:+ w).
Proof.
  intros (Ha & Hh & Hr) Hw. destruct (wordlike_stable w Hw) as (Hwn & _ & Hwr).
  assert (head_not_space (a +:+ " " +:+ w) = true) as Hhead
    by (by destruct a).
  assert (PyStr.rstrip (a +:+ " " +:+ w) = a +:+ " " +:+ w) as Hrs.
  { rewrite <- append_assoc. by apply rstrip_append_stable. }
  split; [| split; [by destruct a | done]].
  unfold PyStr.strip. by rewrite lstrip_id.
Qed.

Lemma strip_first (w : string) :
  wordlike w -> PyStr.strip ("" +:+ " " +:+ w) = w.
Proof.
  intros Hw. destruct (wordlike_stable w Hw) as (_ & Hh & Hr).
  unfold PyStr.strip.
  change (PyStr.lstrip ("" +:+ " " +:+ w)) with (PyStr.lstrip w).
  by rewrite lstrip_id.
Qed.

Section WordWrapFacts.

Variable bbox_right : string -> Z.

Lemma wrap_step_inv (w : Z) (all : list string) (st : string * list string)
    (seen : list string) (wtoken : string) :
  wordlike wtoken -> In wtoken all ->
  wrap_inv bbox_right w all st seen ->
  wrap_inv bbox_right w all (wrap_step bbox_right w st wtoken) (seen ++ [wtoken])%list.
Proof.
  intros Hw Hin (Hlines & Hempty & Hfull & Hjoin).
  destruct st as [line lines]. cbn [fst snd] in *.
  pose proof (wordlike_stable wtoken Hw) as Hst.
  assert (wtoken <> "") as Hwne by apply Hw.
  assert (PyStr.is_empty wtoken = false) as Hwe by (by destruct wtoken).
  destruct line as [| c line'].
  - destruct (Hempty eq_refl) as [-> ->]. unfold wrap_step.
    rewrite strip_first by done. cbn [PyStr.is_empty].
    destruct (Z.leb_spec (bbox_right wtoken) (w - 20)) as [Hfit | Hfit];
      unfold wrap_inv; cbn [fst snd app]; rewrite Hwe.
    + split; [done |]. split; [done |]. split; [| done].
      intros _. split; [| done]. split; [done | by left].
    + split; [done |]. split; [done |]. split; [| done].
      intros _. split; [| done]. split; [done | by right].
  - destruct Hfull as [[Hstl Hfit] Hseen]; [done |].
    destruct (strip_joined _ wtoken Hstl Hw) as [Hstrip Hstc].
    cbn [PyStr.is_empty] in Hjoin.
    assert (PyStr.join " " (seen ++ [wtoken])
            = PyStr.join " " (lines ++ [String c line'])
              +:+ " " +:+ wtoken) as Hseenj.
    { rewrite join_snoc, Hjoin. by destruct seen. }
    unfold wrap_step. rewrite Hstrip.
    destruct (Z.leb_spec (bbox_right (String c line' +:+ " " +:+ wtoken))
                         (w - 20)) as [Hfit' | Hfit'];
      unfold wrap_inv; cbn [fst snd PyStr.is_empty].
    + split; [done |]. split; [by destruct Hstc |]. split.
      * intros _. split; [| by destruct seen]. split; [done | by left].
      * rewrite Hseenj.
        assert (PyStr.is_empty (String c line' +:+ " " +:+ wtoken) = false)
          as -> by done.
        rewrite !join_snoc. destruct lines; [done |].
        by rewrite !append_assoc.
    + split; [apply Forall_app; split; [done | by constructor] |].
      split; [done |]. split.
      * intros _. split; [| by destruct seen]. split; [done | by right].
      * rewrite Hwe, Hseenj.
        rewrite (join_snoc (lines ++ [String c line'])%list).
        by destruct lines.
Qed.

Lemma wrap_fold_inv (w : Z) (all ws : list string) :
  forall st seen,
    Forall wordlike ws -> (forall x, In x ws -> In x all) ->
    wrap_inv bbox_right w all st seen ->
    wrap_inv bbox_right w all (fold_left (wrap_step bbox_right w) ws st) (seen ++ ws)%list.
Proof.
  induction ws as [| x ws IH]; intros st seen Hall Hsub Hinv.
  - by rewrite app_nil_r.
  - inversion Hall; subst. simpl.
    replace (seen ++ x :: ws)%list with ((seen ++ [x]) ++ ws)%list
      by (by rewrite <- app_assoc).
    apply IH; [done | intros y Hy; apply Hsub; by right |].
    apply wrap_step_inv; [done | apply Hsub; by left | done].
Qed.

Lemma wrap_lines_inv (w : Z) (ws : list string) :
  Forall wordlike ws ->
  PyStr.join " " (wrap_lines bbox_right w ws) = PyStr.join " " ws /\
  Forall (fun l => l <> "" /\ ((bbox_right l <= w - 20)%Z \/ In l ws))
         (wrap_lines bbox_right w ws).
Proof.
  intros Hws.
  pose proof (wrap_fold_inv w ws ws ("", []) [] Hws (fun x H => H)) as Hinv.
  simpl in Hinv. unfold wrap_lines.
  destruct (fold_left (wrap_step bbox_right w) ws ("", [])) as [line lines].
  destruct Hinv as (Hlines & Hempty & Hfull & Hjoin); [by repeat split |].
  simpl in *. split; [exact Hjoin |].
  assert (Forall (fun l => l <> "" /\ ((bbox_right l <= w - 20)%Z \/ In l ws))
                 lines) as Hl.
  { eapply Forall_impl; [exact Hlines |]. intros l [(Hn & _) Hf]. by split. }
  destruct line as [| c line']; [done |]. cbn [PyStr.is_empty].
  apply Forall_app. split; [done |]. constructor; [| done].
  destruct Hfull as [[(Hn & _) Hf] _]; [done |]. by split.
Qed.

(** X3. The word wrap loses nothing: for every text and box width, the
    drawn lines joined by single spaces are the words of the cleaned text
    joined by single spaces, in the same order. *)
Theorem word_wrap_keeps_words (text : string) (w : Z) :
  PyStr.join " " (drawn_lines bbox_right text w)
  = PyStr.join " " (split_ws (_safe_text text 220)).
Proof.
  unfold drawn_lines. apply wrap_lines_inv, split_ws_wordlike.
Qed.

(** X4. No drawn line is empty, and every drawn line either fits the box
    (its right edge is at most w - 20) or is a single word that is too wide
    on its own. *)
Theorem word_wrap_lines_fit (text : string) (w : Z) :
  Forall (fun l => l <> "" /\
                   ((bbox_right l <= w - 20)%Z \/
                    In l (split_ws (_safe_text text 220))))
         (drawn_lines bbox_right text w).
Proof.
  unfold drawn_lines. apply wrap_lines_inv, split_ws_wordlike.
Qed.

End WordWrapFacts.

Section LayoutFacts.

Variable bbox_height : string -> Z.

Lemma final_cursor_sum (lines : list string) (y : Z) :
  final_cursor bbox_height y lines
  = (y + foldr Z.add 0 (map bbox_height lines)
     + 8 * Z.of_nat (length lines))%Z.
Proof.
  unfold final_cursor. revert y.
  induction lines as [| ln lines IH]; intros y; simpl; [lia |].
  rewrite IH. lia.
Qed.

(** X5. The text block is centred vertically: with the first line drawn at
    (h - total_h) // 2, the block of lines (heights plus 8 pixels between
    consecutive lines) ends total_h lower, and the margin left below the
    block is the margin above it or one pixel more. *)
Theorem text_block_centred (lines : list string) (h : Z) :
  lines <> [] ->
  let top := first_top bbox_height h lines in
  let bottom := (final_cursor bbox_height top lines - 8)%Z in
  bottom = (top + total_height bbox_height lines)%Z /\
  (top <= h - bottom <= top + 1)%Z.
Proof.
  intros Hne top bottom.
  assert (bottom = (top + total_height bbox_height lines)%Z) as Hb.
  { unfold bottom. rewrite final_cursor_sum. unfold total_height.
    destruct lines; [done |]. simpl length. lia. }
  split; [exact Hb |]. rewrite Hb. unfold top, first_top.
  pose proof (Z.div_mod (h - total_height bbox_height lines) 2) as Hdm.
  pose proof (Z.mod_pos_bound (h - total_height bbox_height lines) 2).
  lia.
Qed.

End LayoutFacts.

Lemma text_block_centred_witness :
  let height := fun s : string => 40%Z in
  ["ab"; "cd"; "ef"] <> [] /\
  first_top height 300 ["ab"; "cd"; "ef"] = 82%Z /\
  (final_cursor height 82 ["ab"; "cd"; "ef"] - 8)%Z = 218%Z.
Proof.
  intros height.
  assert (["ab"; "cd"; "ef"] <> @nil string) as Hne by discriminate.
  split; [exact Hne |].
  destruct (text_block_centred height ["ab"; "cd"; "ef"] 300 Hne) as [Hb _].
  split; [reflexivity |]. exact Hb.
Defined.

(** ** The typewriter over time *)

Lemma clamp01_mono (x y : Q) : x <= y -> clamp01 x <= clamp01 y.
Proof.
  intros H. unfold clamp01. apply Q.max_le_compat_l.
  by apply Q.min_le_compat_l.
Qed.

Lemma clamp01_top (x : Q) : 1 <= x -> clamp01 x == 1.
Proof.
  intros H. unfold clamp01. rewrite (Q.min_l 1 x) by done.
  apply Q.max_r. lra.
Qed.

Lemma guard_duration_pos (d : Q) : 0 < Qmax c0_01 d.
Proof.
  eapply Qlt_le_trans; [| apply Q.le_max_l]. reflexivity.
Qed.

Lemma prefix_prefix (n m : nat) (s : string) :
  (n <= m)%nat -> is_prefix_of (PyStr.prefix n s) (PyStr.prefix m s).
Proof.
  revert m s. induction n as [| n IH]; intros m s Hnm.
  - exists (PyStr.prefix m s). by destruct s.
  - destruct m as [| m]; [lia |]. destruct s as [| c s]; [by exists "" |].
    destruct (IH m s) as [rest Hrest]; [lia |]. exists rest. simpl.
    rewrite append_cons. by f_equal.
Qed.

Lemma prefix_all (n : nat) (s : string) :
  (String.length s <= n)%nat -> PyStr.prefix n s = s.
Proof.
  revert s. induction n as [| n IH]; intros [| c s] Hn; simpl in *;
    try done; try lia.
  rewrite IH; [done | lia].
Qed.

(** X6. The typewriter only ever adds characters: for local times
    t1 <= t2 the string shown at t1 is a prefix of the string shown at t2. *)
Theorem typewriter_reveal_monotone (text : string) (t1 t2 d : Q) :
  t1 <= t2 ->
  is_prefix_of (typewriter_shown text t1 d) (typewriter_shown text t2 d).
Proof.
  intros Ht. unfold typewriter_shown. set (s := _safe_text text 160).
  rewrite !typewriter_n_floor.
  pose proof (guard_duration_pos d) as Hm.
  assert (t1 / Qmax c0_01 d <= t2 / Qmax c0_01 d) as Hdiv.
  { unfold Qdiv. apply Qmult_le_compat_r; [done |].
    apply Qinv_le_0_compat. lra. }
  assert (Qfloor (inject_Z (Z.of_nat (String.length s))
                  * clamp01 (t1 / Qmax c0_01 d))
          <= Qfloor (inject_Z (Z.of_nat (String.length s))
                     * clamp01 (t2 / Qmax c0_01 d)))%Z as Hfl.
  { apply Qfloor_resp_le. rewrite !(Qmult_comm (inject_Z _)).
    apply Qmult_le_compat_r; [by apply clamp01_mono |].
    apply inject_length_nonneg. }
  rewrite !slice_to_nonneg by lia. apply prefix_prefix. lia.
Qed.

Lemma typewriter_reveal_monotone_witness :
  1 # 4 <= 3 # 4 /\
  is_prefix_of (typewriter_shown "abcdefgh" (1 # 4) 1)
               (typewriter_shown "abcdefgh" (3 # 4) 1).
Proof.
  assert (1 # 4 <= 3 # 4) as H by (by vm_compute).
  split; [exact H |]. exact (typewriter_reveal_monotone "abcdefgh" _ _ 1 H).
Defined.

Lemma clamp01_below (x : Q) : x < 1 -> clamp01 x < 1.
Proof.
  intros H. unfold clamp01. apply Q.max_lub_lt; [reflexivity |].
  apply Q.min_lt_iff. by right.
Qed.

Lemma typewriter_progress_below (t d : Q) :
  t < d -> clamp01 (t / Qmax c0_01 d) < 1.
Proof.
  intros Ht. pose proof (guard_duration_pos d) as Hm.
  apply clamp01_below. apply Qlt_shift_div_r; [done |].
  rewrite Qmult_1_l. eapply Qlt_le_trans; [exact Ht | apply Q.le_max_r].
Qed.

(** Before the end of the clip fewer characters are requested than the
    text has, as soon as it has two. *)
Lemma typewriter_n_below (s : string) (t d : Q) :
  t < d -> (2 <= String.length s)%nat ->
  (1 <= typewriter_n s t d < Z.of_nat (String.length s))%Z.
Proof.
  intros Ht Hlen. rewrite typewriter_n_floor.
  pose proof (typewriter_progress_below t d Ht) as Hx.
  pose proof (clamp01_bounds (t / Qmax c0_01 d)) as [Hx0 _].
  set (x := clamp01 (t / Qmax c0_01 d)) in *. clearbody x.
  set (L := Z.of_nat (String.length s)).
  assert (2 <= L)%Z as HL by (unfold L; lia).
  assert (Qfloor (inject_Z L * x) < L)%Z as Hfl.
  { rewrite Zlt_Qlt. eapply Qle_lt_trans; [apply Qfloor_le |].
    assert (0 < inject_Z L) as HLq
      by (change 0 with (inject_Z 0); rewrite <- Zlt_Qlt; lia).
    set (l := inject_Z L) in *. clearbody l. nra. }
  lia.
Qed.

(** X7. The typewriter never finishes inside its clip.  At every local
    time before the end of the clip (t < dur, the times at which the clip
    is asked for a frame) the text shown is a prefix of the cleaned title,
    and it is the whole title only when the title has at most one
    character: the last character of a longer title is never drawn. *)
Theorem typewriter_incomplete_within_clip (text : string) (t d : Q) :
  t < d ->
  is_prefix_of (typewriter_shown text t d) (_safe_text text 160) /\
  (typewriter_shown text t d = _safe_text text 160 <->
   (String.length (_safe_text text 160) <= 1)%nat).
Proof.
  intros Ht. unfold typewriter_shown. set (s := _safe_text text 160).
  assert (1 <= typewriter_n s t d)%Z as Hn1
    by (rewrite typewriter_n_floor; lia).
  rewrite slice_to_nonneg by lia. split; [apply prefix_is_prefix |]. split.
  - intros Heq.
    destruct (decide (String.length s <= 1)%nat) as [| Hlong]; [done |].
    pose proof (typewriter_n_below s t d Ht ltac:(lia)) as [_ Hlt].
    pose proof (prefix_length (Z.to_nat (typewriter_n s t d)) s) as Hlen.
    rewrite Heq in Hlen. lia.
  - intros Hshort. apply prefix_all. lia.
Qed.

Lemma typewriter_incomplete_within_clip_witness :
  83 # 30 < 28 # 10 /\
  typewriter_shown "Test" (83 # 30) (28 # 10) = "Tes" /\
  typewriter_shown "Test" (83 # 30) (28 # 10) <> _safe_text "Test" 160.
Proof.
  assert (83 # 30 < 28 # 10) as H by (by vm_compute).
  split; [exact H |]. split; [by vm_compute |].
  destruct (typewriter_incomplete_within_clip "Test" (83 # 30) (28 # 10) H)
    as [_ [Hto _]].
  intros Heq. apply Hto in Heq. vm_compute in Heq. lia.
Defined.

(** ** The pulse as a function of the nearest beat *)

Lemma falloff_linear (d : Q) : falloff d == 1 - 10 * d.
Proof. unfold falloff, c0_10. field. Qed.

Lemma pulse_step_max (t p bt : Q) :
  0 <= p -> pulse_step t p bt == Qmax p (Qmax 0 (falloff (Qabs (t - bt)))).
Proof.
  intros Hp. pose proof (falloff_linear (Qabs (t - bt))) as Hf.
  pose proof (Q.max_spec 0 (falloff (Qabs (t - bt)))) as H1.
  pose proof (Q.max_spec p (Qmax 0 (falloff (Qabs (t - bt))))) as H2.
  destruct (Qlt_le_dec (Qabs (t - bt)) c0_10) as [Hn | Hfar].
  - rewrite pulse_step_near by done. fold (falloff (Qabs (t - bt))).
    rewrite py_max_Qmax.
    pose proof (Q.max_spec p (falloff (Qabs (t - bt)))) as H3.
    unfold c0_10 in Hn. lra.
  - rewrite pulse_step_far by done. unfold c0_10 in Hfar. lra.
Qed.

Lemma pulse_step_nonneg (t p bt : Q) : 0 <= p -> 0 <= pulse_step t p bt.
Proof.
  intros Hp. rewrite pulse_step_max by done.
  eapply Qle_trans; [exact Hp | apply Q.le_max_l].
Qed.

Lemma pulse_fold_nearest (t : Q) (rest : list Q) :
  forall bt p,
    0 <= p ->
    fold_left (pulse_step t) (bt :: rest) p
    == Qmax p (Qmax 0 (falloff (nearest_distance t bt rest))).
Proof.
  induction rest as [| bt' rest' IH]; intros bt p Hp.
  - simpl. by apply pulse_step_max.
  - change (fold_left (pulse_step t) (bt :: bt' :: rest') p)
      with (fold_left (pulse_step t) (bt' :: rest') (pulse_step t p bt)).
    rewrite IH by (by apply pulse_step_nonneg).
    pose proof (pulse_step_max t p bt Hp) as Hs.
    change (nearest_distance t bt (bt' :: rest'))
      with (Qmin (Qabs (t - bt)) (nearest_distance t bt' rest')).
    set (a := Qabs (t - bt)) in *.
    set (b := nearest_distance t bt' rest') in *.
    pose proof (falloff_linear a) as Hfa.
    pose proof (falloff_linear b) as Hfb.
    pose proof (falloff_linear (Qmin a b)) as Hfm.
    pose proof (Q.min_spec a b) as Hmin.
    pose proof (Q.max_spec 0 (falloff a)) as H1.
    pose proof (Q.max_spec 0 (falloff b)) as H2.
    pose proof (Q.max_spec 0 (falloff (Qmin a b))) as H3.
    pose proof (Q.max_spec p (Qmax 0 (falloff a))) as H4.
    pose proof (Q.max_spec (pulse_step t p bt) (Qmax 0 (falloff b))) as H5.
    pose proof (Q.max_spec p (Qmax 0 (falloff (Qmin a b)))) as H6.
    set (s := pulse_step t p bt) in *.
    set (fa := falloff a) in *. set (fb := falloff b) in *.
    set (m := Qmin a b) in *. set (fm := falloff m) in *.
    set (x1 := Qmax 0 fa) in *. set (x2 := Qmax 0 fb) in *.
    set (x3 := Qmax 0 fm) in *.
    set (y1 := Qmax p x1) in *. set (y2 := Qmax s x2) in *.
    set (y3 := Qmax p x3) in *.
    clearbody y1 y2 y3 x1 x2 x3 fm m fa fb s a b. clear IH.
    lra.
Qed.

(** X8. The pulse depends on the nearest beat only: for every non-empty
    list of beat times, whatever their order, the intensity at t is
    max(0, 1 - d / 0.10) where d is the distance from t to the nearest
    beat. *)
Theorem pulse_is_nearest_beat_falloff (times : list Q) (t : Q) :
  times <> [] ->
  exists d,
    nearest_beat t times = Some d /\
    pulse_value times t == Qmax 0 (falloff d).
Proof.
  intros Hne. destruct times as [| bt rest]; [done |].
  exists (nearest_distance t bt rest). split; [done |].
  unfold pulse_value. rewrite pulse_fold_nearest by lra.
  apply Q.max_r. apply Q.le_max_l.
Qed.

Lemma pulse_is_nearest_beat_falloff_witness :
  [3; 1; 2] <> [] /\ pulse_value [3; 1; 2] (21 # 20) == 1 # 2.
Proof.
  assert ([3; 1; 2] <> @nil Q) as Hne by discriminate.
  split; [exact Hne |].
  destruct (pulse_is_nearest_beat_falloff [3; 1; 2] (21 # 20) Hne)
    as (d & Hd & Hp).
  rewrite Hp. injection Hd as <-. by vm_compute.
Defined.

(** X9. The grey level of the pulse frame is a valid 8-bit value that stays
    dim: it lies between 0 and 89 at every time, for every list of beats,
    and is 89 on a beat. *)
Theorem pulse_grey_level_range (times : list Q) (t : Q) :
  (0 <= pulse_val times t <= 89)%Z /\
  (Exists (fun bt => t == bt) times -> pulse_val times t = 89%Z).
Proof.
  pose proof (pulse_value_bounds times t) as Hb.
  pose proof (pulse_alpha_peak _ Hb) as [Hle Hpeak].
  fold (pulse_alpha times t) in Hle, Hpeak.
  assert (0 <= pulse_alpha times t) as H0.
  { unfold pulse_alpha, c0_35.
    assert (0 <= pulse_value times t * pulse_value times t)
      by (apply Qmult_le_0_compat; lra).
    lra. }
  unfold pulse_val. rewrite py_int_floor by lra. split.
  - split.
    + change 0%Z with (Qfloor 0). apply Qfloor_resp_le. lra.
    + change 89%Z with (Qfloor (c0_35 * 255)). apply Qfloor_resp_le.
      unfold c0_35 in *. lra.
  - intros Hbeat. apply pulse_value_one in Hbeat. apply Hpeak in Hbeat.
    change 89%Z with (Qfloor (c0_35 * 255)). apply Qfloor_comp.
    by rewrite Hbeat.
Qed.

Lemma pulse_grey_level_range_witness :
  pulse_val [1; 2] 2 = 89%Z.
Proof.
  destruct (pulse_grey_level_range [1; 2] 2) as [_ H].
  apply H. right. left. reflexivity.
Defined.

(** ** The waveform bar *)

Lemma py_int_nonneg (q : Q) : 0 <= q -> (0 <= Py.int q)%Z.
Proof.
  intros H. rewrite py_int_floor by done.
  change 0%Z with (Qfloor 0). by apply Qfloor_resp_le.
Qed.

Lemma py_int_le_Z (q : Q) (z : Z) :
  0 <= q -> q <= inject_Z z -> (Py.int q <= z)%Z.
Proof.
  intros H0 H. rewrite py_int_floor by done.
  rewrite <- (Qfloor_Z z). by apply Qfloor_resp_le.
Qed.

Lemma waveform_filled_index (env : list Q) (size : Z * Z) (duration t : Q) :
  waveform_filled env size duration t
  = Py.int (inject_Z (scaled (fst size) (9 # 10))
            * nth (Z.to_nat (waveform_index env duration t)) env 0).
Proof. reflexivity. Qed.

(** X10. The waveform bar never reads outside the envelope and never
    overflows: for every envelope the analysis returns, every time t and
    every canvas of non-negative width, the index used lies inside the
    envelope and the lit width lies between 0 and the width of the bar. *)
Theorem waveform_bar_in_range (y env : list Q) (size : Z * Z)
    (duration t : Q) :
  loudness_envelope y = Ok env -> (0 <= fst size)%Z ->
  (0 <= waveform_index env duration t < Z.of_nat (length env))%Z /\
  (0 <= waveform_filled env size duration t
   <= scaled (fst size) (9 # 10))%Z.
Proof.
  intros Henv Hw.
  destruct (Nat.lt_ge_cases (length y) win) as [Hs | Hl].
  { rewrite loudness_envelope_short in Henv by done. done. }
  destruct (loudness_envelope_long y Hl) as (env' & H1 & Hn & Hunit & _).
  rewrite H1 in Henv. injection Henv as <-.
  assert (0 < length env')%nat as Hpos.
  { rewrite Hn. apply Nat.div_str_pos. split; [apply win_pos | done]. }
  assert (0 <= waveform_index env' duration t < Z.of_nat (length env'))%Z
    as Hidx by (unfold waveform_index, np_clip; lia).
  split; [exact Hidx |]. rewrite waveform_filled_index.
  set (v := nth (Z.to_nat (waveform_index env' duration t)) env' 0).
  assert (0 <= v <= 1) as Hv.
  { unfold v. apply (proj1 (List.Forall_nth _ _) Hunit). lia. }
  assert (0 <= scaled (fst size) (9 # 10))%Z as Hbar.
  { unfold scaled. apply py_int_nonneg.
    apply Qmult_le_0_compat; [| done].
    change 0 with (inject_Z 0). rewrite <- Zle_Qle. lia. }
  assert (0 <= inject_Z (scaled (fst size) (9 # 10))) as HbarQ.
  { change 0 with (inject_Z 0). by rewrite <- Zle_Qle. }
  split.
  - apply py_int_nonneg. apply Qmult_le_0_compat; [done | apply Hv].
  - apply py_int_le_Z; [apply Qmult_le_0_compat; [done | apply Hv] |].
    rewrite <- (Qmult_1_r (inject_Z (scaled (fst size) (9 # 10)))) at 2.
    rewrite !(Qmult_comm (inject_Z _)).
    apply Qmult_le_compat_r; [apply Hv | done].
Qed.

Lemma waveform_bar_in_range_witness :
  exists env,
    loudness_envelope (repeat (1 # 2) 882) = Ok env /\
    (0 <= fst DEFAULT_SIZE)%Z /\
    (0 <= waveform_index env 30 45 < Z.of_nat (length env))%Z.
Proof.
  assert (exists env, loudness_envelope (repeat (1 # 2) 882) = Ok env)
    as [env Henv].
  { destruct (loudness_envelope_long (repeat (1 # 2) 882)) as (e & He & _);
      [apply Nat.leb_le; by vm_compute | by exists e]. }
  assert (0 <= fst DEFAULT_SIZE)%Z as Hw by (by vm_compute).
  exists env. split; [exact Henv |]. split; [exact Hw |].
  by destruct (waveform_bar_in_range _ env DEFAULT_SIZE 30 45 Henv Hw).
Defined.

(** ** The layers of a render *)

Lemma story_key_segment (D : Q) (key : string) :
  0 <= D -> In key story_keys ->
  exists s e,
    dict_get (_segment_timeline D) key = Ok (s, e) /\
    0 <= s /\ e <= D /\ D * c0_10 <= e - s.
Proof.
  intros HD Hin. unfold story_keys in Hin. simpl in Hin.
  unfold dict_get, _segment_timeline, c0_10, c0_50, c0_20.
  destruct Hin as [<- | [<- | [<- | [<- | []]]]]; simplify_map_eq;
    eexists _, _; (split; [reflexivity |]); lra.
Qed.

Lemma image_text_clip_within (D : Q) (text : string) (size : Z * Z)
    (s e : Q) (fs : Z) :
  0 <= s -> e <= D -> c0_01 <= e - s ->
  within D (_image_text_clip text size s e fs).
Proof.
  intros Hs He Hlen. unfold within, _image_text_clip. cbn [c_start c_duration].
  split; [done |].
  destruct (py_max_spec c0_01 (e - s)) as [[_ ->] | [Hle ->]]; lra.
Qed.

Lemma add_text_at_within (D : Q) (size : Z * Z) (layers : list clip)
    (text : option string) (s e : Q) (fs : Z) :
  0 <= s -> e <= D -> c0_01 <= e - s ->
  Forall (within D) layers ->
  Forall (within D) (add_text_at size layers text s e fs).
Proof.
  intros Hs He Hlen Hl. unfold add_text_at. destruct text as [t |]; [| done].
  destruct (PyStr.is_empty t); [done |].
  apply Forall_app. split; [done |]. constructor; [| done].
  by apply image_text_clip_within.
Qed.

Lemma add_story_within (D : Q) (size : Z * Z)
    (story : gmap string (option string)) (key : string)
    (layers layers' : list clip) :
  1 # 10 <= D -> In key story_keys ->
  Forall (within D) layers ->
  add_story size story (_segment_timeline D) key layers = Ok layers' ->
  Forall (within D) layers'.
Proof.
  intros HD Hin Hl. unfold add_story.
  destruct (story !! key) as [text |]; [| by intros [= <-]].
  destruct (story_key_segment D key) as (s & e & -> & Hs & He & Hlen);
    [lra | done |].
  cbn [bind fst snd]. intros [= <-].
  apply add_text_at_within; try done. unfold c0_10, c0_01 in *. lra.
Qed.

Lemma add_title_within (D : Q) (size : Z * Z) (layers : list clip)
    (c : concept) :
  1 # 100 <= D -> Forall (within D) layers ->
  Forall (within D) (add_title size layers c D).
Proof.
  intros HD Hl. unfold add_title.
  assert (c0_01 <= Py.min (28 # 10) D /\ Py.min (28 # 10) D <= D) as [H1 H2].
  { unfold c0_01.
    destruct (py_min_spec (28 # 10) D) as [[? ->] | [? ->]]; lra. }
  destruct (negb _).
  - apply Forall_app. split; [done |]. constructor; [| done].
    unfold within, _typewriter_clip. cbn [c_start c_duration]. lra.
  - apply add_text_at_within; try done; lra.
Qed.

Lemma karaoke_clips_within (tr : string) (size : Z * Z) (D : Q) :
  0 < D -> Forall (within D) (_karaoke_clips tr size D).
Proof.
  intros HD. unfold _karaoke_clips.
  destruct (PyStr.is_empty (_safe_text tr 400)); [done |].
  set (parts := karaoke_parts (_safe_text tr 400)).
  set (per := D / inject_Z (Z.of_nat (length parts))).
  assert (0 < length parts)%nat as Hpos.
  { pose proof (karaoke_parts_nonempty (_safe_text tr 400)) as H.
    fold parts in H. destruct parts; [done | simpl; lia]. }
  pose proof (Qnat_pos _ Hpos) as Hn.
  assert (0 < per) as Hper
    by (unfold per; apply Qlt_shift_div_l; [done | lra]).
  assert (inject_Z (Z.of_nat (length parts)) * per == D) as Hfull
    by (unfold per; field; lra).
  apply Forall_lookup. intros k c Hk.
  destruct (karaoke_loop_slices size D per parts (Qlt_le_weak _ _ Hper)
              0 k c) as [Hs (d & Hd & Hdp)]; [lra | exact Hk |].
  assert (k < length parts)%nat as Hklt.
  { rewrite <- (karaoke_loop_length size D per 0 parts).
    by eapply lookup_lt_Some. }
  assert (inject_Z (Z.of_nat (S k)) <= inject_Z (Z.of_nat (length parts)))
    as Hkn by (rewrite <- Zle_Qle; lia).
  rewrite Qnat_S in Hkn.
  assert ((inject_Z (Z.of_nat k) + 1) * per
          <= inject_Z (Z.of_nat (length parts)) * per) as Hmul
    by (apply Qmult_le_compat_r; lra).
  pose proof (Qnat_nonneg k) as Hk0.
  assert (0 <= inject_Z (Z.of_nat k) * per)
    by (apply Qmult_le_0_compat; lra).
  unfold within. rewrite Hd. split; lra.
Qed.

(** X11. Nothing is scheduled outside the video: in every completed render
    whose audio reports at least 0.1 s, every layer starts at 0 or later
    and, if it has a duration, ends no later than the video. *)
Theorem render_layers_within_duration (c : concept) (reported : Q)
    (bo : result (list Q)) (samples : list Q) (size : Z * Z) (wow : bool)
    (tr : string) (v : video) :
  1 # 10 <= reported ->
  render_tiktok_reel c true reported bo samples size wow tr = Ok v ->
  v_duration v = reported /\ Forall (within reported) (v_layers v).
Proof.
  intros HD Hv. destruct (render_layers_split _ _ _ _ _ _ _ _ Hv)
    as (Hd & pre & post & Hpre & Hpost & ->).
  rewrite effective_duration_positive in Hd by lra.
  rewrite Hd in *. split; [done |]. clear Hv Hd.
  assert (Forall (within reported)
            [_generate_dynamic_bg size reported;
             pulse_layer size (try_except bo []) reported]) as H0.
  { constructor; [unfold within; simpl; lra |]. constructor; [| done].
    unfold pulse_layer. destruct (try_except bo []); unfold within; simpl;
      [lra | lra]. }
  apply Forall_app. split; [| apply Forall_app; split].
  - unfold base_layers in Hpre.
    pose proof (add_title_within reported size _ c ltac:(lra) H0) as H1.
    destruct (add_story size _ _ "hook_moment" _) as [l1 |] eqn:E1;
      [| done]. cbn [bind] in Hpre.
    destruct (add_story size _ _ "development" _) as [l2 |] eqn:E2;
      [| done]. cbn [bind] in Hpre.
    destruct (add_story size _ _ "climax" _) as [l3 |] eqn:E3;
      [| done]. cbn [bind] in Hpre.
    eapply add_story_within in E1; [| done | simpl; tauto | exact H1].
    eapply add_story_within in E2; [| done | simpl; tauto | exact E1].
    eapply add_story_within in E3; [| done | simpl; tauto | exact E2].
    eapply add_story_within in Hpre; [done | done | simpl; tauto | exact E3].
  - unfold hashtag_layers. destruct (default [] (hashtags c)); [done |].
    constructor; [| done]. unfold within. simpl. lra.
  - unfold wow_layers in Hpost. destruct wow; [| by injection Hpost as <-].
    destruct (_waveform_overlay size samples reported) as [wave |] eqn:Ew;
      [| done]. cbn [bind] in Hpost. injection Hpost as <-.
    constructor; [| apply karaoke_clips_within; lra].
    unfold _waveform_overlay in Ew.
    destruct (loudness_envelope samples); [| done].
    cbn [bind] in Ew. injection Ew as <-. unfold within. simpl. lra.
Qed.

Lemma render_layers_within_duration_witness :
  1 # 10 <= 12 /\
  exists v,
    render_tiktok_reel
      {| concept_title := Some "Test";
         story_structure := Some {[ "climax" := Some "Now" ]};
         hashtags := Some ["a"] |}
      true 12 (Ok [1; 2]) [] DEFAULT_SIZE false "" = Ok v /\
    Forall (within 12) (v_layers v).
Proof.
  assert (1 # 10 <= 12) as H by (by vm_compute).
  split; [exact H |].
  assert (exists v,
            render_tiktok_reel
              {| concept_title := Some "Test";
                 story_structure := Some {[ "climax" := Some "Now" ]};
                 hashtags := Some ["a"] |}
              true 12 (Ok [1; 2]) [] DEFAULT_SIZE false "" = Ok v)
    as [v Hv] by (eexists; vm_compute; reflexivity).
  exists v. split; [exact Hv |].
  by destruct (render_layers_within_duration _ _ _ _ _ _ _ _ H Hv).
Defined.

Lemma add_text_at_grows (size : Z * Z) (layers : list clip)
    (text : option string) (s e : Q) (fs : Z) :
  exists more,
    add_text_at size layers text s e fs = (layers ++ more)%list /\
    (length more <= 1)%nat.
Proof.
  unfold add_text_at. destruct text as [t |].
  - destruct (PyStr.is_empty t).
    + exists []. split; [by rewrite app_nil_r | simpl; lia].
    + eexists. split; [reflexivity | simpl; lia].
  - exists []. split; [by rewrite app_nil_r | simpl; lia].
Qed.

Lemma add_story_grows (size : Z * Z) (story : gmap string (option string))
    (D : Q) (key : string) (layers layers' : list clip) :
  add_story size story (_segment_timeline D) key layers = Ok layers' ->
  exists more, layers' = (layers ++ more)%list /\ (length more <= 1)%nat.
Proof.
  unfold add_story. destruct (story !! key) as [text |].
  - destruct (dict_get _ key) as [seg |]; [| done]. cbn [bind].
    intros [= <-]. apply add_text_at_grows.
  - intros [= <-]. exists []. split; [by rewrite app_nil_r | simpl; lia].
Qed.

Lemma add_title_one (size : Z * Z) (layers : list clip) (c : concept)
    (D : Q) :
  exists title,
    add_title size layers c D = (layers ++ [title])%list /\
    c_start title = 0 /\
    (c_duration title = Some (Py.min (28 # 10) D) \/
     c_duration title = Some (Py.max c0_01 (Py.min (28 # 10) D - 0))).
Proof.
  unfold add_title. destruct (negb _).
  - eexists. split; [reflexivity |]. split; [done | by left].
  - eexists. split; [reflexivity |]. split; [done | by right].
Qed.

(** X12. The fixed frame of every render: a completed render has a positive
    duration and its layers begin with the background, then the pulse, then
    exactly one title clip that starts at 0; with the enhanced effects off
    there are at most five more layers (four story texts and the hashtag
    strip), so between 3 and 8 in all. *)
Theorem render_layer_frame (c : concept) (reported : Q)
    (bo : result (list Q)) (samples : list Q) (size : Z * Z) (wow : bool)
    (tr : string) (v : video) :
  render_tiktok_reel c true reported bo samples size wow tr = Ok v ->
  0 < v_duration v /\
  exists title rest,
    v_layers v
    = (_generate_dynamic_bg size (v_duration v)
       :: pulse_layer size (try_except bo []) (v_duration v)
       :: title :: rest)%list /\
    c_start title = 0 /\
    (wow = false -> (length rest <= 5)%nat).
Proof.
  intros Hv. destruct (render_layers_split _ _ _ _ _ _ _ _ Hv)
    as (Hd & pre & post & Hpre & Hpost & ->).
  split.
  { rewrite Hd. destruct (Qlt_le_dec 0 reported) as [Hp | Hn].
    - by rewrite effective_duration_positive.
    - by rewrite effective_duration_default. }
  set (D := v_duration v) in *. clearbody D. clear Hv Hd.
  unfold base_layers in Hpre.
  destruct (add_title_one size
              [_generate_dynamic_bg size D;
               pulse_layer size (try_except bo []) D] c D)
    as (title & Ht & Hs & _).
  rewrite Ht in Hpre.
  destruct (add_story size _ _ "hook_moment" _) as [l1 |] eqn:E1; [| done].
  cbn [bind] in Hpre.
  destruct (add_story size _ _ "development" _) as [l2 |] eqn:E2; [| done].
  cbn [bind] in Hpre.
  destruct (add_story size _ _ "climax" _) as [l3 |] eqn:E3; [| done].
  cbn [bind] in Hpre.
  apply add_story_grows in E1 as (m1 & -> & Hm1).
  apply add_story_grows in E2 as (m2 & -> & Hm2).
  apply add_story_grows in E3 as (m3 & -> & Hm3).
  apply add_story_grows in Hpre as (m4 & -> & Hm4).
  exists title, (m1 ++ m2 ++ m3 ++ m4 ++ hashtag_layers size c D ++ post)%list.
  split; [by rewrite <- !app_assoc |]. split; [exact Hs |].
  intros ->. cbn [wow_layers] in Hpost. injection Hpost as <-.
  rewrite !length_app.
  assert (length (hashtag_layers size c D) <= 1)%nat
    by (unfold hashtag_layers; destruct (default [] (hashtags c));
        simpl; lia).
  simpl. lia.
Qed.

Lemma render_layer_frame_witness :
  exists v,
    render_tiktok_reel
      {| concept_title := None; story_structure := None; hashtags := None |}
      true 12 (Ok [1; 2]) [] DEFAULT_SIZE false "" = Ok v /\
    0 < v_duration v.
Proof.
  assert (exists v,
            render_tiktok_reel
              {| concept_title := None; story_structure := None;
                 hashtags := None |}
              true 12 (Ok [1; 2]) [] DEFAULT_SIZE false "" = Ok v)
    as [v Hv] by (eexists; vm_compute; reflexivity).
  exists v. split; [exact Hv |].
  by destruct (render_layer_frame _ _ _ _ _ _ _ _ Hv).
Defined.

(** X13. Only four story beats are ever shown: a render depends on the
    story dict through the keys hook_moment, development, climax and
    closing alone.  Changing, adding or removing any other entry, the intro
    text included, gives the same result. *)
Theorem render_reads_four_story_keys (c : concept)
    (story : gmap string (option string)) (reported : Q)
    (bo : result (list Q)) (samples : list Q) (size : Z * Z) (wow : bool)
    (tr : string) (exists_ : bool) :
  (forall key, In key story_keys ->
               story !! key = default ∅ (story_structure c) !! key) ->
  render_tiktok_reel (with_story c story) exists_ reported bo samples size
    wow tr
  = render_tiktok_reel c exists_ reported bo samples size wow tr.
Proof.
  intros Hkeys. unfold render_tiktok_reel. destruct (negb exists_); [done |].
  assert (forall D, base_layers (with_story c story) bo size D
                    = base_layers c bo size D) as Hbase.
  { intros D. unfold base_layers, add_story.
    cbn [with_story story_structure default from_option].
    fold (add_title size
            [_generate_dynamic_bg size D;
             pulse_layer size (try_except bo []) D] c D).
    replace (add_title size _ (with_story c story) D)
      with (add_title size
              [_generate_dynamic_bg size D;
               pulse_layer size (try_except bo []) D] c D) by done.
    rewrite !Hkeys by (simpl; tauto). done. }
  by rewrite Hbase.
Qed.

Lemma render_reads_four_story_keys_witness :
  let c := {| concept_title := Some "Test";
              story_structure := Some {[ "climax" := Some "Now" ]};
              hashtags := None |} in
  render_tiktok_reel
    (with_story c (<["intro" := Some "Never shown"]>
                     {[ "climax" := Some "Now" ]}))
    true 12 (Ok []) [] DEFAULT_SIZE false ""
  = render_tiktok_reel c true 12 (Ok []) [] DEFAULT_SIZE false "".
Proof.
  intros c. apply render_reads_four_story_keys.
  intros key Hin. unfold story_keys in Hin. simpl in Hin.
  destruct Hin as [<- | [<- | [<- | [<- | []]]]]; by vm_compute.
Defined.

(** X14. What a completed render required.  A missing audio file always
    gives FileNotFoundError, whatever the other inputs.  Every render that
    completes had an existing audio file and, with the enhanced effects
    on, audio of at least one analysis window of 441 samples: with the
    effects on, a shorter audio never gives a video. *)
Theorem render_completion_requirements (c : concept) (reported : Q)
    (bo : result (list Q)) (samples : list Q) (size : Z * Z) (tr : string) :
  (forall wow, render_tiktok_reel c false reported bo samples size wow tr
               = Raise FileNotFoundError) /\
  (forall audio_exists wow v,
     render_tiktok_reel c audio_exists reported bo samples size wow tr
     = Ok v ->
     audio_exists = true /\
     (wow = true -> (win <= length samples)%nat)).
Proof.
  split; [done |]. intros audio_exists wow v Hv.
  destruct audio_exists; [| done]. split; [done |]. intros ->.
  destruct (decide (win <= length samples)%nat) as [| Hshort]; [done |].
  exfalso. revert Hv. unfold render_tiktok_reel. cbn [negb].
  destruct (base_layers_ok c bo size (effective_duration reported))
    as [more ->]. cbn [bind wow_layers]. unfold _waveform_overlay.
  by rewrite loudness_envelope_short by lia.
Qed.

Lemma render_completion_requirements_witness :
  let samples : list Q := repeat 0 441 in
  let c := {| concept_title := None; story_structure := None;
              hashtags := None |} in
  exists v,
    render_tiktok_reel c true 12 (Ok []) samples DEFAULT_SIZE true "" = Ok v /\
    (win <= length samples)%nat.
Proof.
  intros samples c.
  assert (exists v, render_tiktok_reel c true 12 (Ok []) samples DEFAULT_SIZE
                      true "" = Ok v) as [v Hv]
    by (eexists; vm_compute; reflexivity).
  exists v. split; [exact Hv |].
  destruct (render_completion_requirements c 12 (Ok []) samples DEFAULT_SIZE "")
    as [_ Hreq].
  destruct (Hreq true true v Hv) as [_ Hwin]. by apply Hwin.
Defined.

(** ** The hashtag strip as drawn *)

Lemma hashtag_text_head (h : string) (tags : list string) :
  hashtag_text (h :: tags) <> "" /\
  head_not_space (hashtag_text (h :: tags)) = true.
Proof.
  unfold hashtag_text. cbn [take map]. unfold hashtag_token at 1.
  by destruct (map hashtag_token (take 4 tags)).
Qed.

Lemma clean_text_unchanged (x : string) :
  count_char newline x = 0%nat -> head_not_space x = true ->
  PyStr.rstrip x = x ->
  PyStr.strip (PyStr.replace newline blank x) = x.
Proof.
  intros Hnl Hh Hr. rewrite replace_absent by done.
  unfold PyStr.strip. by rewrite lstrip_id.
Qed.

(** C10, as the code has it.  In every render that completes, the layers
    are those of the same concept without hashtags with the hashtag block
    inserted at one place.  For an empty or missing hashtag list the block
    is empty.  For a non-empty list it is exactly one still clip that
    starts at 0 and lasts the duration of the video.  The text built for it
    is made of the first five hashtags, each as one hash sign followed by
    the tag without its leading hash signs, joined by two spaces; the clip
    draws that text cleaned by [_safe_text] with the limit 220: when the
    cleaned text has at most 220 characters it is drawn whole, and it is
    the built text itself when that holds no line break and no whitespace
    at its end; a longer one is cut to its first 217 characters followed
    by three dots, so that the later hashtags are cut or missing. *)
Theorem hashtag_strip_layer (c : concept) (reported : Q)
    (bo : result (list Q)) (samples : list Q) (size : Z * Z) (wow : bool)
    (tr : string) (v : video) :
  render_tiktok_reel c true reported bo samples size wow tr = Ok v ->
  exists v0 pre post,
    render_tiktok_reel (without_hashtags c) true reported bo samples size
      wow tr = Ok v0 /\
    v_duration v0 = v_duration v /\
    v_layers v0 = (pre ++ post)%list /\
    v_layers v = (pre ++ hashtag_layers size c (v_duration v) ++ post)%list /\
    match default [] (hashtags c) with
    | [] => hashtag_layers size c (v_duration v) = []
    | tags =>
        let cleaned :=
          PyStr.strip (PyStr.replace newline blank (hashtag_text tags)) in
        exists strip,
          hashtag_layers size c (v_duration v) = [strip] /\
          c_start strip = 0 /\
          c_duration strip = Some (v_duration v) /\
          hashtag_text tags
          = PyStr.join "  " (map hashtag_token (take 5 tags)) /\
          hashtag_text tags = hashtag_text (take 5 tags) /\
          Forall (fun h => token_of h (hashtag_token h)) (take 5 tags) /\
          clip_text strip = Some (_safe_text (hashtag_text tags) 220) /\
          ((String.length cleaned <= 220)%nat ->
           clip_text strip = Some cleaned) /\
          ((220 < String.length cleaned)%nat ->
           clip_text strip = Some (PyStr.prefix 217 cleaned +:+ "...") /\
           String.length (PyStr.prefix 217 cleaned +:+ "...") = 220%nat) /\
          (count_char newline (hashtag_text tags) = 0%nat ->
           PyStr.rstrip (hashtag_text tags) = hashtag_text tags ->
           cleaned = hashtag_text tags)
    end.
Proof.
  intros Hv. destruct (render_layers_split _ _ _ _ _ _ _ _ Hv)
    as (Hd & pre & post & Hpre & Hpost & Hl).
  exists {| v_layers := (pre ++ post)%list; v_size := size;
            v_duration := v_duration v |}, pre, post.
  split; [| split; [done | split; [done | split; [exact Hl |]]]].
  - unfold render_tiktok_reel. cbn [negb]. rewrite <- Hd.
    rewrite base_layers_without, Hpre. cbn [bind].
    rewrite hashtag_layers_without, Hpost. cbn [bind].
    by rewrite app_nil_r.
  - unfold hashtag_layers.
    destruct (default [] (hashtags c)) as [| h tags]; [done |]. cbv zeta.
    destruct (hashtag_text_head h tags) as [Hne Hhead].
    set (x := hashtag_text (h :: tags)) in *.
    eexists. split; [reflexivity |].
    split; [done |]. split; [done |]. split; [done |].
    split; [apply hashtag_text_first_five |].
    split; [apply Forall_forall; intros y _; apply hashtag_token_ok |].
    split; [done |].
    unfold clip_text. cbn [c_source _render_text_image ti_text].
    destruct (safe_text_cases x 220)
      as [[_ H0] | [(_ & Hlen & ->) | (_ & Hlen & ->)]]; [done | |].
    + split; [done |]. split; [cbv zeta in Hlen; lia |].
      intros Hnl Hr. by apply clean_text_unchanged.
    + cbv zeta in Hlen. split; [lia |]. split.
      * intros _. rewrite slice_to_nonneg by lia.
        change (Z.to_nat (220 - 3)) with 217%nat. split; [done |].
        rewrite length_append, prefix_length.
        change (String.length "...") with 3%nat. lia.
      * intros Hnl Hr. by apply clean_text_unchanged.
Qed.

Lemma hashtag_strip_layer_witness :
  let c := {| concept_title := Some "Test"; story_structure := None;
              hashtags := Some ["##a"; "b"; "#c"; "d"; "e"; "f"] |} in
  exists v,
    render_tiktok_reel c true 12 (Ok []) [] DEFAULT_SIZE false "" = Ok v /\
    exists strip,
      hashtag_layers DEFAULT_SIZE c (v_duration v) = [strip] /\
      clip_text strip = Some "#a  #b  #c  #d  #e".
Proof.
  intros c.
  assert (exists v, render_tiktok_reel c true 12 (Ok []) [] DEFAULT_SIZE
                      false "" = Ok v) as [v Hv] by (eexists; reflexivity).
  exists v. split; [exact Hv |].
  destruct (hashtag_strip_layer c 12 (Ok []) [] DEFAULT_SIZE false "" v Hv)
    as (v0 & pre & post & _ & _ & _ & _ & Hm).
  cbn [c hashtags default from_option] in Hm. cbv zeta in Hm.
  destruct Hm as (strip & Hs & _ & _ & _ & _ & _ & _ & Hshort & _).
  exists strip. split; [exact Hs |].
  rewrite Hshort; [by vm_compute |]. apply Nat.leb_le. by vm_compute.
Defined.

(** C10 as stated fails when the strip text is long.  With five hashtags
    of 60 characters the text built has 313 characters and five hash
    signs; the layer draws 220 characters with four hash signs: the fourth
    hashtag is cut after 27 characters and the fifth is not drawn. *)
Lemma hashtag_strip_cut_at_220 :
  let tags := ["aaaaaaaaaaaaaaaaaaaaaaaaaaaaaaaaaaaaaaaaaaaaaaaaaaaaaaaaaaaa"; "bbbbbbbbbbbbbbbbbbbbbbbbbbbbbbbbbbbbbbbbbbbbbbbbbbbbbbbbbbbb"; "cccccccccccccccccccccccccccccccccccccccccccccccccccccccccccc"; "dddddddddddddddddddddddddddddddddddddddddddddddddddddddddddd"; "eeeeeeeeeeeeeeeeeeeeeeeeeeeeeeeeeeeeeeeeeeeeeeeeeeeeeeeeeeee"] in
  let c := {| concept_title := None; story_structure := None;
              hashtags := Some tags |} in
  String.length (hashtag_text tags) = 313%nat /\
  count_char hash (hashtag_text tags) = 5%nat /\
  exists v strip drawn,
    render_tiktok_reel c true 12 (Ok []) [] DEFAULT_SIZE false "" = Ok v /\
    hashtag_layers DEFAULT_SIZE c (v_duration v) = [strip] /\
    clip_text strip = Some drawn /\
    String.length drawn = 220%nat /\
    count_char hash drawn = 4%nat /\
    count_char "d" drawn = 27%nat /\
    count_char "e" drawn = 0%nat /\
    drawn <> hashtag_text tags.
Proof.
  intros tags c. split; [by vm_compute |]. split; [by vm_compute |].
  eexists. eexists. eexists.
  split; [by vm_compute |]. split; [by vm_compute |].
  split; [by vm_compute |]. split; [by vm_compute |].
  split; [by vm_compute |]. split; [by vm_compute |].
  split; [by vm_compute |]. by vm_compute.
Qed.

(** * Properties of the music analyzer *)

(** ** The sentiment label *)

(** X15. The sentiment label is symmetric and monotone in the polarity:
    the label of -p is the opposite of the label of p, a larger polarity
    never gets a lower label, and the label is Neutral exactly for
    polarities from -0.05 to 0.05, both ends included. *)
Theorem sentiment_label_symmetric_monotone (p q : Q) :
  sentiment_label (- p) = opposite_label (sentiment_label p) /\
  (p <= q ->
   (label_rank (sentiment_label p) <= label_rank (sentiment_label q))%Z) /\
  (sentiment_label p = "Neutral" <-> - (5 # 100) <= p <= 5 # 100).
Proof.
  unfold sentiment_label, Py.ltb.
  destruct (Qlt_le_dec (2 # 10) p), (Qlt_le_dec (5 # 100) p),
    (Qlt_le_dec p (- (2 # 10))), (Qlt_le_dec p (- (5 # 100)));
    try (exfalso; lra);
    (split; [| split]).
  all: try (split; [intros H; try discriminate H; lra | intros H; try lra; done]).
  all: try (destruct (Qlt_le_dec (2 # 10) (- p)), (Qlt_le_dec (5 # 100) (- p)),
            (Qlt_le_dec (- p) (- (2 # 10))), (Qlt_le_dec (- p) (- (5 # 100)));
            try (exfalso; lra); reflexivity).
  all: intros Hpq;
    destruct (Qlt_le_dec (2 # 10) q), (Qlt_le_dec (5 # 100) q),
      (Qlt_le_dec q (- (2 # 10))), (Qlt_le_dec q (- (5 # 100)));
    try (exfalso; lra); by vm_compute.
Qed.

(** ** Substrings *)

Lemma starts_with_spec (p s : string) :
  starts_with p s = true <-> exists rest, s = p +:+ rest.
Proof.
  revert s. induction p as [| a p IH]; intros s.
  - split; [intros _; by exists s | done].
  - destruct s as [| b s]; simpl.
    + split; [done | by intros [rest Hrest]].
    + rewrite andb_true_iff, IH. split.
      * intros [Hab [rest ->]]. apply Ascii.eqb_eq in Hab as ->.
        by exists rest.
      * intros [rest Hrest]. rewrite append_cons in Hrest.
        injection Hrest as -> ->. split; [apply Ascii.eqb_refl | by exists rest].
Qed.

Lemma contains_spec (needle hay : string) :
  contains needle hay = true <-> is_substring needle hay.
Proof.
  induction hay as [| c hay IH].
  - simpl. rewrite orb_false_r, starts_with_spec. split.
    + intros [rest Hr]. by exists "", rest.
    + intros (before & after & H). destruct before; [by exists after | done].
  - cbn [contains]. rewrite orb_true_iff, IH, starts_with_spec. split.
    + intros [[rest ->] | (before & after & ->)].
      * by exists "", rest.
      * by exists (String c before), after.
    + intros (before & after & H). destruct before as [| b before].
      * left. by exists after.
      * right. rewrite append_cons in H. injection H as -> ->.
        by exists before, after.
Qed.

Lemma is_substring_trans (a b c : string) :
  is_substring a b -> is_substring b c -> is_substring a c.
Proof.
  intros (b1 & b2 & ->) (c1 & c2 & ->).
  exists (c1 +:+ b1), (b2 +:+ c2). by rewrite !append_assoc.
Qed.

(** ** The keyword scores *)

Lemma hits_cons (text keyword : string) (keywords : list string) :
  hits text (keyword :: keywords)
  = ((if contains keyword text then 1 else 0) + hits text keywords)%Z.
Proof.
  unfold hits. rewrite filter_cons.
  destruct (contains keyword text); case_decide; try done; simpl; lia.
Qed.

Lemma hits_range (text : string) (keywords : list string) :
  (0 <= hits text keywords <= Z.of_nat (length keywords))%Z.
Proof.
  unfold hits. pose proof (length_filter
    (fun keyword => contains keyword text = true) keywords). lia.
Qed.

Lemma hits_mono (text text' : string) (keywords : list string) :
  is_substring text text' ->
  (hits text keywords <= hits text' keywords)%Z.
Proof.
  intros Hsub. induction keywords as [| k ks IH]; [done |].
  rewrite !hits_cons.
  destruct (contains k text) eqn:Hk; [| destruct (contains k text'); lia].
  apply contains_spec in Hk.
  pose proof (is_substring_trans _ _ _ Hk Hsub) as Hk'.
  apply contains_spec in Hk'. rewrite Hk'. lia.
Qed.

Lemma score_keywords_lookup (text name : string) (keywords : list string)
    (scores : gmap string Z) (key : string) :
  score_keywords text name keywords scores !! key
  = if decide (name = key)
    then (fun v => (v + hits text keywords)%Z) <$> scores !! key
    else scores !! key.
Proof.
  unfold score_keywords. destruct (decide (name = key)) as [<- | Hne];
    revert scores; induction keywords as [| k ks IH]; intros scores; simpl.
  - unfold hits. simpl.
    destruct (scores !! name) as [v |]; [| done]. simpl. f_equal; lia.
  - rewrite IH, hits_cons. unfold bump. destruct (contains k text).
    + rewrite lookup_alter_eq.
      destruct (scores !! name) as [v |]; [| done]. simpl. f_equal; lia.
    + destruct (scores !! name) as [v |]; [| done]. simpl. f_equal; lia.
  - done.
  - rewrite IH. unfold bump. destruct (contains k text); [| done].
    by rewrite lookup_alter_ne.
Qed.

Lemma zero_scores_lookup (table : list (string * list string)) (key : string) :
  zero_scores table !! key
  = if decide (key ∈ table.*1) then Some 0%Z else None.
Proof.
  induction table as [| [name kws] table IH].
  - unfold zero_scores. cbn [foldr]. rewrite lookup_empty. destruct (decide _) as [H |]; [| done].
    by apply elem_of_nil in H.
  - change (zero_scores ((name, kws) :: table))
      with (<[name := 0%Z]> (zero_scores table)).
    change (((name, kws) :: table).*1) with (name :: table.*1).
    rewrite lookup_insert. destruct (decide (name = key)) as [-> | Hn].
    + destruct (decide (key ∈ key :: table.*1)) as [_ | H]; [done |].
      exfalso. apply H. by left.
    + rewrite IH.
      destruct (decide (key ∈ table.*1)) as [H1 | H1];
        destruct (decide (key ∈ name :: table.*1)) as [H2 | H2]; try done.
      * exfalso. apply H2. by right.
      * exfalso. apply elem_of_cons in H2 as [-> | H2]; [by apply Hn | done].
Qed.

Lemma table_fold_other (text : string) (table : list (string * list string))
    (scores : gmap string Z) (key : string) :
  key ∉ table.*1 ->
  fold_left (fun d entry => score_keywords text entry.1 entry.2 d)
            table scores !! key
  = scores !! key.
Proof.
  revert scores. induction table as [| [name kws] table IH];
    intros scores Hnot; [done |].
  cbn [fold_left fst snd]. rewrite IH.
  - rewrite score_keywords_lookup.
    destruct (decide (name = key)) as [-> | _]; [| done].
    exfalso. apply Hnot. by left.
  - intros Hin. apply Hnot. by right.
Qed.

Lemma table_fold_entry (text : string) (table : list (string * list string))
    (scores : gmap string Z) (key : string) (kws : list string) :
  NoDup table.*1 -> (key, kws) ∈ table ->
  fold_left (fun d entry => score_keywords text entry.1 entry.2 d)
            table scores !! key
  = (fun v => (v + hits text kws)%Z) <$> scores !! key.
Proof.
  revert scores. induction table as [| [name k] table IH];
    intros scores Hnd Hin; [by apply elem_of_nil in Hin |].
  change (((name, k) :: table).*1) with (name :: table.*1) in Hnd.
  apply NoDup_cons in Hnd as [Hnotin Hnd]. cbn [fold_left fst snd].
  apply elem_of_cons in Hin as [[= -> ->] | Hin].
  - rewrite table_fold_other by done. rewrite score_keywords_lookup.
    by destruct (decide (name = name)).
  - rewrite IH by done. rewrite score_keywords_lookup.
    destruct (decide (name = key)) as [-> | _]; [| done].
    exfalso. apply Hnotin. apply list_elem_of_fmap. by exists (key, kws).
Qed.

(** The result as a lookup table: a name is listed with the number of its
    keywords found, and only when that number is positive. *)
Lemma keyword_scores_lookup (table : list (string * list string))
    (text name : string) (n : Z) :
  NoDup table.*1 ->
  keyword_scores table text !! name = Some n <->
  exists kws, (name, kws) ∈ table /\ n = hits text kws /\ (0 < n)%Z.
Proof.
  intros Hnd. unfold keyword_scores.
  rewrite map_lookup_filter_Some. cbn [snd]. split.
  - intros [Hl Hpos]. destruct (decide (name ∈ table.*1)) as [Hin | Hnot].
    + apply list_elem_of_fmap in Hin as ([n' kws] & -> & Hin). simpl in *.
      rewrite (table_fold_entry text table _ n' kws Hnd Hin) in Hl.
      rewrite zero_scores_lookup in Hl.
      destruct (decide (n' ∈ table.*1)) as [_ | Hno]; [| done].
      simpl in Hl. injection Hl as <-. exists kws.
      split; [done |]. split; lia.
    + rewrite table_fold_other, zero_scores_lookup in Hl by done.
      by destruct (decide (name ∈ table.*1)).
  - intros (kws & Hin & -> & Hpos). split; [| done].
    rewrite (table_fold_entry text table _ name kws Hnd Hin).
    rewrite zero_scores_lookup.
    destruct (decide (name ∈ table.*1)) as [_ | Hno]; [simpl; f_equal; lia |].
    exfalso. apply Hno. apply list_elem_of_fmap. by exists (name, kws).
Qed.

Lemma emotion_names_nodup : NoDup emotion_keywords.*1.
Proof. apply NoDup_ListNoDup. by vm_compute; repeat constructor; simpl;
  intuition discriminate. Qed.

Lemma theme_names_nodup : NoDup theme_keywords.*1.
Proof. apply NoDup_ListNoDup. by vm_compute; repeat constructor; simpl;
  intuition discriminate. Qed.

Lemma table_hits_bound (table : list (string * list string))
    (text name : string) (kws : list string) (bound : nat) :
  Forall (fun entry => (length entry.2 <= bound)%nat) table ->
  (name, kws) ∈ table -> (hits text kws <= Z.of_nat bound)%Z.
Proof.
  intros Hall Hin. rewrite Forall_forall in Hall.
  specialize (Hall _ Hin). simpl in Hall.
  pose proof (hits_range text kws). lia.
Qed.

(** X16. What [_analyze_music_emotions] returns: an emotion is listed
    exactly when at least one of its keywords occurs in the text as a
    substring, and its score is the number of its keywords that occur; so
    every score lies between 1 and 6, no entry is ever 0, and the empty text
    gives the empty dict. *)
Theorem emotion_scores_count_keywords (text : string) :
  (forall name n,
     _analyze_music_emotions text !! name = Some n <->
     exists kws,
       (name, kws) ∈ emotion_keywords /\ n = hits text kws /\ (0 < n)%Z) /\
  (forall name n,
     _analyze_music_emotions text !! name = Some n -> (1 <= n <= 6)%Z) /\
  _analyze_music_emotions "" = ∅.
Proof.
  assert (forall name n,
            _analyze_music_emotions text !! name = Some n <->
            exists kws,
              (name, kws) ∈ emotion_keywords /\ n = hits text kws /\
              (0 < n)%Z) as Hspec
    by (intros; apply keyword_scores_lookup, emotion_names_nodup).
  split; [exact Hspec |]. split.
  - intros name n Hn. apply Hspec in Hn as (kws & Hin & -> & Hpos).
    split; [lia |].
    apply (table_hits_bound emotion_keywords text name kws 6); [| done].
    unfold emotion_keywords. repeat constructor.
  - by vm_compute.
Qed.

(** X17. What [_analyze_music_themes] returns: a theme is listed exactly
    when at least one of its keywords occurs in the text as a substring,
    with the number of its keywords that occur as score; every score lies
    between 1 and 6, and the empty text gives the empty dict. *)
Theorem theme_scores_count_keywords (text : string) :
  (forall name n,
     _analyze_music_themes text !! name = Some n <->
     exists kws,
       (name, kws) ∈ theme_keywords /\ n = hits text kws /\ (0 < n)%Z) /\
  (forall name n,
     _analyze_music_themes text !! name = Some n -> (1 <= n <= 6)%Z) /\
  _analyze_music_themes "" = ∅.
Proof.
  assert (forall name n,
            _analyze_music_themes text !! name = Some n <->
            exists kws,
              (name, kws) ∈ theme_keywords /\ n = hits text kws /\
              (0 < n)%Z) as Hspec
    by (intros; apply keyword_scores_lookup, theme_names_nodup).
  split; [exact Hspec |]. split.
  - intros name n Hn. apply Hspec in Hn as (kws & Hin & -> & Hpos).
    split; [lia |].
    apply (table_hits_bound theme_keywords text name kws 6); [| done].
    unfold theme_keywords. repeat constructor; simpl; lia.
  - by vm_compute.
Qed.

Lemma keyword_scores_mono (table : list (string * list string))
    (text text' name : string) (n : Z) :
  NoDup table.*1 -> is_substring text text' ->
  keyword_scores table text !! name = Some n ->
  exists n', keyword_scores table text' !! name = Some n' /\ (n <= n')%Z.
Proof.
  intros Hnd Hsub Hn.
  apply keyword_scores_lookup in Hn as (kws & Hin & -> & Hpos); [| done].
  pose proof (hits_mono text text' kws Hsub) as Hm.
  exists (hits text' kws). split; [| done].
  apply keyword_scores_lookup; [done |]. exists kws.
  split; [done |]. split; [done | lia].
Qed.

(** X18. More text never lowers a score: if a text occurs inside a longer
    text, every emotion and every theme found in the shorter one is found
    in the longer one with a score at least as high. *)
Theorem keyword_scores_grow_with_text (text text' : string) :
  is_substring text text' ->
  (forall name n,
     _analyze_music_emotions text !! name = Some n ->
     exists n', _analyze_music_emotions text' !! name = Some n' /\
                (n <= n')%Z) /\
  (forall name n,
     _analyze_music_themes text !! name = Some n ->
     exists n', _analyze_music_themes text' !! name = Some n' /\
                (n <= n')%Z).
Proof.
  intros Hsub. split; intros name n Hn.
  - by apply (keyword_scores_mono emotion_keywords text text' name n
                emotion_names_nodup Hsub).
  - by apply (keyword_scores_mono theme_keywords text text' name n
                theme_names_nodup Hsub).
Qed.

Lemma keyword_scores_grow_with_text_witness :
  is_substring "love" "my love is fire" /\
  exists n',
    _analyze_music_emotions "my love is fire" !! "amor" = Some n' /\
    (1 <= n')%Z.
Proof.
  assert (is_substring "love" "my love is fire") as Hsub
    by (by exists "my ", " is fire").
  split; [exact Hsub |].
  destruct (keyword_scores_grow_with_text _ _ Hsub) as [He _].
  apply (He "amor" 1%Z). by vm_compute.
Defined.

(** ** Rounding *)

Lemma round_half_even_bounds (q : Q) :
  (Qfloor q <= round_half_even q <= Qfloor q + 1)%Z.
Proof.
  unfold round_half_even.
  destruct (Py.ltb _ _); [lia |]. destruct (Py.ltb _ _); [lia |].
  destruct (Z.even _); lia.
Qed.

Lemma round_half_even_mono (a b : Q) :
  a <= b -> (round_half_even a <= round_half_even b)%Z.
Proof.
  intros Hab. pose proof (Qfloor_resp_le _ _ Hab) as Hf.
  destruct (Z.eq_dec (Qfloor a) (Qfloor b)) as [Heq | Hne].
  - unfold round_half_even, Py.ltb. rewrite Heq.
    destruct (Qlt_le_dec (a - inject_Z (Qfloor b)) (1 # 2)),
      (Qlt_le_dec (1 # 2) (a - inject_Z (Qfloor b))),
      (Qlt_le_dec (b - inject_Z (Qfloor b)) (1 # 2)),
      (Qlt_le_dec (1 # 2) (b - inject_Z (Qfloor b)));
      try (exfalso; lra); try lia; destruct (Z.even (Qfloor b)); lia.
  - pose proof (round_half_even_bounds a). pose proof (round_half_even_bounds b).
    lia.
Qed.

Lemma py_round_value (q : Q) (n : nat) :
  py_round q n
  == inject_Z (round_half_even (q * inject_Z (10 ^ Z.of_nat n)))
     / inject_Z (10 ^ Z.of_nat n).
Proof. unfold py_round. apply Qred_correct. Qed.

Lemma scale_pos (n : nat) : 0 < inject_Z (10 ^ Z.of_nat n).
Proof. change 0 with (inject_Z 0). rewrite <- Zlt_Qlt. lia. Qed.

Lemma py_round_mono (a b : Q) (n : nat) :
  a <= b -> py_round a n <= py_round b n.
Proof.
  intros Hab. rewrite !py_round_value. pose proof (scale_pos n) as Hs.
  unfold Qdiv. apply Qmult_le_compat_r.
  - rewrite <- Zle_Qle. apply round_half_even_mono.
    apply Qmult_le_compat_r; [done | lra].
  - apply Qinv_le_0_compat. lra.
Qed.

(** Rounding to [n] decimals moves a number by at most half a unit of the
    last decimal. *)
Lemma py_round_error (q : Q) (n : nat) :
  Qabs (py_round q n - q) <= (1 # 2) / inject_Z (10 ^ Z.of_nat n).
Proof.
  rewrite py_round_value. pose proof (scale_pos n) as Hs.
  set (sc := inject_Z (10 ^ Z.of_nat n)) in *.
  set (x := q * sc).
  assert (Qabs (inject_Z (round_half_even x) - x) <= 1 # 2) as Herr.
  { unfold round_half_even, Py.ltb.
    pose proof (Qfloor_le x) as Hlo. pose proof (Qlt_floor x) as Hhi.
    rewrite inject_Z_plus in Hhi. change (inject_Z 1) with 1 in Hhi.
    destruct (Qlt_le_dec (x - inject_Z (Qfloor x)) (1 # 2)),
      (Qlt_le_dec (1 # 2) (x - inject_Z (Qfloor x)));
      try destruct (Z.even (Qfloor x));
      rewrite ?inject_Z_plus; change (inject_Z 1) with 1;
      apply Qabs_Qle_condition; split; lra. }
  assert (inject_Z (round_half_even x) / sc - q
          == (inject_Z (round_half_even x) - x) / sc) as ->
    by (unfold x; field; lra).
  unfold Qdiv. rewrite Qabs_Qmult.
  rewrite (Qabs_pos (/ sc)) by (apply Qinv_le_0_compat; lra).
  apply Qmult_le_compat_r; [done |]. apply Qinv_le_0_compat. lra.
Qed.

(** ** The transcription confidence *)

Lemma lstrip_only_space (s : string) :
  only_space s = true -> PyStr.lstrip s = "".
Proof.
  induction s as [| c s IH]; [done |]. simpl.
  destruct (PyStr.is_space c); [by apply IH | done].
Qed.

Lemma rstrip_empty (s : string) :
  PyStr.rstrip s = "" -> only_space s = true.
Proof.
  induction s as [| c s IH]; [done |]. simpl.
  destruct (PyStr.rstrip s); [| done].
  destruct (PyStr.is_space c); [intros _; by apply IH | done].
Qed.

Lemma lstrip_keeps_non_space (s : string) :
  only_space (PyStr.lstrip s) = true -> only_space s = true.
Proof.
  induction s as [| c s IH]; [done |]. simpl.
  destruct (PyStr.is_space c) eqn:Hc; [by apply IH |].
  simpl. by rewrite Hc.
Qed.

Lemma strip_empty_iff (s : string) :
  PyStr.strip s = "" <-> only_space s = true.
Proof.
  unfold PyStr.strip. split.
  - intros H. by apply lstrip_keeps_non_space, rstrip_empty.
  - intros H. by rewrite lstrip_only_space.
Qed.

Lemma words_aux_empty (s : string) :
  (words_aux s).1 = "" /\ (words_aux s).2 = [] <-> only_space s = true.
Proof.
  induction s as [| c s IH]; [done |]. simpl.
  destruct (words_aux s) as [w ws]. simpl in *.
  destruct (PyStr.is_space c); simpl.
  - rewrite <- IH. unfold push_word. destruct w; simpl;
      intuition congruence.
  - intuition congruence.
Qed.

Lemma split_ws_empty (s : string) :
  split_ws s = [] <-> only_space s = true.
Proof.
  rewrite <- words_aux_empty. unfold split_ws.
  destruct (words_aux s) as [w ws]. simpl. unfold push_word.
  destruct w; simpl; intuition congruence.
Qed.

Lemma py_min_unit (x : Q) : 0 <= x -> 0 <= Py.min x 1 <= 1.
Proof.
  intros H. destruct (py_min_spec x 1) as [[? ->] | [? ->]]; lra.
Qed.

Lemma count_ratio_nonneg (a b : nat) :
  0 <= inject_Z (Z.of_nat a) / inject_Z (Z.of_nat b).
Proof.
  unfold Qdiv. apply Qmult_le_0_compat; [apply Qnat_nonneg |].
  apply Qinv_le_0_compat, Qnat_nonneg.
Qed.

(** X19. The transcription confidence is a score between 0 and 1; it is 0
    exactly for a text that is empty or all whitespace, and at least 0.008
    for every other text. *)
Theorem transcription_confidence_range (text : string) :
  0 <= _calculate_transcription_confidence text <= 1 /\
  (_calculate_transcription_confidence text == 0 <-> PyStr.strip text = "") /\
  (PyStr.strip text <> "" ->
   8 # 1000 <= _calculate_transcription_confidence text).
Proof.
  unfold _calculate_transcription_confidence.
  destruct (String.eqb_spec (PyStr.strip text) "") as [Hblank | Hfull].
  { rewrite orb_true_r. split; [lra |]. split; [done | done]. }
  assert (PyStr.is_empty text = false) as -> by (by destruct text).
  cbn [orb].
  assert (0 < length (split_ws text))%nat as Hwc.
  { destruct (split_ws text) eqn:Hw; [| simpl; lia].
    apply split_ws_empty, strip_empty_iff in Hw. done. }
  cbv zeta.
  destruct (Z.eqb_spec (Z.of_nat (length (split_ws text))) 0); [lia |].
  set (wc := length (split_ws text)) in *.
  set (sc := length (filter _ (PyStr.split dot text))).
  set (cw := length (filter _ (split_ws (lower text)))).
  pose proof (py_min_unit _ (count_ratio_nonneg cw wc)) as Hc.
  assert (0 <= inject_Z (Z.of_nat sc) / 10) as Hs0.
  { unfold Qdiv. apply Qmult_le_0_compat; [apply Qnat_nonneg |].
    apply Qinv_le_0_compat. lra. }
  pose proof (py_min_unit _ Hs0) as Hs.
  assert (1 # 50 <= inject_Z (Z.of_nat wc) / 50) as Hw0.
  { apply Qle_shift_div_l; [lra |].
    assert (inject_Z 1 <= inject_Z (Z.of_nat wc)) as H1
      by (rewrite <- Zle_Qle; lia).
    change (inject_Z 1) with 1 in H1. lra. }
  assert (1 # 50 <= Py.min (inject_Z (Z.of_nat wc) / 50) 1 <= 1) as Hw.
  { destruct (py_min_spec (inject_Z (Z.of_nat wc) / 50) 1)
      as [[? ->] | [? ->]]; lra. }
  set (conf := _ * (4 # 10) + _ * (3 # 10) + _ * (3 # 10)).
  assert (8 # 1000 <= conf <= 1) as [Hlo Hhi] by (unfold conf; lra).
  pose proof (py_round_mono _ _ 3 Hlo) as Hrlo.
  pose proof (py_round_mono _ _ 3 Hhi) as Hrhi.
  change (py_round (8 # 1000) 3) with (1 # 125) in Hrlo.
  change (py_round 1 3) with 1 in Hrhi.
  split; [lra |]. split; [| lra].
  split; [lra | done].
Qed.

(** ** The feature extractor: what is not guarded *)

(** X20. The extractor completes exactly when the sample rate is not 0 and
    the RMS call succeeds, whatever the pitch, tempo and centroid estimators
    do: a sample rate of 0 raises ZeroDivisionError, and a failure of the
    RMS call, which is outside every try block, aborts the analysis with
    that same error. *)
Theorem feature_extractor_completes_iff (L : librosa) (audio : list Q)
    (sr : Z) :
  (sr = 0%Z -> _analyze_audio_features L audio sr = Raise ZeroDivisionError) /\
  (sr <> 0%Z -> forall e,
     feature_rms L audio = Raise e ->
     _analyze_audio_features L audio sr = Raise e) /\
  ((exists f, _analyze_audio_features L audio sr = Ok f) <->
   sr <> 0%Z /\ exists rms, feature_rms L audio = Ok rms).
Proof.
  assert (sr = 0%Z ->
          _analyze_audio_features L audio sr = Raise ZeroDivisionError) as H0.
  { intros ->. reflexivity. }
  assert (sr <> 0%Z -> forall e,
            feature_rms L audio = Raise e ->
            _analyze_audio_features L audio sr = Raise e) as H1.
  { intros Hsr e He. unfold _analyze_audio_features.
    apply Z.eqb_neq in Hsr. rewrite Hsr. cbn [bind]. by rewrite He. }
  split; [exact H0 |]. split; [exact H1 |]. split.
  - intros [f Hf]. destruct (Z.eq_dec sr 0%Z) as [Hz | Hnz].
    + rewrite (H0 Hz) in Hf. done.
    + split; [done |]. destruct (feature_rms L audio) as [rms | e] eqn:Hr.
      * by exists rms.
      * rewrite (H1 Hnz e eq_refl) in Hf. done.
  - intros [Hsr [rms Hr]]. eexists.
    by apply (analyze_audio_features_ok L audio sr rms).
Qed.

(** X21. The reported duration is the true one to within half a hundredth
    of a second: whenever the extractor completes, duration_seconds differs
    from len(audio) / sr by at most 0.005, and sample_rate is sr. *)
Theorem reported_duration_accurate (L : librosa) (audio : list Q) (sr : Z)
    (f : features) :
  _analyze_audio_features L audio sr = Ok f ->
  Qabs (duration_seconds f
        - inject_Z (Z.of_nat (length audio)) / inject_Z sr) <= 1 # 200 /\
  sample_rate f = sr.
Proof.
  intros Hf. unfold _analyze_audio_features in Hf.
  destruct (sr =? 0)%Z; [done |]. cbn [bind] in Hf.
  destruct (feature_rms L audio) as [rms |]; [| done]. cbn [bind] in Hf.
  injection Hf as <-. cbn [duration_seconds sample_rate].
  split; [| done]. apply (py_round_error _ 2).
Qed.

Lemma reported_duration_accurate_witness :
  let L := {| feature_rms := fun _ => Ok (1 # 2, []);
              piptrack := fun _ _ => Raise LibraryError;
              beat_track := fun _ _ => Raise LibraryError;
              feature_spectral_centroid := fun _ _ => Raise LibraryError |} in
  exists f,
    _analyze_audio_features L [0; 1; 0; 1; 0; 1; 0] 3 = Ok f /\
    Qabs (duration_seconds f - 7 / 3) <= 1 # 200.
Proof.
  intros L. eexists. split; [reflexivity |].
  by destruct (reported_duration_accurate L [0; 1; 0; 1; 0; 1; 0] 3 _ eq_refl).
Defined.

(** ** The path of the processed audio *)

Lemma starts_with_dot (c : ascii) (s : string) :
  starts_with "." (String c s) = Ascii.eqb c dot.
Proof.
  cbn [starts_with]. rewrite andb_true_r. apply Ascii.eqb_sym.
Qed.

Lemma replace_dot_length (s : string) :
  String.length (replace_str "." "_processed." s)
  = (String.length s + 10 * count_char dot s)%nat.
Proof.
  unfold replace_str. induction s as [| c s IH]; [done |].
  cbn [replace_from]. rewrite starts_with_dot.
  change (String.length "." - 1)%nat with 0%nat.
  cbn [count_char String.length]. destruct (Ascii.eqb c dot).
  - rewrite length_append, IH. simpl. lia.
  - cbn [String.length]. rewrite IH. lia.
Qed.

Lemma replace_from_absent (old new : string) (c0 : ascii) (old' s : string) :
  old = String c0 old' -> count_char c0 s = 0%nat ->
  replace_from old new 0 s = s.
Proof.
  intros -> Hc. induction s as [| c s IH]; [done |].
  cbn [count_char] in Hc. cbn [replace_from starts_with].
  destruct (Ascii.eqb_spec c c0) as [-> | Hne]; [lia |].
  destruct (Ascii.eqb_spec c0 c) as [-> | _]; [done |].
  cbn [andb]. rewrite IH; [done | lia].
Qed.

Lemma ends_with_count (c0 : ascii) (suffix' s : string) :
  ends_with (String c0 suffix') s = true -> (0 < count_char c0 s)%nat.
Proof.
  induction s as [| c s IH]; [done |]. cbn [ends_with count_char].
  rewrite orb_true_iff. intros [Heq | Hrest].
  - apply String.eqb_eq in Heq. injection Heq as -> _.
    rewrite Ascii.eqb_refl. lia.
  - specialize (IH Hrest). lia.
Qed.

Lemma replace_from_length_lower (old new : string) (k : nat) (s : string) :
  (1 <= String.length old <= String.length new)%nat ->
  (String.length s <= String.length (replace_from old new k s) + k)%nat.
Proof.
  intros Hlen. revert k. induction s as [| c s IH]; intros k; [simpl; lia |].
  cbn [replace_from]. destruct k as [| k].
  - destruct (starts_with old (String c s)).
    + rewrite length_append. specialize (IH (String.length old - 1)%nat).
      simpl. lia.
    + specialize (IH 0%nat). simpl. lia.
  - specialize (IH k). simpl. lia.
Qed.

Lemma replace_suffix_grows (old new s : string) (gain : nat) :
  (1 <= String.length old)%nat ->
  String.length new = (String.length old + gain)%nat ->
  ends_with old s = true ->
  (String.length s + gain <= String.length (replace_str old new s))%nat.
Proof.
  intros Hold Hnew. unfold replace_str.
  induction s as [| c s IH]; intros Hend.
  - cbn [ends_with] in Hend. rewrite orb_false_r in Hend.
    apply String.eqb_eq in Hend. rewrite <- Hend in Hold. simpl in Hold. lia.
  - cbn [replace_from].
    destruct (starts_with old (String c s)) eqn:Hst.
    + rewrite length_append.
      pose proof (replace_from_length_lower old new
                    (String.length old - 1) s ltac:(lia)).
      simpl. lia.
    + cbn [ends_with] in Hend. apply orb_true_iff in Hend as [Heq | Hrest].
      * apply String.eqb_eq in Heq. rewrite <- Heq in Hst.
        assert (starts_with (String c s) (String c s) = true) as Hrefl
          by (apply starts_with_spec; exists ""; by rewrite append_nil_r).
        congruence.
      * specialize (IH Hrest). simpl. lia.
Qed.

(** X22. The path computed for the processed audio: when the input path
    has no dot it is the input path itself; when the input path has a dot
    it is at least 10 characters longer, hence a different file.  For a
    path that does not end in .mp3 every dot of the path, directory dots
    included, gets _processed inserted before it. *)
Theorem processed_path_differs_iff_dot (audio_path : string) :
  (count_char dot audio_path = 0%nat -> processed_path audio_path = audio_path) /\
  ((0 < count_char dot audio_path)%nat ->
   (String.length audio_path + 10
    <= String.length (processed_path audio_path))%nat /\
   processed_path audio_path <> audio_path) /\
  (ends_with ".mp3" audio_path = false ->
   String.length (processed_path audio_path)
   = (String.length audio_path + 10 * count_char dot audio_path)%nat).
Proof.
  unfold processed_path. split; [| split].
  - intros Hc. destruct (ends_with ".mp3" audio_path) eqn:He.
    + apply (ends_with_count dot "mp3") in He. lia.
    + unfold replace_str. by apply (replace_from_absent _ _ dot "").
  - intros Hc.
    assert (String.length audio_path + 10
            <= String.length
                 (if ends_with ".mp3" audio_path
                  then replace_str ".mp3" "_processed.wav" audio_path
                  else replace_str "." "_processed." audio_path))%nat as Hlen.
    { destruct (ends_with ".mp3" audio_path) eqn:He.
      - apply (replace_suffix_grows ".mp3" "_processed.wav" _ 10);
          [simpl; lia | reflexivity | done].
      - rewrite replace_dot_length. lia. }
    split; [exact Hlen |]. intros Heq. rewrite Heq in Hlen. lia.
  - intros ->. apply replace_dot_length.
Qed.

Lemma processed_path_differs_iff_dot_witness :
  (0 < count_char dot "./inputs/song.wav")%nat /\
  processed_path "./inputs/song.wav" <> "./inputs/song.wav".
Proof.
  assert (0 < count_char dot "./inputs/song.wav")%nat as H
    by (apply Nat.ltb_lt; by vm_compute).
  split; [exact H |].
  destruct (processed_path_differs_iff_dot "./inputs/song.wav") as (_ & Hd & _).
  by destruct (Hd H).
Defined.

(** * Properties of the transcription clean-up *)

(** ** The matcher decides the language of a pattern *)

Lemma append_eq_nil (s t : string) : s +:+ t = "" -> s = "" /\ t = "".
Proof. destruct s; [intros H; split; [done | exact H] | done]. Qed.

Lemma lang_void (s : string) : ~ lang Void s.
Proof. intros H. inversion H. Qed.

Lemma lang_eps_iff (s : string) : lang Eps s <-> s = "".
Proof. split; [by inversion 1 | intros ->; constructor]. Qed.

Lemma lang_cls_iff (p : ascii -> bool) (s : string) :
  lang (Cls p) s <-> exists c, s = String c "" /\ p c = true.
Proof.
  split.
  - inversion 1; subst. by eexists.
  - intros (c & -> & Hc). by constructor.
Qed.

Lemma lang_cat_iff (r1 r2 : regex) (s : string) :
  lang (Cat r1 r2) s <->
  exists s1 s2, s = s1 +:+ s2 /\ lang r1 s1 /\ lang r2 s2.
Proof.
  split.
  - inversion 1; subst. by eexists _, _.
  - intros (s1 & s2 & -> & H1 & H2). by constructor.
Qed.

Lemma lang_alt_iff (r1 r2 : regex) (s : string) :
  lang (Alt r1 r2) s <-> lang r1 s \/ lang r2 s.
Proof.
  split.
  - inversion 1; subst; [by left | by right].
  - intros [H | H]; [by apply lang_alt_l | by apply lang_alt_r].
Qed.

(** A non-empty word of a star begins with a non-empty word of the body. *)
Lemma lang_star_cons_inv (r : regex) (c : ascii) (s : string) :
  lang (Star r) (String c s) ->
  exists s1 s2, s = s1 +:+ s2 /\ lang r (String c s1) /\ lang (Star r) s2.
Proof.
  intros H. remember (Star r) as r' eqn:Hr. remember (String c s) as w eqn:Hw.
  revert c s Hw. induction H as [| | | | | r0 | r0 s1 s2 H1 _ H2 IH2];
    intros c0 s0 Hw; try discriminate.
  injection Hr as ->. destruct s1 as [| c1 s1].
  - by apply IH2.
  - rewrite append_cons in Hw. injection Hw as -> <-. by exists s1, s2.
Qed.

Lemma nullable_spec (r : regex) : nullable r = true <-> lang r "".
Proof.
  induction r as [| | p | r1 IH1 r2 IH2 | r1 IH1 r2 IH2 | r IH]; simpl.
  - split; [done | by intros H%lang_void].
  - split; [intros _; constructor | done].
  - split; [done |]. intros (c & Hc & _)%lang_cls_iff. done.
  - rewrite andb_true_iff, IH1, IH2, lang_cat_iff. split.
    + intros [H1 H2]. by exists "", "".
    + intros (s1 & s2 & Hs & H1 & H2). symmetry in Hs.
      apply append_eq_nil in Hs as [-> ->]. by split.
  - by rewrite orb_true_iff, IH1, IH2, lang_alt_iff.
  - split; [intros _; constructor | done].
Qed.

Lemma deriv_spec (c : ascii) (r : regex) (s : string) :
  lang (deriv c r) s <-> lang r (String c s).
Proof.
  revert s. induction r as [| | p | r1 IH1 r2 IH2 | r1 IH1 r2 IH2 | r IH];
    intros s; simpl.
  - split; intros H; by apply lang_void in H.
  - split; [by intros H%lang_void | by intros H%lang_eps_iff].
  - rewrite lang_cls_iff. destruct (p c) eqn:Hp.
    + rewrite lang_eps_iff. split.
      * intros ->. by exists c.
      * intros (c' & [= -> ->] & _). done.
    + split; [by intros H%lang_void |].
      intros (c' & [= -> ->] & Hc). congruence.
  - assert (lang (Cat (deriv c r1) r2) s <->
            exists s1 s2, s = s1 +:+ s2 /\ lang r1 (String c s1) /\ lang r2 s2)
      as Hleft.
    { rewrite lang_cat_iff. split; intros (s1 & s2 & Hs & H1 & H2);
        exists s1, s2; (split; [done |]); split; try done; by apply IH1. }
    rewrite (lang_cat_iff r1 r2). destruct (nullable r1) eqn:Hn.
    + rewrite lang_alt_iff, Hleft, IH2. split.
      * intros [(s1 & s2 & -> & H1 & H2) | H2].
        -- by exists (String c s1), s2.
        -- apply nullable_spec in Hn. by exists "", (String c s).
      * intros (s1 & s2 & Hs & H1 & H2). destruct s1 as [| c1 s1].
        -- right. rewrite append_nil_l in Hs. by rewrite Hs.
        -- left. rewrite append_cons in Hs. injection Hs as -> ->.
           by exists s1, s2.
    + rewrite Hleft. split.
      * intros (s1 & s2 & -> & H1 & H2). by exists (String c s1), s2.
      * intros (s1 & s2 & Hs & H1 & H2). destruct s1 as [| c1 s1].
        -- apply nullable_spec in H1. congruence.
        -- rewrite append_cons in Hs. injection Hs as -> ->.
           by exists s1, s2.
  - by rewrite !lang_alt_iff, IH1, IH2.
  - rewrite lang_cat_iff. split.
    + intros (s1 & s2 & -> & H1 & H2). apply IH in H1.
      by apply (lang_star_cons r (String c s1) s2).
    + intros H. apply lang_star_cons_inv in H as (s1 & s2 & -> & H1 & H2).
      exists s1, s2. split; [done |]. split; [by apply IH | done].
Qed.

Lemma fullmatch_spec (r : regex) (s : string) :
  fullmatch r s = true <-> lang r s.
Proof.
  revert r. induction s as [| c s IH]; intros r; simpl.
  - apply nullable_spec.
  - by rewrite IH, deriv_spec.
Qed.

(** ** Classes, stars and words *)

Lemma all_chars_append (p : ascii -> bool) (s t : string) :
  all_chars p (s +:+ t) = all_chars p s && all_chars p t.
Proof.
  induction s as [| c s IH]; [done |]. rewrite append_cons. simpl.
  by rewrite IH, andb_assoc.
Qed.

Lemma only_space_all (s : string) : only_space s = all_chars PyStr.is_space s.
Proof. induction s as [| c s IH]; [done |]. simpl. by rewrite IH. Qed.

Lemma star_class (p : ascii -> bool) (s : string) :
  lang (Star (Cls p)) s <-> all_chars p s = true.
Proof.
  split.
  - intros H. remember (Star (Cls p)) as r eqn:Hr.
    induction H as [| | | | | r0 | r0 s1 s2 H1 _ H2 IH2]; try discriminate.
    + done.
    + injection Hr as ->. apply lang_cls_iff in H1 as (c & -> & Hc).
      rewrite append_cons, append_nil_l. simpl. rewrite Hc. by apply IH2.
  - induction s as [| c s IH]; [intros _; constructor |]. simpl.
    intros [Hc Hs]%andb_true_iff.
    change (String c s) with (String c "" +:+ s).
    apply lang_star_cons; [by constructor | by apply IH].
Qed.

Lemma plus_class (p : ascii -> bool) (s : string) :
  lang (Plus (Cls p)) s <-> s <> "" /\ all_chars p s = true.
Proof.
  unfold Plus. rewrite lang_cat_iff. split.
  - intros (s1 & s2 & -> & (c & -> & Hc)%lang_cls_iff & H2%star_class).
    rewrite append_cons, append_nil_l. simpl. by rewrite Hc, H2.
  - intros [Hne Hall]. destruct s as [| c s]; [done |]. simpl in Hall.
    apply andb_true_iff in Hall as [Hc Hs].
    exists (String c ""), s. split; [done |].
    split; [by constructor | by apply star_class].
Qed.

Lemma letter_not_space (c : ascii) :
  is_letter c = true -> PyStr.is_space c = false.
Proof.
  destruct c as [[] [] [] [] [] [] [] []]; vm_compute; congruence.
Qed.

Lemma letters_no_space (s : string) :
  all_chars is_letter s = true -> no_space s = true.
Proof.
  induction s as [| c s IH]; [done |]. simpl.
  intros [Hc Hs]%andb_true_iff. by rewrite (letter_not_space c Hc), IH.
Qed.

Lemma letters_and_spaces_append (s t : string) :
  letters_and_spaces (s +:+ t) = letters_and_spaces s && letters_and_spaces t.
Proof.
  induction s as [| c s IH]; [done |]. rewrite append_cons. simpl.
  by rewrite IH, andb_assoc.
Qed.

Lemma letters_are_letters_and_spaces (s : string) :
  all_chars is_letter s = true -> letters_and_spaces s = true.
Proof.
  induction s as [| c s IH]; [done |]. simpl.
  intros [Hc Hs]%andb_true_iff. by rewrite Hc, IH.
Qed.

Lemma spaces_are_letters_and_spaces (s : string) :
  all_chars PyStr.is_space s = true -> letters_and_spaces s = true.
Proof.
  induction s as [| c s IH]; [done |]. simpl.
  intros [Hc Hs]%andb_true_iff. by rewrite Hc, orb_true_r, IH.
Qed.

Lemma push_word_nil (ws : list string) : push_word "" ws = ws.
Proof. done. Qed.

Lemma split_ws_cons_space (c : ascii) (s : string) :
  PyStr.is_space c = true -> split_ws (String c s) = split_ws s.
Proof.
  intros Hc. unfold split_ws. simpl. destruct (words_aux s) as [w ws].
  by rewrite Hc.
Qed.

Lemma split_ws_app_space (a s : string) :
  all_chars PyStr.is_space a = true -> split_ws (a +:+ s) = split_ws s.
Proof.
  induction a as [| c a IH]; [done |]. simpl.
  intros [Hc Ha]%andb_true_iff. rewrite append_cons.
  rewrite split_ws_cons_space by done. by apply IH.
Qed.

Lemma words_aux_app_tail (s c : string) :
  all_chars PyStr.is_space c = true -> words_aux (s +:+ c) = words_aux s.
Proof.
  intros Hc. induction s as [| x s IH].
  - rewrite append_nil_l. rewrite <- only_space_all in Hc.
    apply words_aux_empty in Hc as [H1 H2].
    destruct (words_aux c). simpl in *. by subst.
  - rewrite append_cons. simpl. by rewrite IH.
Qed.

Lemma split_ws_app_tail (s c : string) :
  all_chars PyStr.is_space c = true -> split_ws (s +:+ c) = split_ws s.
Proof. intros Hc. unfold split_ws. by rewrite words_aux_app_tail. Qed.

Lemma words_aux_head_space (s : string) :
  head_space s = true -> (words_aux s).1 = "".
Proof.
  destruct s as [| c s]; [done |]. simpl. intros ->.
  by destruct (words_aux s).
Qed.

Lemma words_aux_app_word (b s : string) :
  no_space b = true ->
  words_aux (b +:+ s) = (b +:+ (words_aux s).1, (words_aux s).2).
Proof.
  induction b as [| c b IH];
    [intros _; rewrite !append_nil_l; by destruct (words_aux s) |]. simpl.
  intros [Hc Hb]%andb_true_iff. rewrite append_cons. simpl.
  rewrite IH by done. apply negb_true_iff in Hc. by rewrite Hc.
Qed.

Lemma split_ws_app_word (b s : string) :
  b <> "" -> no_space b = true -> head_space s = true ->
  split_ws (b +:+ s) = b :: split_ws s.
Proof.
  intros Hne Hb Hs. unfold split_ws. rewrite words_aux_app_word by done.
  pose proof (words_aux_head_space s Hs) as Hw.
  destruct (words_aux s) as [w ws]. simpl in *. subst w.
  rewrite append_nil_r. unfold push_word. by destruct b.
Qed.

Lemma spaces_head_space (s : string) :
  all_chars PyStr.is_space s = true -> head_space s = true.
Proof. destruct s; [done |]. simpl. by intros [H _]%andb_true_iff. Qed.

Lemma spaces_no_words (s : string) :
  all_chars PyStr.is_space s = true -> split_ws s = [].
Proof. intros H. apply split_ws_empty. by rewrite only_space_all. Qed.

(** ** The noise patterns *)

Lemma one_word_count (s : string) :
  one_word s ->
  letters_and_spaces s = true /\ length (split_ws s) = 1%nat.
Proof.
  intros (a & b & c & -> & Ha & Hb & Hlb & Hc). split.
  - rewrite !letters_and_spaces_append.
    by rewrite (spaces_are_letters_and_spaces a),
      (letters_are_letters_and_spaces b), (spaces_are_letters_and_spaces c).
  - rewrite split_ws_app_space by done.
    rewrite split_ws_app_word;
      [| done | by apply letters_no_space | by apply spaces_head_space].
    by rewrite spaces_no_words.
Qed.

Lemma two_words_count (s : string) :
  two_words s ->
  letters_and_spaces s = true /\ length (split_ws s) = 2%nat.
Proof.
  intros (a & b1 & m & b2 & c & -> & Ha & Hb1 & Hl1 & Hm & Hsm & Hb2 & Hl2 & Hc).
  split.
  - rewrite !letters_and_spaces_append.
    by rewrite (spaces_are_letters_and_spaces a),
      (letters_are_letters_and_spaces b1), (spaces_are_letters_and_spaces m),
      (letters_are_letters_and_spaces b2), (spaces_are_letters_and_spaces c).
  - rewrite split_ws_app_space by done.
    rewrite split_ws_app_word; [| done | by apply letters_no_space |].
    + rewrite split_ws_app_space by done.
      rewrite split_ws_app_word;
        [| done | by apply letters_no_space | by apply spaces_head_space].
      by rewrite spaces_no_words.
    + destruct m as [| x m]; [done |]. simpl in *.
      by apply andb_true_iff in Hsm as [-> _].
Qed.

Lemma words_aux_shape (r : string) :
  exists rest,
    r = (words_aux r).1 +:+ rest /\ head_space rest = true /\
    split_ws rest = (words_aux r).2.
Proof.
  induction r as [| x r (rest & Hr & Hh & Hs)]; [by exists "" |].
  simpl. destruct (words_aux r) as [w ws] eqn:Hw. simpl in *.
  destruct (PyStr.is_space x) eqn:Hx; simpl.
  - exists (String x r). split; [done |]. split; [done |].
    rewrite split_ws_cons_space by done. unfold split_ws. by rewrite Hw.
  - exists rest. split; [| done]. rewrite append_cons. by f_equal.
Qed.

Lemma word_of_letters (w : string) :
  letters_and_spaces w = true -> no_space w = true ->
  all_chars is_letter w = true.
Proof.
  induction w as [| c w IH]; [done |]. simpl.
  intros [Hc Hw]%andb_true_iff [Hn Hns]%andb_true_iff.
  apply negb_true_iff in Hn. rewrite Hn, orb_false_r in Hc.
  by rewrite Hc, IH.
Qed.

Lemma single_word_shape (s b : string) :
  letters_and_spaces s = true -> split_ws s = [b] ->
  exists a c,
    s = a +:+ b +:+ c /\ all_chars PyStr.is_space a = true /\
    b <> "" /\ all_chars is_letter b = true /\
    all_chars PyStr.is_space c = true.
Proof.
  induction s as [| x r IH]; [done |].
  intros Hl Hws. simpl in Hl. apply andb_true_iff in Hl as [Hx Hlr].
  destruct (PyStr.is_space x) eqn:Hsx.
  - rewrite split_ws_cons_space in Hws by done.
    destruct (IH Hlr Hws) as (a & c & -> & Ha & Hb & Hlb & Hc).
    exists (String x a), c. split; [done |]. split; [| done].
    simpl. by rewrite Hsx.
  - destruct (words_aux_shape r) as (rest & Hr & Hh & Hs).
    pose proof (words_aux_wordlike r) as [Hnw _].
    unfold split_ws in Hws. simpl in Hws.
    destruct (words_aux r) as [w ws]. simpl in *. rewrite Hsx in Hws.
    cbn [push_word PyStr.is_empty] in Hws. injection Hws as <- ->.
    rewrite Hr, letters_and_spaces_append in Hlr.
    apply andb_true_iff in Hlr as [Hlw Hlrest].
    exists "", rest. split; [by rewrite Hr at 1 |]. split; [done |].
    split; [done |]. split.
    + simpl. rewrite orb_false_r in Hx. rewrite Hx.
      by apply word_of_letters.
    + rewrite <- only_space_all. by apply split_ws_empty.
Qed.

Lemma single_word_iff (s : string) :
  one_word s <->
  letters_and_spaces s = true /\ length (split_ws s) = 1%nat.
Proof.
  split; [apply one_word_count |]. intros [Hl Hn].
  destruct (split_ws s) as [| b [| b' ws]] eqn:Hws; try done.
  destruct (single_word_shape s b Hl Hws) as (a & c & H). by exists a, b, c.
Qed.

Lemma double_word_shape (s b1 b2 : string) :
  letters_and_spaces s = true -> split_ws s = [b1; b2] -> two_words s.
Proof.
  induction s as [| x r IH]; [done |].
  intros Hl Hws. simpl in Hl. apply andb_true_iff in Hl as [Hx Hlr].
  destruct (PyStr.is_space x) eqn:Hsx.
  - rewrite split_ws_cons_space in Hws by done.
    destruct (IH Hlr Hws)
      as (a & c1 & m & c2 & c & -> & Ha & H).
    exists (String x a), c1, m, c2, c. split; [done |]. split; [| done].
    simpl. by rewrite Hsx.
  - destruct (words_aux_shape r) as (rest & Hr & Hh & Hs).
    pose proof (words_aux_wordlike r) as [Hnw _].
    unfold split_ws in Hws. simpl in Hws.
    destruct (words_aux r) as [w ws]. simpl in *. rewrite Hsx in Hws.
    cbn [push_word PyStr.is_empty] in Hws. injection Hws as <- ->.
    rewrite Hr, letters_and_spaces_append in Hlr.
    apply andb_true_iff in Hlr as [Hlw Hlrest].
    destruct (single_word_shape rest b2 Hlrest Hs)
      as (m & c & Hrest & Hm & Hb2 & Hl2 & Hc).
    exists "", (String x w), m, b2, c.
    split; [rewrite Hr at 1; by rewrite Hrest at 1 |].
    split; [done |]. split; [done |]. split.
    { simpl. rewrite orb_false_r in Hx. rewrite Hx.
      by apply word_of_letters. }
    split; [| done]. intros ->. rewrite append_nil_l in Hrest.
    subst rest. destruct b2 as [| y b2]; [done |]. simpl in *.
    apply andb_true_iff in Hl2 as [Hy _].
    apply letter_not_space in Hy. congruence.
Qed.

Lemma double_word_iff (s : string) :
  two_words s <->
  letters_and_spaces s = true /\ length (split_ws s) = 2%nat.
Proof.
  split; [apply two_words_count |]. intros [Hl Hn].
  destruct (split_ws s) as [| b1 [| b2 [| b3 ws]]] eqn:Hws; try done.
  by apply (double_word_shape s b1 b2).
Qed.

Lemma re_match_line_spec (r : regex) (s : string) :
  re_match_line r s = true <->
  lang r s \/ exists s', s = s' +:+ String newline "" /\ lang r s'.
Proof.
  unfold re_match_line. rewrite fullmatch_spec, lang_cat_iff. split.
  - intros (s1 & s2 & -> & H1 & [->%lang_eps_iff | H2]%lang_alt_iff).
    + left. by rewrite append_nil_r.
    + apply lang_cls_iff in H2 as (c & -> & Hc).
      apply Ascii.eqb_eq in Hc as ->. right. by exists s1.
  - intros [H | (s' & -> & H)].
    + exists s, "". rewrite append_nil_r. split; [done |].
      split; [done |]. apply lang_alt_l. constructor.
    + exists s', (String newline ""). split; [done |]. split; [done |].
      apply lang_alt_r. constructor. by apply Ascii.eqb_eq.
Qed.

Lemma framed_word (r : regex) (s : string) :
  (forall b, lang r b -> b <> "" /\ all_chars is_letter b = true) ->
  lang (Cat (Star re_space) (Cat r (Star re_space))) s -> one_word s.
Proof.
  intros Hr (a & t & -> & Ha & (b & c & -> & Hb & Hc)%lang_cat_iff)%lang_cat_iff.
  apply star_class in Ha, Hc. destruct (Hr b Hb) as [Hne Hl].
  by exists a, b, c.
Qed.

Lemma pattern_one_word (s : string) :
  lang (Cat (Star re_space) (Cat (Plus re_letter) (Star re_space))) s <->
  one_word s.
Proof.
  split.
  - apply framed_word. intros b Hb. by apply plus_class.
  - intros (a & b & c & -> & Ha & Hne & Hb & Hc).
    apply lang_cat; [by apply star_class |].
    apply lang_cat; [by apply plus_class | by apply star_class].
Qed.

Lemma pattern_two_words (s : string) :
  lang (Cat (Star re_space)
          (Cat (Plus re_letter)
             (Cat (Plus re_space) (Cat (Plus re_letter) (Star re_space))))) s
  <-> two_words s.
Proof.
  split.
  - intros (a & t1 & -> & Ha & H1)%lang_cat_iff.
    apply lang_cat_iff in H1 as (b1 & t2 & -> & [Hn1 Hb1]%plus_class & H2).
    apply lang_cat_iff in H2 as (m & t3 & -> & [Hnm Hm]%plus_class & H3).
    apply lang_cat_iff in H3 as (b2 & c & -> & [Hn2 Hb2]%plus_class & Hc).
    apply star_class in Ha, Hc. by exists a, b1, m, b2, c.
  - intros (a & b1 & m & b2 & c & -> & Ha & Hn1 & Hb1 & Hnm & Hm & Hn2 & Hb2
            & Hc).
    apply lang_cat; [by apply star_class |].
    apply lang_cat; [by apply plus_class |].
    apply lang_cat; [by apply plus_class |].
    apply lang_cat; [by apply plus_class | by apply star_class].
Qed.

Lemma one_word_newline (s : string) :
  one_word s -> one_word (s +:+ String newline "").
Proof.
  intros (a & b & c & -> & Ha & Hne & Hb & Hc).
  exists a, b, (c +:+ String newline ""). rewrite !append_assoc.
  split; [done |]. split; [done |]. split; [done |]. split; [done |].
  by rewrite all_chars_append, Hc.
Qed.

Lemma two_words_newline (s : string) :
  two_words s -> two_words (s +:+ String newline "").
Proof.
  intros (a & b1 & m & b2 & c & -> & Ha & Hn1 & Hb1 & Hnm & Hm & Hn2 & Hb2
          & Hc).
  exists a, b1, m, b2, (c +:+ String newline ""). rewrite !append_assoc.
  repeat (split; [done |]). by rewrite all_chars_append, Hc.
Qed.

Lemma letter_word (b : string) :
  lang re_letter b -> b <> "" /\ all_chars is_letter b = true.
Proof. intros (c & -> & Hc)%lang_cls_iff. simpl. by rewrite Hc. Qed.

Lemma noise_line_shape (line : string) :
  _is_noise_line line = true <-> one_word line \/ two_words line.
Proof.
  unfold _is_noise_line. rewrite existsb_exists. split.
  - intros (p & Hp & Hm). apply re_match_line_spec in Hm.
    assert (forall l, lang p l -> one_word l \/ two_words l) as Hshape.
    { intros l Hl. simpl in Hp.
      destruct Hp as [<- | [<- | [<- | [<- | [<- | []]]]]].
      - left. revert Hl. apply framed_word, letter_word.
      - left. revert Hl. apply framed_word. intros b.
        intros (b1 & b2 & -> & [H1 H1']%letter_word & [H2 H2']%letter_word)
          %lang_cat_iff.
        rewrite all_chars_append, H1', H2'. split; [| done].
        by destruct b1.
      - left. revert Hl. apply framed_word. intros b.
        intros (b1 & t & -> & [H1 H1']%letter_word
                & (b2 & b3 & -> & [H2 H2']%letter_word
                   & [H3 H3']%letter_word)%lang_cat_iff)%lang_cat_iff.
        rewrite !all_chars_append, H1', H2', H3'. split; [| done].
        by destruct b1.
      - right. by apply pattern_two_words.
      - left. by apply pattern_one_word. }
    destruct Hm as [Hl | (l & -> & Hl)].
    + by apply Hshape.
    + destruct (Hshape l Hl) as [H | H];
        [left; by apply one_word_newline | right; by apply two_words_newline].
  - intros [H | H].
    + exists (Cat (Star re_space) (Cat (Plus re_letter) (Star re_space))).
      split; [simpl; tauto |]. apply re_match_line_spec. left.
      by apply pattern_one_word.
    + exists (Cat (Star re_space)
                (Cat (Plus re_letter)
                   (Cat (Plus re_space)
                      (Cat (Plus re_letter) (Star re_space))))).
      split; [simpl; tauto |]. apply re_match_line_spec. left.
      by apply pattern_two_words.
Qed.

Lemma noise_line_iff_words (line : string) :
  _is_noise_line line = true <->
  letters_and_spaces line = true /\
  (length (split_ws line) = 1%nat \/ length (split_ws line) = 2%nat).
Proof.
  rewrite noise_line_shape, single_word_iff, double_word_iff. tauto.
Qed.

(** X23 ([_is_noise_line]).  A line matches one of the five noise patterns
    exactly when it consists of ASCII letters and whitespace only and
    [split()] finds one or two words in it: the patterns for one, two and
    three letters add nothing to the last one, and the length of the words
    plays no part. *)
Theorem noise_line_iff_one_or_two_letter_words (line : string) :
  _is_noise_line line = true <->
  letters_and_spaces line = true /\
  (length (split_ws line) = 1%nat \/ length (split_ws line) = 2%nat).
Proof. apply noise_line_iff_words. Qed.

Lemma words_aux_length (s : string) :
  (String.length (words_aux s).1 + 2 * length (words_aux s).2
   <= String.length s)%nat.
Proof.
  induction s as [| c s IH]; [done |]. simpl.
  destruct (words_aux s) as [w ws]. simpl in *.
  destruct (PyStr.is_space c); simpl.
  - unfold push_word. destruct w; simpl in *; lia.
  - lia.
Qed.

Lemma split_ws_length (s : string) :
  (2 * length (split_ws s) <= String.length s + 1)%nat.
Proof.
  pose proof (words_aux_length s) as H. unfold split_ws.
  destruct (words_aux s) as [w ws]. simpl in *. unfold push_word.
  destruct w; simpl in *; lia.
Qed.

Lemma keeps_line_iff (line : string) :
  keeps_line line = true <->
  (3 <= length (split_ws line))%nat \/
  (length (split_ws line) = 2%nat /\ (3 < String.length line)%nat /\
   letters_and_spaces line = false).
Proof.
  unfold keeps_line.
  rewrite !andb_true_iff, negb_true_iff, Nat.ltb_lt, Nat.leb_le.
  pose proof (split_ws_length line) as Hlen.
  pose proof (noise_line_iff_words line) as Hnoise.
  destruct (_is_noise_line line) eqn:Hn.
  - destruct Hnoise as [[Hl Hw] _]; [done |]. split.
    + by intros [_ ?].
    + intros [H | (H2 & _ & H)]; [lia | congruence].
  - split.
    + intros [[H3 H2] _].
      destruct (decide (3 <= length (split_ws line))%nat) as [| Hlt];
        [by left |].
      right. split; [lia |]. split; [done |].
      destruct (letters_and_spaces line) eqn:Hl; [| done].
      destruct Hnoise as [_ Hback]. discriminate Hback.
      split; [done |]. right. lia.
    + intros [H | (H2 & H3 & H)]; (split; [split; lia | done]).
Qed.

(** X24 ([post_process_transcription], the filter of the loop).  A
    sentence is kept exactly when it has three words or more, or when it
    has two words, more than three characters and some character that is
    neither an ASCII letter nor whitespace.  Every sentence of two purely
    alphabetic words is dropped, whatever its length. *)
Theorem sentence_kept_iff (line : string) :
  keeps_line line = true <->
  (3 <= length (split_ws line))%nat \/
  (length (split_ws line) = 2%nat /\ (3 < String.length line)%nat /\
   letters_and_spaces line = false).
Proof. apply keeps_line_iff. Qed.

(** ** Whitespace normalisation *)

Lemma lstrip_rstrip_comm (s : string) :
  PyStr.lstrip (PyStr.rstrip s) = PyStr.rstrip (PyStr.lstrip s).
Proof.
  induction s as [| c s IH]; [done |].
  change (PyStr.rstrip (String c s))
    with (match PyStr.rstrip s with
          | EmptyString =>
              if PyStr.is_space c then EmptyString else String c EmptyString
          | r' => String c r'
          end).
  change (PyStr.lstrip (String c s))
    with (if PyStr.is_space c then PyStr.lstrip s else String c s).
  destruct (PyStr.is_space c) eqn:Hc.
  - rewrite <- IH. destruct (PyStr.rstrip s) as [| c' r']; [done |].
    change (PyStr.lstrip (String c (String c' r')))
      with (if PyStr.is_space c then PyStr.lstrip (String c' r')
            else String c (String c' r')).
    by rewrite Hc.
  - change (PyStr.rstrip (String c s))
      with (match PyStr.rstrip s with
            | EmptyString =>
                if PyStr.is_space c then EmptyString else String c EmptyString
            | r' => String c r'
            end).
    rewrite Hc. destruct (PyStr.rstrip s); simpl; by rewrite Hc.
Qed.

Lemma join_cons_char (sep : string) (c : ascii) (w : string)
    (ws : list string) :
  PyStr.join sep (String c w :: ws) = String c (PyStr.join sep (w :: ws)).
Proof. by destruct ws. Qed.

Lemma join_words_head (sep : string) (ws : list string) :
  Forall wordlike ws -> ws <> [] ->
  PyStr.join sep ws <> "" /\ head_not_space (PyStr.join sep ws) = true.
Proof.
  intros Hws Hne. destruct ws as [| w ws]; [done |].
  apply Forall_cons in Hws as [[Hw Hns] _].
  destruct w as [| c w]; [done |]. rewrite join_cons_char.
  split; [done |]. simpl in *. by apply andb_true_iff in Hns as [-> _].
Qed.

Lemma rstrip_collapse (s : string) :
  PyStr.rstrip (collapse_from false s)
  = PyStr.join " " ((words_aux s).1 :: (words_aux s).2) /\
  PyStr.rstrip (collapse_from true s) = PyStr.join " " (split_ws s).
Proof.
  induction s as [| c s [IHa IHb]]; [done |].
  pose proof (words_aux_wordlike s) as [Hw Hws].
  pose proof (split_ws_wordlike s) as Hsplit.
  unfold split_ws in *. cbn [collapse_from words_aux].
  destruct (words_aux s) as [w ws]. cbn [fst snd] in *.
  destruct (PyStr.is_space c) eqn:Hc; cbn [fst snd].
  - split.
    + change (PyStr.rstrip (String blank (collapse_from true s)))
        with (match PyStr.rstrip (collapse_from true s) with
              | EmptyString =>
                  if PyStr.is_space blank then EmptyString
                  else String blank EmptyString
              | r' => String blank r'
              end).
      rewrite IHb. destruct (push_word w ws) as [| x xs] eqn:Hp; [done |].
      destruct (join_words_head " " (x :: xs)) as [Hne _]; [done | done |].
      change (PyStr.join " " ("" :: x :: xs))
        with (String blank (PyStr.join " " (x :: xs))).
      by destruct (PyStr.join " " (x :: xs)).
    + rewrite IHb. unfold push_word at 2. done.
  - assert (PyStr.rstrip (String c (collapse_from false s))
            = PyStr.join " " (String c w :: ws)) as Hr.
    { change (PyStr.rstrip (String c (collapse_from false s)))
        with (match PyStr.rstrip (collapse_from false s) with
              | EmptyString =>
                  if PyStr.is_space c then EmptyString
                  else String c EmptyString
              | r' => String c r'
              end).
      rewrite IHa, Hc, join_cons_char.
      by destruct (PyStr.join " " (w :: ws)). }
    split; [done |]. by rewrite Hr.
Qed.

Lemma strip_collapse_join (text : string) :
  PyStr.strip (collapse_ws text) = PyStr.join " " (split_ws text).
Proof.
  unfold PyStr.strip, collapse_ws. rewrite <- lstrip_rstrip_comm.
  destruct (rstrip_collapse text) as [-> _].
  pose proof (words_aux_wordlike text) as [Hw Hws]. unfold split_ws.
  destruct (words_aux text) as [w ws]. cbn [fst snd] in *.
  destruct w as [| c w].
  - unfold push_word. cbn [PyStr.is_empty]. destruct ws as [| x xs]; [done |].
    destruct (join_words_head " " (x :: xs)) as [_ Hh]; [done | done |].
    change (PyStr.join " " ("" :: x :: xs))
      with (String blank (PyStr.join " " (x :: xs))).
    change (PyStr.lstrip (String blank (PyStr.join " " (x :: xs))))
      with (PyStr.lstrip (PyStr.join " " (x :: xs))).
    by apply lstrip_id.
  - unfold push_word. cbn [PyStr.is_empty]. apply lstrip_id.
    rewrite join_cons_char. simpl in *.
    by apply andb_true_iff in Hw as [-> _].
Qed.

(** X25 ([post_process_transcription], step 1).  Replacing every run of
    whitespace by one blank and stripping the result gives the words of
    the text, as [split()] finds them, joined by single blanks. *)
Theorem whitespace_normalised_to_joined_words (text : string) :
  PyStr.strip (collapse_ws text) = PyStr.join " " (split_ws text).
Proof. apply strip_collapse_join. Qed.

(** ** The whole clean-up *)

Lemma count_char_collapse (c : ascii) (b : bool) (s : string) :
  Ascii.eqb blank c = false ->
  (count_char c (collapse_from b s) <= count_char c s)%nat.
Proof.
  intros Hc. revert b. induction s as [| x s IH]; intros b; [done |].
  cbn [collapse_from count_char].
  destruct (PyStr.is_space x).
  - destruct b.
    + specialize (IH true). lia.
    + cbn [count_char]. rewrite Hc. specialize (IH true). lia.
  - cbn [count_char]. specialize (IH false). lia.
Qed.

Lemma split_absent (sep : ascii) (s : string) :
  count_char sep s = 0%nat -> PyStr.split sep s = [s].
Proof.
  induction s as [| c s IH]; [done |]. simpl.
  destruct (Ascii.eqb c sep); [done |]. intros H. by rewrite IH.
Qed.

Lemma split_parts_clean (sep : ascii) (s : string) :
  Forall (fun part => count_char sep part = 0%nat) (PyStr.split sep s).
Proof.
  induction s as [| c s IH]; [by constructor |]. simpl.
  destruct (Ascii.eqb c sep) eqn:Hc; [by constructor |].
  destruct (PyStr.split sep s) as [| p ps].
  - constructor; [| done]. simpl. by rewrite Hc.
  - apply Forall_cons in IH as [Hp Hps]. constructor; [| done].
    simpl. by rewrite Hc.
Qed.

Lemma split_ws_join (ws : list string) :
  Forall wordlike ws -> split_ws (PyStr.join " " ws) = ws.
Proof.
  induction ws as [| w ws IH]; [done |].
  intros [[Hne Hns] Hws]%Forall_cons. destruct ws as [| x xs].
  - simpl. rewrite <- (append_nil_r w) at 1.
    by rewrite split_ws_app_word.
  - change (PyStr.join " " (w :: x :: xs))
      with (w +:+ String blank (PyStr.join " " (x :: xs))).
    rewrite split_ws_app_word by done.
    rewrite split_ws_cons_space by done. by rewrite IH.
Qed.

Lemma strip_count (c : ascii) (s : string) :
  (count_char c (PyStr.strip s) <= count_char c s)%nat.
Proof.
  unfold PyStr.strip. pose proof (count_char_rstrip c (PyStr.lstrip s)).
  pose proof (count_char_lstrip c s). lia.
Qed.

Lemma filtered_lines_single (text : string) :
  count_char dot text = 0%nat ->
  filtered_lines text
  = filter (fun line => keeps_line line = true)
      [PyStr.join " " (split_ws text)].
Proof.
  intros Hdot. unfold filtered_lines. cbv zeta.
  assert (count_char dot (PyStr.strip (collapse_ws text)) = 0%nat) as H0.
  { pose proof (strip_count dot (collapse_ws text)).
    pose proof (count_char_collapse dot false text eq_refl).
    unfold collapse_ws in *. lia. }
  rewrite (split_absent _ _ H0). cbn [map]. rewrite strip_idem.
  by rewrite strip_collapse_join.
Qed.

(** X26 ([post_process_transcription], a text of one sentence).  A text
    without a full stop that has three words or more comes back as its
    words joined by single blanks, less the characters outside the class
    of step 5; with fewer than two words the result is the empty string. *)
Theorem single_sentence_clean_up (text : string) :
  count_char dot text = 0%nat ->
  ((3 <= length (split_ws text))%nat ->
   post_process_transcription text
   = delete_others (PyStr.join " " (split_ws text))) /\
  ((length (split_ws text) <= 1)%nat ->
   post_process_transcription text = "").
Proof.
  intros Hdot. unfold post_process_transcription.
  rewrite (filtered_lines_single text Hdot).
  pose proof (keeps_line_iff (PyStr.join " " (split_ws text))) as Hk.
  rewrite (split_ws_join _ (split_ws_wordlike text)) in Hk.
  rewrite filter_cons, filter_nil. split; intros Hn.
  - destruct (decide (keeps_line (PyStr.join " " (split_ws text)) = true))
      as [_ | Hno]; [done |].
    destruct Hno. apply Hk. by left.
  - destruct (decide (keeps_line (PyStr.join " " (split_ws text)) = true))
      as [Hyes | _]; [| done].
    apply Hk in Hyes. lia.
Qed.

Lemma single_sentence_clean_up_witness :
  let text := String (ascii_of_nat 9) "I  love" +:+ String newline "you " in
  count_char dot text = 0%nat /\
  (3 <= length (split_ws text))%nat /\
  post_process_transcription text = "I love you".
Proof.
  cbv zeta. split; [by vm_compute |]. split; [vm_compute; lia |].
  destruct (single_sentence_clean_up
              (String (ascii_of_nat 9) "I  love" +:+ String newline "you "))
    as [H _]; [by vm_compute |].
  rewrite H; [by vm_compute | vm_compute; lia].
Defined.

Lemma delete_others_kept (s : string) :
  all_chars is_kept_char (delete_others s) = true.
Proof.
  induction s as [| c s IH]; [done |]. simpl.
  destruct (is_kept_char c) eqn:Hc; [| done]. simpl. by rewrite Hc.
Qed.

Lemma delete_others_id (s : string) :
  all_chars is_kept_char s = true -> delete_others s = s.
Proof.
  induction s as [| c s IH]; [done |]. simpl.
  intros [Hc Hs]%andb_true_iff. by rewrite Hc, IH.
Qed.

(** X27 ([post_process_transcription], step 5).  The cleaned transcription
    holds only word characters, whitespace and the six punctuation marks
    of the class, so deleting the other characters once more changes
    nothing. *)
Theorem clean_up_output_alphabet (text : string) :
  all_chars is_kept_char (post_process_transcription text) = true /\
  delete_others (post_process_transcription text)
  = post_process_transcription text.
Proof.
  split; [apply delete_others_kept |].
  apply delete_others_id, delete_others_kept.
Qed.

(** X28 ([post_process_transcription], the list [filtered_lines]).  Every
    sentence that reaches the join holds no full stop, has no whitespace
    at either end, has more than three characters and at least two words,
    and is not made of two purely alphabetic words. *)
Theorem kept_sentences_invariant (text line : string) :
  line ∈ filtered_lines text ->
  count_char dot line = 0%nat /\ PyStr.strip line = line /\
  (3 < String.length line)%nat /\ (2 <= length (split_ws line))%nat /\
  ~ (letters_and_spaces line = true /\ length (split_ws line) = 2%nat).
Proof.
  unfold filtered_lines. cbv zeta.
  intros [Hkeep Hin]%list_elem_of_filter.
  change (map PyStr.strip (PyStr.split dot (PyStr.strip (collapse_ws text))))
    with (PyStr.strip <$> PyStr.split dot (PyStr.strip (collapse_ws text)))
    in Hin.
  apply list_elem_of_fmap in Hin as (part & -> & Hpart).
  pose proof (split_parts_clean dot (PyStr.strip (collapse_ws text))) as Hc.
  rewrite Forall_forall in Hc. specialize (Hc part Hpart).
  split; [pose proof (strip_count dot part); lia |].
  split; [apply strip_idem |].
  unfold keeps_line in Hkeep.
  apply andb_true_iff in Hkeep as [[H3 H2]%andb_true_iff Hn].
  apply Nat.ltb_lt in H3. apply Nat.leb_le in H2.
  split; [done |]. split; [done |]. intros [Hl Hw].
  apply negb_true_iff in Hn.
  assert (_is_noise_line (PyStr.strip part) = true) as Hyes
    by (apply noise_line_iff_words; tauto).
  congruence.
Qed.

Lemma kept_sentences_invariant_witness :
  let text := "Hold me. I love you, baby.  x y . Tonight we dance" in
  filtered_lines text = ["I love you, baby"; "Tonight we dance"] /\
  count_char dot "I love you, baby" = 0%nat.
Proof.
  cbv zeta. split; [by vm_compute |].
  apply (kept_sentences_invariant
           "Hold me. I love you, baby.  x y . Tonight we dance"
           "I love you, baby").
  assert (filtered_lines "Hold me. I love you, baby.  x y . Tonight we dance"
          = ["I love you, baby"; "Tonight we dance"]) as -> by (by vm_compute).
  apply list_elem_of_here.
Defined.
